(** * yt-short-clipper: the clip synthesis pipeline of [clipper_core.py]

    A shallow embedding of [AutoClipperCore] (desktop-app/clipper_core.py).

    Conventions of the embedding.
    - Python [int] is [Z]; Python [float] is modelled by the exact rational
      [Q] it denotes (all float operations are read as exact arithmetic).
    - [int(x)] on a float truncates toward zero: [python_int].
    - External collaborators (ffmpeg, yt-dlp, the OpenAI client, OpenCV's
      detector) are not executed: what they answered is an input of the
      model ([Pipeline.env], the list of detections per frame).
    - Python exceptions are the [Raise] results of a small state-and-error
      monad over an explicit [world]: the files on disk and the calls of
      the log and progress callbacks. The token callback, the metadata of
      the video and the prompt sent to the model have no part in the
      properties below and are left out.

    The file has two parts: the embedding, one module per component, and
    then the facts, one section per component. *)

From Stdlib Require Import ZArith QArith Qround Lia Lqa Bool Ascii String.
From stdpp Require Import base list sorting strings pretty gmap.

Local Open Scope Z_scope.

(** ** Python numeric helpers *)

(** [int(x)] for a float [x]: truncation toward zero. *)
Definition python_int (x : Q) : Z := Z.quot (Qnum x) (Zpos (Qden x)).

(** [l[a:b]] for [0 <= a] and [0 <= b]. *)
Definition slice {A} (l : list A) (a b : nat) : list A :=
  take (b - a) (drop a l).

(** [np.median] of a list of integers: the middle element of the sorted
    list, or the mean of the two middle elements when the length is even.
    NumPy returns [nan] on the empty list; the source never calls it there
    (every call is guarded or takes a non-empty window), the model returns
    [0] in that case. *)
Definition np_median (l : list Z) : Q :=
  let s := merge_sort Z.le l in
  let n := length s in
  match n return Q with
  | O => 0%Q
  | _ =>
    if Nat.odd n then inject_Z (nth (n / 2)%nat s 0)
    else ((inject_Z (nth (n / 2 - 1)%nat s 0%Z)
           + inject_Z (nth (n / 2)%nat s 0%Z)) / 2)%Q
  end.

(** ** The stabilized crop planner: [convert_to_portrait] and
    [stabilize_positions] *)

Module Planner.

(** *** First pass of [convert_to_portrait]: raw crop positions *)

(** A detection box [(x, y, w, h)] of [detectMultiScale]. *)
Record face := Face { fx : Z; fy : Z; fw : Z; fh : Z }.

(** [max(faces, key=lambda f: f[2] * f[3])]: the first box of maximal area. *)
Fixpoint max_by_area (best : face) (rest : list face) : face :=
  match rest with
  | [] => best
  | f :: rest' =>
    if (fw best * fh best <? fw f * fh f) then max_by_area f rest'
    else max_by_area best rest'
  end.

(** [crop_w = int(orig_h * target_ratio)] with [target_ratio = 9 / 16]. *)
Definition crop_width (orig_h : Z) : Z :=
  python_int (inject_Z orig_h * (9 / 16))%Q.

(** One iteration of the analysis loop: the new [current_target] and the
    appended [crop_x]. *)
Definition analyze_frame (orig_w crop_w : Z) (current_target : Q)
    (faces : list face) : Q * Z :=
  let current_target :=
    match faces with
    | [] => current_target
    | f :: rest =>
      let largest := max_by_area f rest in
      (inject_Z (fx largest) + inject_Z (fw largest) / 2)%Q
    end in
  let crop_x := python_int (current_target - inject_Z crop_w / 2)%Q in
  let crop_x := Z.max 0 (Z.min crop_x (orig_w - crop_w)) in
  (current_target, crop_x).

(** The analysis loop over the frames of the clip; [frames] holds what the
    face detector returned on each frame that [cap.read()] delivered. *)
Fixpoint analyze_frames (orig_w crop_w : Z) (current_target : Q)
    (frames : list (list face)) : list Z :=
  match frames with
  | [] => []
  | faces :: frames' =>
    let '(current_target, crop_x) :=
      analyze_frame orig_w crop_w current_target faces in
    crop_x :: analyze_frames orig_w crop_w current_target frames'
  end.

Definition raw_positions (orig_w orig_h : Z) (frames : list (list face))
  : list Z :=
  analyze_frames orig_w (crop_width orig_h) (inject_Z orig_w / 2)%Q frames.

(** *** [stabilize_positions] *)

Definition window_size : nat := 60.
Definition threshold : Z := 250.
Definition min_shot_duration : nat := 90.

(** First loop: centred median over a window of [window_size] frames. *)
Definition smooth_at (positions : list Z) (i : nat) : Z :=
  let start := Nat.max 0 (i - window_size / 2) in
  let end_ := Nat.min (length positions) (i + window_size / 2) in
  let window := slice positions start end_ in
  python_int (np_median window).

Definition smooth (positions : list Z) : list Z :=
  map (smooth_at positions) (seq 0 (length positions)).

(** [final.extend([shot_median] * len(shot_positions))] under
    [if shot_positions:]. *)
Definition lock_shot (final shot_positions : list Z) : list Z :=
  match shot_positions with
  | [] => final
  | _ =>
    let shot_median := python_int (np_median shot_positions) in
    final ++ replicate (length shot_positions) shot_median
  end.

(** Body of the second loop; the state is [(final, shot_start)]. *)
Definition shot_step (stabilized : list Z) (st : list Z * nat) (i : nat)
  : list Z * nat :=
  let '(final, shot_start) := st in
  let frames_since_last_switch := (i - shot_start)%nat in
  if (0 <? i)%nat && (min_shot_duration <=? frames_since_last_switch)%nat then
    if threshold <? Z.abs (nth i stabilized 0 - nth shot_start stabilized 0)
    then (lock_shot final (slice stabilized shot_start i), i)
    else st
  else st.

Definition shot_loop (stabilized : list Z) : list Z * nat :=
  fold_left (shot_step stabilized) (seq 0 (length stabilized)) ([], 0%nat).

(** Pass 3 as a function of the smoothed sequence: the second loop, the
    last shot and [return final if final else stabilized]. *)
Definition shot_lock (stabilized : list Z) : list Z :=
  let '(final, shot_start) := shot_loop stabilized in
  let final := lock_shot final (drop shot_start stabilized) in
  match final with
  | [] => stabilized
  | _ => final
  end.

Definition stabilize_positions (positions : list Z) : list Z :=
  match positions with
  | [] => positions
  | _ => shot_lock (smooth positions)
  end.

(** Consecutive entries are equal or more than [threshold] apart. *)
Fixpoint separated (f : list Z) : bool :=
  match f with
  | a :: (b :: _) as rest =>
    ((b =? a) || (threshold <? Z.abs (b - a))) && separated rest
  | _ => true
  end.

(** Every change of value is preceded by at least [min_shot_duration]
    equal entries. *)
Definition spaced (f : list Z) : Prop :=
  forall i, (0 < i < length f)%nat -> nth i f 0 <> nth (i - 1) f 0 ->
    (min_shot_duration <= i)%nat /\
    forall j, (i - min_shot_duration <= j < i)%nat ->
      nth j f 0 = nth (i - 1) f 0.

(** The last [min_shot_duration] entries exist and are equal. *)
Definition steady_tail (f : list Z) : Prop :=
  (min_shot_duration <= length f)%nat /\
  forall j, (length f - min_shot_duration <= j < length f)%nat ->
    nth j f 0 = nth (length f - 1) f 0.

(** What the loop has established after [i] iterations, on any input. *)
Definition shot_inv (i : nat) (st : list Z * nat) : Prop :=
  length st.1 = st.2 /\ (st.2 <= i)%nat /\ ((0 < i)%nat -> (st.2 < i)%nat) /\
  spaced st.1 /\ (st.1 = [] \/ steady_tail st.1).

(** What the loop has established after [i] iterations on a sequence that
    is already locked. *)
Definition fixed_inv (f : list Z) (i : nat) (st : list Z * nat) : Prop :=
  (st.2 <= i)%nat /\ ((0 < i)%nat -> (st.2 < i)%nat) /\
  st.1 = take st.2 f /\
  (forall j, (st.2 <= j < i)%nat -> nth j f 0 = nth st.2 f 0) /\
  (st.2 = 0%nat \/ nth st.2 f 0 <> nth (st.2 - 1) f 0).

(** The crop plan that drives the second pass of [convert_to_portrait]. *)
Definition crop_plan (orig_w orig_h : Z) (frames : list (list face))
  : list Z :=
  stabilize_positions (raw_positions orig_w orig_h frames).

End Planner.

(** ** Python exceptions *)

Inductive exn :=
| KeyError (key : string)
| IndexError
| ValueError (text : string)
| TypeError
| FileNotFoundError
| SameFileError
| Exception (msg : string).

(** The outcome of a Python call: a value or a raised exception. *)
Inductive result (A : Type) :=
| Ok (a : A)
| Raise (e : exn).
Arguments Ok {A} a.
Arguments Raise {A} e.

Definition rbind {A B} (r : result A) (k : A -> result B) : result B :=
  match r with
  | Ok a => k a
  | Raise e => Raise e
  end.

Notation "x <~ r ; k" := (rbind r (fun x => k))
  (at level 100, r at next level, right associativity).

(** ** The highlight selector: validation in [find_highlights] *)

Module Highlights.

(** A value of the parsed JSON response, as far as the filter looks. *)
Inductive json :=
| JString (s : string)
| JNumber (q : Q)
| JOther.

(** A candidate is a Python [dict]. *)
Abbreviation dict := (gmap string json).

(** [h[key]]. *)
Definition getitem (h : dict) (key : string) : result json :=
  match h !! key with
  | Some v => Ok v
  | None => Raise (KeyError key)
  end.

Definition is_digit (c : ascii) : bool :=
  (48 <=? nat_of_ascii c)%nat && (nat_of_ascii c <=? 57)%nat.

Definition digit_value (c : ascii) : Z := Z.of_nat (nat_of_ascii c) - 48.

Fixpoint digits_value (acc : Z) (s : string) : option Z :=
  match s with
  | EmptyString => Some acc
  | String c s' =>
    if is_digit c then digits_value (10 * acc + digit_value c) s' else None
  end.

(** [int(s)] on a non-empty string of ASCII digits. Python's [int] also
    accepts blanks, a sign and underscores; the model raises on those, so
    a statement about an [Ok] result of the model is a statement about
    digit strings. *)
Definition int_of_string (s : string) : result Z :=
  match s with
  | EmptyString => Raise (ValueError s)
  | _ =>
    match digits_value 0 s with
    | Some n => Ok n
    | None => Raise (ValueError s)
    end
  end.

(** The text before and after the first ['.'] of [s]. *)
Fixpoint split_dot (s : string) : string * option string :=
  match s with
  | EmptyString => (EmptyString, None)
  | String c s' =>
    if Ascii.eqb c "."%char then (EmptyString, Some s')
    else let '(a, b) := split_dot s' in (String c a, b)
  end.

(** [float(s)] on [digits], [digits.] and [digits.digits], read as the
    exact decimal. Other spellings that [float] accepts (exponents, signs,
    [inf]) raise in the model. *)
Definition float_of_string (s : string) : result Q :=
  let '(ip, fp) := split_dot s in
  n <~ int_of_string ip;
  match fp with
  | None => Ok (inject_Z n)
  | Some f =>
    match digits_value 0 f with
    | Some m =>
      Ok (inject_Z n + inject_Z m / inject_Z (10 ^ Z.of_nat (String.length f)))%Q
    | None => Raise (ValueError s)
    end
  end.

(** [ts.replace(",", ".")]. *)
Fixpoint replace_comma (ts : string) : string :=
  match ts with
  | EmptyString => EmptyString
  | String c s' =>
    String (if Ascii.eqb c ","%char then "."%char else c) (replace_comma s')
  end.

(** [ts.split(":")]. *)
Fixpoint split_colon (ts : string) : list string :=
  match ts with
  | EmptyString => [EmptyString]
  | String c s' =>
    let parts := split_colon s' in
    if Ascii.eqb c ":"%char then EmptyString :: parts
    else match parts with
         | p :: ps => String c p :: ps
         | [] => [String c EmptyString]
         end
  end.

(** [parts[i]]. *)
Definition part (parts : list string) (i : nat) : result string :=
  match parts !! i with
  | Some s => Ok s
  | None => Raise IndexError
  end.

Definition parse_timestamp (ts : string) : result Q :=
  let ts := replace_comma ts in
  let parts := split_colon ts in
  p0 <~ part parts 0;
  h <~ int_of_string p0;
  p1 <~ part parts 1;
  m <~ int_of_string p1;
  p2 <~ part parts 2;
  sec <~ float_of_string p2;
  Ok (inject_Z (h * 3600) + inject_Z (m * 60) + sec)%Q.

(** [self.parse_timestamp(h[key])]; a value that is not a string has no
    [replace]. *)
Definition timestamp_of (h : dict) (key : string) : result Q :=
  v <~ getitem h key;
  match v with
  | JString ts => parse_timestamp ts
  | _ => Raise TypeError
  end.

(** [round(x, 1)], read on the exact value: to the nearest tenth, ties to
    the even tenth. *)
Definition round1 (x : Q) : Q :=
  let t := (x * 10)%Q in
  let f := Qfloor t in
  let r := (t - inject_Z f)%Q in
  let n :=
    if negb (Qle_bool (1 # 2) r) then f
    else if negb (Qle_bool r (1 # 2)) then f + 1
    else if Z.even f then f else f + 1 in
  (inject_Z n / 10)%Q.

(** [valid[:num_clips]], also for a negative bound. *)
Definition slice_to {A} (l : list A) (n : Z) : list A :=
  if 0 <=? n then take (Z.to_nat n) l
  else take (length l - Z.to_nat (- n)) l.

(** The body of [for h in highlights] with its [break]: [inl valid] goes
    on with the next candidate, [inr valid] leaves the loop. *)
Definition filter_step (h : dict) (valid : list dict) (num_clips : Z)
  : result (list dict + list dict) :=
  e <~ timestamp_of h "end_time";
  s <~ timestamp_of h "start_time";
  let duration := (e - s)%Q in
  let h := <["duration_seconds"%string := JNumber (round1 duration)]> h in
  valid <~ (if Qle_bool 58 duration then
              _ <~ getitem h "title"; Ok (valid ++ [h])
            else Ok valid);
  if num_clips <=? Z.of_nat (length valid) then Ok (inr valid)
  else Ok (inl valid).

Fixpoint filter_loop (highlights : list dict) (valid : list dict)
    (num_clips : Z) : result (list dict) :=
  match highlights with
  | [] => Ok valid
  | h :: rest =>
    r <~ filter_step h valid num_clips;
    match r with
    | inl valid => filter_loop rest valid num_clips
    | inr valid => Ok valid
    end
  end.

(** [find_highlights] from [highlights = json.loads(result)] on. *)
Definition filter_by_duration (highlights : list dict) (num_clips : Z)
  : result (list dict) :=
  valid <~ filter_loop highlights [] num_clips;
  Ok (slice_to valid num_clips).

(** The duration the filter computes for a candidate, when both of its
    timestamps parse. *)
Definition duration_of (h : dict) : option Q :=
  match timestamp_of h "end_time", timestamp_of h "start_time" with
  | Ok e, Ok s => Some (e - s)%Q
  | _, _ => None
  end.

Definition long_enough (h : dict) : bool :=
  match duration_of h with
  | Some d => Qle_bool 58 d
  | None => false
  end.

(** The candidate as the loop leaves it: [h["duration_seconds"]] is set. *)
Definition with_duration (h : dict) : dict :=
  match duration_of h with
  | Some d => <["duration_seconds"%string := JNumber (round1 d)]> h
  | None => h
  end.

(** A candidate on which the loop body cannot raise. *)
Definition well_formed (h : dict) : Prop :=
  is_Some (duration_of h) /\ is_Some (h !! "title"%string).

(** A returned highlight: its [duration_seconds] is a rounded duration of
    at least 58 seconds. *)
Definition validated (h : dict) : Prop :=
  exists d, h !! "duration_seconds"%string = Some (JNumber (round1 d)) /\
            (58 <= d)%Q /\ (58 <= round1 d)%Q.

(** A candidate of the response, built from its two timestamps. *)
Definition candidate (start_time end_time title : string) : dict :=
  <["start_time"%string := JString start_time]>
    (<["end_time"%string := JString end_time]>
       (<["title"%string := JString title]> ∅)).

End Highlights.

(** ** The caption timeline: [create_ass_subtitle_capcut] *)

Module Captions.

(** [x // m] and [x % m] for floats with [m > 0]. *)
Definition floordiv (x m : Q) : Q := inject_Z (Qfloor (x / m)).
Definition pymod (x m : Q) : Q := (x - m * floordiv x m)%Q.

(** The four integers that [format_time] prints. *)
Record ass_time := AssTime {
  hours : Z;
  minutes : Z;
  secs : Z;
  centisecs : Z
}.

Definition format_time_fields (seconds : Q) : ass_time :=
  {| hours := python_int (floordiv seconds 3600);
     minutes := python_int (floordiv (pymod seconds 3600) 60);
     secs := python_int (pymod seconds 60);
     centisecs := python_int (pymod seconds 1 * 100)%Q |}.

(** [{n:02d}]. *)
Definition pad2 (n : Z) : string :=
  let s := pretty n in
  if (String.length s <? 2)%nat then String "0" s else s.

(** [f"{hours}:{minutes:02d}:{secs:02d}.{centisecs:02d}"]. *)
Definition ass_time_string (a : ass_time) : string :=
  pretty (hours a) +:+ ":" +:+ pad2 (minutes a) +:+ ":" +:+ pad2 (secs a)
    +:+ "." +:+ pad2 (centisecs a).

Definition format_time (seconds : Q) : string :=
  ass_time_string (format_time_fields seconds).

(** The time, in seconds, that an ASS time stands for. *)
Definition ass_time_seconds (a : ass_time) : Q :=
  (inject_Z (hours a) * 3600 + inject_Z (minutes a) * 60
   + inject_Z (secs a) + inject_Z (centisecs a) / 100)%Q.

(** A word of the verbose transcription. *)
Record word := Word { w_word : string; w_start : Q; w_end : Q }.

(** A segment is a [dict] read with [get(key, default)]. *)
Record segment := Segment {
  seg_start : option Q;
  seg_end : option Q;
  seg_text : option string
}.

(** The transcription object: [None] is a missing attribute. *)
Record transcript := Transcript {
  words : option (list word);
  segments : option (list segment)
}.

(** ASCII reading of [str.isspace], [str.strip] and [str.upper]; text
    outside ASCII is left as it is. *)
Definition is_space (c : ascii) : bool :=
  let n := nat_of_ascii c in
  ((9 <=? n) && (n <=? 13) || (28 <=? n) && (n <=? 32))%nat.

Fixpoint lstrip (s : list ascii) : list ascii :=
  match s with
  | c :: s' => if is_space c then lstrip s' else s
  | [] => []
  end.

Definition strip (s : string) : string :=
  string_of_list_ascii
    (rev (lstrip (rev (lstrip (list_ascii_of_string s))))).

Definition upper_char (c : ascii) : ascii :=
  let n := nat_of_ascii c in
  if ((97 <=? n) && (n <=? 122))%nat then ascii_of_nat (n - 32) else c.

Fixpoint upper (s : string) : string :=
  match s with
  | EmptyString => EmptyString
  | String c s' => String (upper_char c) (upper s')
  end.

(** [" ".join(parts)]. *)
Definition join_space (parts : list string) : string :=
  String.concat " " parts.

(** What one iteration of the word loop computes before it formats the
    times: [word_start], [word_end] and [text]. *)
Record caption := Caption { c_start : Q; c_end : Q; c_text : string }.

(** An entry of [events]. *)
Record event := Event { ev_start : string; ev_end : string; ev_text : string }.

Definition chunk_size : nat := 4.

(** The text of the chunk with word [j] highlighted. *)
Definition chunk_text (chunk : list word) (j : nat) : string :=
  let text_parts :=
    imap (fun k w =>
            let word_text := upper (strip (w_word w)) in
            if (k =? j)%nat
            then "{\c&H00FFFF&}" +:+ word_text +:+ "{\c&HFFFFFF&}"
            else word_text) chunk in
  join_space text_parts.

(** [for j, current_word in enumerate(chunk)]. *)
Definition chunk_captions (chunk : list word) (time_offset : Q)
  : list caption :=
  imap (fun j current_word =>
          {| c_start := (w_start current_word + time_offset)%Q;
             c_end := (w_end current_word + time_offset)%Q;
             c_text := chunk_text chunk j |}) chunk.

(** [for i in range(0, len(words), chunk_size)] with
    [chunk = words[i:i + chunk_size]]. *)
Definition chunks (ws : list word) : list (list word) :=
  map (fun k => slice ws (k * chunk_size) (k * chunk_size + chunk_size))
      (seq 0 ((length ws + chunk_size - 1) / chunk_size)).

Definition word_captions (ws : list word) (time_offset : Q) : list caption :=
  concat (map (fun chunk => chunk_captions chunk time_offset) (chunks ws)).

(** The fallback on segment-level timestamps. *)
Definition segment_captions (segs : list segment) (time_offset : Q)
  : list caption :=
  omap (fun seg =>
          let start := (default 0 (seg_start seg) + time_offset)%Q in
          let end_ := (default 0 (seg_end seg) + time_offset)%Q in
          let text := upper (strip (default EmptyString (seg_text seg))) in
          match text with
          | EmptyString => None
          | _ => Some {| c_start := start; c_end := end_; c_text := text |}
          end) segs.

Definition nonempty {A} (o : option (list A)) : option (list A) :=
  match o with
  | Some (x :: l) => Some (x :: l)
  | _ => None
  end.

Definition captions (t : transcript) (time_offset : Q) : list caption :=
  match nonempty (words t) with
  | Some ws => word_captions ws time_offset
  | None =>
    match nonempty (segments t) with
    | Some segs => segment_captions segs time_offset
    | None => []
    end
  end.

Definition event_of (c : caption) : event :=
  {| ev_start := format_time (c_start c);
     ev_end := format_time (c_end c);
     ev_text := c_text c |}.

(** The list [events] before it is written out. *)
Definition events (t : transcript) (time_offset : Q) : list event :=
  map event_of (captions t time_offset).

(** Caption [c_t] is caption [c_0] moved by [t] seconds. *)
Definition shifted_by (t : Q) (c_t c_0 : caption) : Prop :=
  c_text c_t = c_text c_0 /\
  (c_start c_t == c_start c_0 + t)%Q /\ (c_end c_t == c_end c_0 + t)%Q.

(** The ASS times written for [c_t] are those written for [c_0] moved by
    [t] seconds. *)
Definition written_shifted_by (t : Q) (c_t c_0 : caption) : Prop :=
  (ass_time_seconds (format_time_fields (c_start c_t))
   == ass_time_seconds (format_time_fields (c_start c_0)) + t)%Q /\
  (ass_time_seconds (format_time_fields (c_end c_t))
   == ass_time_seconds (format_time_fields (c_end c_0)) + t)%Q.

(** The event of caption [c_0] with the offset [t] added to its times
    before they are formatted. *)
Definition moved_event (t : Q) (c_0 : caption) : event :=
  {| ev_start := format_time (c_start c_0 + t);
     ev_end := format_time (c_end c_0 + t);
     ev_text := c_text c_0 |}.

Definition ass_header : string :=
"[Script Info]
Title: Auto-generated captions
ScriptType: v4.00+
WrapStyle: 0
PlayResX: 1080
PlayResY: 1920
ScaledBorderAndShadow: yes

[V4+ Styles]
Format: Name, Fontname, Fontsize, PrimaryColour, SecondaryColour, OutlineColour, BackColour, Bold, Italic, Underline, StrikeOut, ScaleX, ScaleY, Spacing, Angle, BorderStyle, Outline, Shadow, Alignment, MarginL, MarginR, MarginV, Encoding
Style: Default,Arial Black,65,&H00FFFFFF,&H000000FF,&H00000000,&H80000000,-1,0,0,0,100,100,0,0,1,4,2,2,50,50,400,1

[Events]
Format: Layer, Start, End, Style, Name, MarginL, MarginR, MarginV, Effect, Text
".

Definition newline : string := String (ascii_of_nat 10) EmptyString.

Definition dialogue_line (e : event) : string :=
  "Dialogue: 0," +:+ ev_start e +:+ "," +:+ ev_end e +:+ ",Default,,0,0,0,,"
    +:+ ev_text e +:+ newline.

(** The text that [create_ass_subtitle_capcut] writes to [output_path]. *)
Definition create_ass_subtitle_capcut (t : transcript) (time_offset : Q)
  : string :=
  fold_left (fun ass_content e => ass_content +:+ dialogue_line e)
            (events t time_offset) ass_header.

End Captions.

(** ** The orchestrator: [process], [process_clip] and their steps *)

Module Pipeline.

Import Highlights.

(** *** The world the pipeline acts on *)

(** A file name: [inl] is a [pathlib] path, given by its components;
    [inr n] is the name of the [n]-th [tempfile.NamedTemporaryFile]. *)
Abbreviation path := (list string + nat)%type.

Inductive node :=
| File (data : string)
| Dir.

Record world := World {
  fs : gmap path node;
  progress : list (string * Q);   (* calls of [set_progress] *)
  logs : list string;             (* calls of [log] *)
  tmp_count : nat                 (* temporary files created so far *)
}.

(** Where [is_cancelled()] is called. *)
Inductive poll_point :=
| PollDownload (iteration : nat)
| PollAfterDownload
| PollAfterHighlights
| PollLoop (index : nat)
| PollClip (index : nat) (step : nat).

(** What one [subprocess.run] of ffmpeg did: its return code and the
    file it wrote, if any. *)
Record ffmpeg_result := Ffmpeg { returncode : Z; output : option string }.

Record portrait_outcome := PortraitOutcome {
  written_video : string;          (* what the [VideoWriter] produced *)
  merge_run : ffmpeg_result
}.

Record hook_outcome := HookOutcome {
  tts : result string;             (* [client.audio.speech.create] *)
  tts_duration : option Q;         (* the [Duration:] that ffmpeg printed *)
  hook_video_run : ffmpeg_result;
  reencode_run : ffmpeg_result;
  concat_run : ffmpeg_result;
  concat_fallback_run : ffmpeg_result
}.

Record captions_outcome := CaptionsOutcome {
  extract_run : ffmpeg_result;
  stt : result Captions.transcript;   (* [client.audio.transcriptions.create] *)
  burn_run : ffmpeg_result
}.

(** What the collaborators answer during one run. *)
Record env := Env {
  cancel : poll_point -> bool;
  yt_lines : list string;          (* the output of yt-dlp, line by line *)
  yt_returncode : Z;
  yt_video : option string;        (* [source.mp4], when it was written *)
  yt_srt : option string;          (* [source.id.srt], when it was written *)
  llm_response : result (list dict);  (* the completion, parsed by [json.loads] *)
  clip_dir_name : nat -> string;   (* the time stamp followed by the index *)
  cut_run : nat -> ffmpeg_result;
  portrait : nat -> portrait_outcome;
  hook : nat -> hook_outcome;
  caption : nat -> captions_outcome
}.

(** *** A state and exception monad *)

Definition M (A : Type) : Type := world -> result A * world.

Definition ret {A} (a : A) : M A := fun w => (Ok a, w).

Definition raise {A} (e : exn) : M A := fun w => (Raise e, w).

Definition bind {A B} (m : M A) (k : A -> M B) : M B :=
  fun w =>
    match m w with
    | (Ok a, w') => k a w'
    | (Raise e, w') => (Raise e, w')
    end.

Notation "'let*' x ':=' m 'in' k" := (bind m (fun x => k))
  (at level 10, x name, m at level 100, k at level 200).

Notation "'do' m 'then' k" := (bind m (fun _ => k))
  (at level 10, m at level 100, k at level 200).

(** A pure call that may raise. *)
Definition lift {A} (r : result A) : M A := fun w => (r, w).

(** [str(e)] for the exceptions of the model. *)
Definition exn_text (e : exn) : string :=
  match e with
  | KeyError key => "'" +:+ key +:+ "'"
  | ValueError text => text
  | Exception msg => msg
  | IndexError => "list index out of range"
  | TypeError | FileNotFoundError | SameFileError => EmptyString
  end.

(** A JSON value inside an f-string. *)
Definition json_text (v : json) : string :=
  match v with
  | JString s => s
  | JNumber _ | JOther => EmptyString
  end.

Definition newline : string := String (ascii_of_nat 10) EmptyString.

(** *** The callbacks *)

Definition set_progress (status : string) (p : Q) : M unit :=
  fun w => (Ok tt, {| fs := fs w; progress := progress w ++ [(status, p)];
                      logs := logs w; tmp_count := tmp_count w |}).

(** [self.log(msg)]. Where the source interpolates a float or the name of
    the model into the message, the model logs the message without it. *)
Definition log (msg : string) : M unit :=
  fun w => (Ok tt, {| fs := fs w; progress := progress w;
                      logs := logs w ++ [msg]; tmp_count := tmp_count w |}).

Definition is_cancelled (e : env) (pt : poll_point) : M bool :=
  ret (cancel e pt).

(** *** The file system *)

Definition set_fs (f : gmap path node -> gmap path node) : M unit :=
  fun w => (Ok tt, {| fs := f (fs w); progress := progress w;
                      logs := logs w; tmp_count := tmp_count w |}).

Definition path_exists (p : path) : M bool :=
  fun w => (Ok (bool_decide (is_Some (fs w !! p))), w).

Definition write_file (p : path) (data : string) : M unit :=
  set_fs (insert p (File data)).

(** [Path.mkdir(parents=True, exist_ok=True)]. *)
Definition mkdir (p : list string) : M unit :=
  let* there := path_exists (inl p) in
  if there then ret tt else set_fs (insert (inl p) Dir).

(** [os.unlink]. *)
Definition unlink (p : path) : M unit :=
  let* there := path_exists p in
  if there then set_fs (delete p) else raise FileNotFoundError.

(** [Path.unlink(missing_ok=True)]. *)
Definition unlink_missing_ok (p : path) : M unit := set_fs (delete p).

(** [os.path.getsize]. *)
Definition getsize (p : path) : M nat :=
  fun w =>
    match fs w !! p with
    | Some (File data) => (Ok (String.length data), w)
    | Some Dir => (Ok 0%nat, w)
    | None => (Raise FileNotFoundError, w)
    end.

(** [shutil.copy]. *)
Definition copy (src dst : path) : M unit :=
  fun w =>
    if decide (src = dst) then (Raise SameFileError, w)
    else match fs w !! src with
         | Some (File data) => write_file dst data w
         | _ => (Raise FileNotFoundError, w)
         end.

(** [tempfile.NamedTemporaryFile(delete=False).name]: a fresh, empty
    file. *)
Definition named_temporary_file : M path :=
  fun w =>
    let p : path := inr (tmp_count w) in
    (Ok p, {| fs := <[p := File EmptyString]> (fs w); progress := progress w;
              logs := logs w; tmp_count := S (tmp_count w) |}).

Definition under (dir : list string) (p : path) : bool :=
  match p with
  | inl q => bool_decide (dir `prefix_of` q)
  | inr _ => false
  end.

(** [shutil.rmtree(dir, ignore_errors=True)]. *)
Definition rmtree (dir : list string) : M unit :=
  set_fs (filter (fun kv => under dir kv.1 = false)).

(** The file system after ffmpeg has run with output file [out]. *)
Definition written (out : path) (r : ffmpeg_result) (f : gmap path node)
  : gmap path node :=
  match output r with
  | Some data => <[out := File data]> f
  | None => f
  end.

(** [subprocess.run] of ffmpeg writing to [out]; the return code. *)
Definition run_ffmpeg (out : path) (r : ffmpeg_result) : M Z :=
  do set_fs (written out r) then ret (returncode r).

(** *** [download_video] *)

Definition contains (needle hay : string) : bool :=
  bool_decide (is_Some (String.index 0 needle hay)).

Fixpoint take_digits (s : string) : string * string :=
  match s with
  | String c s' =>
    if is_digit c then let '(d, r) := take_digits s' in (String c d, r)
    else (EmptyString, s)
  | EmptyString => (EmptyString, EmptyString)
  end.

(** A match of the pattern [digits, an optional dot, digits, percent sign]
    at the head of [s]: its group, the text before the percent sign. *)
Definition match_percent_at (s : string) : option string :=
  let '(d1, r1) := take_digits s in
  match d1 with
  | EmptyString => None
  | _ =>
    match r1 with
    | String c r2 =>
      if Ascii.eqb c "%" then Some d1
      else if Ascii.eqb c "." then
        let '(d2, r3) := take_digits r2 in
        match r3 with
        | String c3 _ =>
          if Ascii.eqb c3 "%" then Some (d1 +:+ "." +:+ d2) else None
        | EmptyString => None
        end
      else None
    | EmptyString => None
    end
  end.

(** [re.search] of that pattern in [line]: the group of the leftmost
    match. *)
Fixpoint search_percent (line : string) : option string :=
  match match_percent_at line with
  | Some g => Some g
  | None =>
    match line with
    | String _ rest => search_percent rest
    | EmptyString => None
    end
  end.

(** The fraction reported for a download percentage. *)
Definition download_fraction (percent : Q) : Q :=
  ((5 # 100) + percent / 100 * (2 # 10))%Q.

(** The body of the [while True] loop on one line of output;
    [last_progress] is threaded through. *)
Definition download_line (line last_progress : string) : M string :=
  let line := Captions.strip line in
  match line with
  | EmptyString => ret last_progress
  | _ =>
    if contains "[download]" line && contains "%" line then
      match search_percent line with
      | Some percent =>
        let progress_text := "  Downloading: " +:+ percent +:+ "%" in
        if String.eqb progress_text last_progress then ret last_progress
        else
          let* v := lift (float_of_string percent) in
          do set_progress ("Downloading video... " +:+ percent +:+ "%")
                          (download_fraction v)
          then ret progress_text
      | None => ret last_progress
      end
    else if contains "[Merger]" line || contains "Merging" line then
      do log "  Merging video & audio..."
      then do set_progress "Merging video & audio..." (25 # 100)
      then ret last_progress
    else ret last_progress
  end.

(** The loop over the output of yt-dlp: cancellation is polled before
    every [readline], also before the one that finds the output closed. *)
Fixpoint download_loop (e : env) (lines : list string) (iteration : nat)
    (last_progress : string) : M unit :=
  let* c := is_cancelled e (PollDownload iteration) in
  if c then raise (Exception "Cancelled by user")
  else
    match lines with
    | [] => ret tt
    | line :: rest =>
      let* last_progress := download_line line last_progress in
      download_loop e rest (S iteration) last_progress
    end.

Definition temp_dir (output_dir : list string) : list string :=
  output_dir ++ ["_temp"%string].

(** [download_video]: the path of the video and, when the subtitle file
    exists, its path (the metadata record is left out). The two files are
    what yt-dlp left in [temp_dir] when its output ended. *)
Definition download_video (e : env) (output_dir : list string)
  : M (list string * option (list string)) :=
  do log "[1/4] Downloading video & subtitle..."
  then do log "  Fetching video info..."
  then do log "  Downloading video..."
  then do download_loop e (yt_lines e) 0 EmptyString
  then
    do match yt_video e with
       | Some data =>
         write_file (inl (temp_dir output_dir ++ ["source.mp4"%string])) data
       | None => ret tt
       end
    then do match yt_srt e with
       | Some data =>
         write_file (inl (temp_dir output_dir ++ ["source.id.srt"%string])) data
       | None => ret tt
       end
    then
      if negb (yt_returncode e =? 0) then raise (Exception "Download failed!")
      else
        let video_path := temp_dir output_dir ++ ["source.mp4"%string] in
        let srt_path := temp_dir output_dir ++ ["source.id.srt"%string] in
        let* there := path_exists (inl srt_path) in
        if there then ret (video_path, Some srt_path)
        else
          do log "  Warning: No Indonesian subtitle found"
          then ret (video_path, None).

(** *** [find_highlights] *)

(** The completion call and [json.loads] answer [llm_response]; the
    validation is [Highlights.filter_by_duration]. *)

Definition find_highlights (e : env) (num_clips : Z) : M (list dict) :=
  do log "[2/4] Finding highlights..."
  then
    let* highlights := lift (llm_response e) in
    lift (filter_by_duration highlights num_clips).

(** *** [convert_to_portrait], as far as files go *)

Definition convert_to_portrait (o : portrait_outcome)
    (input_path output_path : list string) : M unit :=
  let* temp_video := named_temporary_file in
  do write_file temp_video (written_video o)
  then do run_ffmpeg (inl output_path) (merge_run o)
  then unlink temp_video.

(** *** [add_hook] *)

Definition add_hook (o : hook_outcome) (input_path : list string)
    (output_path : list string) : M Q :=
  let* audio := lift (tts o) in
  let* tts_file := named_temporary_file in
  do write_file tts_file audio
  then
    let hook_duration :=
      match tts_duration o with
      | Some d => (d + (5 # 10))%Q
      | None => 3%Q
      end in
    let* hook_video := named_temporary_file in
    do run_ffmpeg hook_video (hook_video_run o)
    then
      let* main_reencoded := named_temporary_file in
      do run_ffmpeg main_reencoded (reencode_run o)
      then
        let* concat_list := named_temporary_file in
        do write_file concat_list "file hook, file main"
        then
          let* rc := run_ffmpeg (inl output_path) (concat_run o) in
          do (if negb (rc =? 0)
              then do run_ffmpeg (inl output_path) (concat_fallback_run o)
                   then ret tt
              else ret tt)
          then do unlink tts_file
          then do unlink hook_video
          then do unlink main_reencoded
          then do unlink concat_list
          then ret hook_duration.

(** *** [add_captions_api] *)

Definition add_captions_api (o : captions_outcome)
    (input_path output_path : list string)
    (audio_source : option (list string)) (time_offset : Q) : M unit :=
  let* audio_file := named_temporary_file in
  let* rc := run_ffmpeg audio_file (extract_run o) in
  if negb (rc =? 0) then
    do log "  Warning: Audio extraction failed"
    then copy (inl input_path) (inl output_path)
  else
    let* there := path_exists audio_file in
    let* too_small :=
      (if there then
         let* size := getsize audio_file in ret (size <? 1000)%nat
       else ret true) in
    if too_small then
      do log "  Warning: Audio file too small or missing"
      then do copy (inl input_path) (inl output_path)
      then
        let* there := path_exists audio_file in
        if there then unlink audio_file else ret tt
    else
      match stt o with
      | Raise err =>
        do log ("  Warning: Whisper API error: " +:+ exn_text err)
        then do copy (inl input_path) (inl output_path)
        then unlink audio_file
      | Ok transcript =>
        do unlink audio_file
        then
          let* ass_file := named_temporary_file in
          do write_file ass_file
               (Captions.create_ass_subtitle_capcut transcript time_offset)
          then
            let* rc := run_ffmpeg (inl output_path) (burn_run o) in
            do unlink ass_file
            then
              if negb (rc =? 0) then
                do log "  Warning: Caption burn failed, copying without captions"
                then copy (inl input_path) (inl output_path)
              else ret tt
      end.

(** *** [process_clip] *)

(** [overall] of [clip_progress]. *)
Definition clip_fraction (index total_clips : nat) (step_num total_steps : Z)
  : Q :=
  let clip_base :=
    ((3 # 10) + (6 # 10) * inject_Z (Z.of_nat index - 1)
              / inject_Z (Z.of_nat total_clips))%Q in
  let clip_portion := ((6 # 10) / inject_Z (Z.of_nat total_clips))%Q in
  let step_progress :=
    (clip_portion * (inject_Z step_num / inject_Z total_steps))%Q in
  (clip_base + step_progress)%Q.

Definition clip_progress (index total_clips : nat) (step_name : string)
    (step_num : Z) : M unit :=
  set_progress ("Clip " +:+ pretty index +:+ "/" +:+ pretty total_clips
                +:+ ": " +:+ step_name)
               (clip_fraction index total_clips step_num 4).

Definition clip_dir (e : env) (output_dir : list string) (index : nat)
  : list string :=
  output_dir ++ [clip_dir_name e index].

(** The text of [data.json]; only the fact that it is written matters
    here. *)
Definition metadata_text : string := "{title, hook_text, start_time, end_time, duration_seconds}".

(** [process_clip] from "Step 2" on: portrait conversion, hook, captions,
    removal of the three temporary files and [data.json]. *)
Definition process_clip_from_portrait (e : env) (dir : list string)
    (highlight : dict) (index total_clips : nat) : M unit :=
  let landscape_file := dir ++ ["temp_landscape.mp4"%string] in
  (* Step 2: portrait *)
  let* c := is_cancelled e (PollClip index 2) in
  if c then ret tt else
  do clip_progress index total_clips "Converting to portrait..." 1 then
  let portrait_file := dir ++ ["temp_portrait.mp4"%string] in
  do convert_to_portrait (portrait e index) landscape_file portrait_file then
  do log "  ✓ Portrait conversion" then
  (* Step 3: hook *)
  let* c := is_cancelled e (PollClip index 3) in
  if c then ret tt else
  do clip_progress index total_clips "Adding hook..." 2 then
  let hooked_file := dir ++ ["temp_hooked.mp4"%string] in
  let* hook_duration := add_hook (hook e index) portrait_file hooked_file in
  do log "  ✓ Added hook" then
  (* Step 4: captions *)
  let* c := is_cancelled e (PollClip index 4) in
  if c then ret tt else
  do clip_progress index total_clips "Adding captions..." 3 then
  let final_file := dir ++ ["master.mp4"%string] in
  do add_captions_api (caption e index) hooked_file final_file
       (Some portrait_file) hook_duration then
  do log "  ✓ Added captions" then
  do clip_progress index total_clips "Done" 4 then
  do unlink_missing_ok (inl landscape_file) then
  do unlink_missing_ok (inl portrait_file) then
  do unlink_missing_ok (inl hooked_file) then
  let* duration := lift (getitem highlight "duration_seconds") in
  write_file (inl (dir ++ ["data.json"%string])) metadata_text.

Definition process_clip (e : env) (output_dir : list string)
    (video_path : list string) (highlight : dict) (index total_clips : nat)
  : M unit :=
  let* c := is_cancelled e (PollClip index 0) in
  if c then ret tt else
  let dir := clip_dir e output_dir index in
  do mkdir dir then
  let* start := lift (getitem highlight "start_time") in
  let* end_ := lift (getitem highlight "end_time") in
  let* title := lift (getitem highlight "title") in
  do log (newline +:+ "[Clip " +:+ pretty index +:+ "] " +:+ json_text title)
  then
  (* Step 1: cut *)
  let* c := is_cancelled e (PollClip index 1) in
  if c then ret tt else
  do clip_progress index total_clips "Cutting video..." 0 then
  let landscape_file := dir ++ ["temp_landscape.mp4"%string] in
  do run_ffmpeg (inl landscape_file) (cut_run e index) then
  do log "  ✓ Cut video" then
  process_clip_from_portrait e dir highlight index total_clips.

(** *** [process] *)

Definition cleanup (output_dir : list string) : M unit :=
  let* there := path_exists (inl (temp_dir output_dir)) in
  if there then rmtree (temp_dir output_dir) else ret tt.

(** [for i, highlight in enumerate(highlights, 1)]: [true] when the loop
    ran to its end, [false] when it left [process] by [return]. *)
Fixpoint process_clips (e : env) (output_dir video_path : list string)
    (highlights : list dict) (i total_clips : nat) : M bool :=
  match highlights with
  | [] => ret true
  | highlight :: rest =>
    let* c := is_cancelled e (PollLoop i) in
    if c then ret false
    else
      do process_clip e output_dir video_path highlight i total_clips
      then process_clips e output_dir video_path rest (S i) total_clips
  end.

(** The end of [process], after the loop. *)
Definition finish (output_dir : list string) (total_clips : nat) : M unit :=
  do set_progress "Cleaning up..." (95 # 100)
  then do cleanup output_dir
  then do set_progress "Complete!" 1
  then log (newline +:+ "✅ Created " +:+ pretty total_clips
            +:+ " clips in: " +:+ String.concat "/" output_dir).

(** [process] from "Step 3" on. *)
Definition process_highlights (e : env) (output_dir video_path : list string)
    (highlights : list dict) : M unit :=
  match highlights with
  | [] => raise (Exception "No valid highlights found!")
  | _ =>
    let total_clips := length highlights in
    let* completed :=
      process_clips e output_dir video_path highlights 1 total_clips in
    if completed then finish output_dir total_clips else ret tt
  end.

(** [process] from "Step 2" on. ([parse_srt] only prepares the text of
    the prompt.) *)
Definition process_downloaded (e : env) (output_dir video_path : list string)
    (num_clips : Z) : M unit :=
  do set_progress "Finding highlights..." (3 # 10) then
  let* highlights := find_highlights e num_clips in
  let* c := is_cancelled e PollAfterHighlights in
  if c then ret tt
  else process_highlights e output_dir video_path highlights.

Definition process (e : env) (output_dir : list string) (num_clips : Z)
  : M unit :=
  do set_progress "Downloading video..." (1 # 10) then
  let* downloaded := download_video e output_dir in
  let '(video_path, srt_path) := downloaded in
  let* c := is_cancelled e PollAfterDownload in
  if c then ret tt else
  match srt_path with
  | None => raise (Exception "No Indonesian subtitle found!")
  | Some _ => process_downloaded e output_dir video_path num_clips
  end.

(** The world in which a run starts: [__init__] has made [temp_dir]. *)
Definition initial_world (output_dir : list string) : world :=
  {| fs := {[ inl (temp_dir output_dir) := Dir ]};
     progress := []; logs := []; tmp_count := 0 |}.

(** *** Properties of runs *)

(** The audio that the extraction step left in the temporary file. *)
Definition audio_data (o : captions_outcome) : string :=
  default EmptyString (output (extract_run o)).

(** Transcription fails outright: the extraction returns non-zero, the
    extracted audio is shorter than 1000 bytes, or the speech-to-text call
    raises. *)
Definition transcription_fails (o : captions_outcome) : bool :=
  negb (returncode (extract_run o) =? 0)
  || (String.length (audio_data o) <? 1000)%nat
  || match stt o with Raise _ => true | Ok _ => false end.

(** [m] never removes [p]. *)
Definition keeps {A} (p : path) (m : M A) : Prop :=
  forall w, is_Some (fs w !! p) -> is_Some (fs (m w).2 !! p).

(** [m] leaves [p] in place whenever it ends with an exception. *)
Definition keeps_on_raise {A} (p : path) (m : M A) : Prop :=
  forall w, is_Some (fs w !! p) ->
    forall err, (m w).1 = Raise err -> is_Some (fs (m w).2 !! p).

(** The names of the per-clip temporary files. *)
Definition temp_names : list string :=
  ["temp_landscape.mp4"; "temp_portrait.mp4"; "temp_hooked.mp4"]%string.

Definition is_temp_file (q : list string) : bool :=
  match last q with
  | Some name => bool_decide (name ∈ temp_names)
  | None => false
  end.

Definition landscape_of (e : env) (output_dir : list string) (k : nat)
  : list string :=
  clip_dir e output_dir k ++ ["temp_landscape.mp4"%string].

(** Cancellation is seen in the middle of clip [k]: at the poll before
    the portrait conversion, before the hook, or before the captions (the
    hook has then been composed, so its text-to-speech call answered). *)
Definition seen_mid_clip (e : env) (k : nat) : Prop :=
  cancel e (PollClip k 2) = true \/
  cancel e (PollClip k 3) = true \/
  (cancel e (PollClip k 4) = true /\ exists audio, tts (hook e k) = Ok audio).

(** The highlight has the keys that [process_clip] reads first. *)
Definition has_clip_keys (h : dict) : Prop :=
  is_Some (h !! "start_time"%string) /\ is_Some (h !! "end_time"%string) /\
  is_Some (h !! "title"%string).

(** The fractions passed to the progress callback so far. *)
Definition fractions (w : world) : list Q := map snd (progress w).

(** [lo <= x1 <= x2 <= ... <= xn <= hi]. *)
Fixpoint ascending (lo hi : Q) (l : list Q) : Prop :=
  match l with
  | [] => (lo <= hi)%Q
  | x :: l' => (lo <= x)%Q /\ ascending x hi l'
  end.

(** [m] reports a list of fractions that satisfies [P]. *)
Definition emits_such {A} (P : list Q -> Prop) (m : M A) : Prop :=
  forall w, exists l, fractions (m w).2 = fractions w ++ l /\ P l.

Definition emits {A} (lo hi : Q) (m : M A) : Prop :=
  emits_such (ascending lo hi) m.

(** [m] reports no progress. *)
Definition silent {A} (m : M A) : Prop :=
  forall w, progress (m w).2 = progress w.

(** The percentage that [download_video] reads from a line of yt-dlp. *)
Definition reported_percent (line : string) : option Q :=
  let line := Captions.strip line in
  if contains "[download]" line && contains "%" line then
    match search_percent line with
    | Some percent =>
      match float_of_string percent with
      | Ok v => Some v
      | Raise _ => None
      end
    | None => None
    end
  else None.

Definition download_range (q : Q) : Prop := (5 # 100 <= q <= 25 # 100)%Q.

(** *** Example runs *)

Definition ok_run (data : string) : ffmpeg_result := Ffmpeg 0 (Some data).

Definition example_highlights : list dict :=
  [with_duration (candidate "00:10:00,000" "00:11:30,000" "first");
   with_duration (candidate "00:20:00,000" "00:21:30,000" "second");
   with_duration (candidate "00:30:00,000" "00:31:30,000" "third")].

(** A run of three clips in which every collaborator succeeds;
    [cancelled] and [tts_answer] are left open. *)
Definition example_env (cancelled : poll_point -> bool)
    (tts_answer : nat -> result string) : env :=
  {| cancel := cancelled;
     yt_lines := ["[download]   0.0% of 10.00MiB"%string;
                  "[download]  50.5% of 10.00MiB"%string;
                  "[download] 100% of 10.00MiB"%string;
                  "[Merger] Merging formats into source.mp4"%string];
     yt_returncode := 0;
     yt_video := Some "video"%string;
     yt_srt := Some "subtitles"%string;
     llm_response := Ok example_highlights;
     clip_dir_name := fun i =>
       ("20240101-120000" +:+ Captions.pad2 (Z.of_nat i))%string;
     cut_run := fun _ => ok_run "landscape";
     portrait := fun _ => PortraitOutcome "frames" (ok_run "portrait");
     hook := fun i =>
       {| tts := tts_answer i; tts_duration := Some (27 # 10);
          hook_video_run := ok_run "hook"; reencode_run := ok_run "main";
          concat_run := ok_run "hooked";
          concat_fallback_run := ok_run "hooked" |};
     caption := fun _ =>
       {| extract_run := Ffmpeg 1 None;
          stt := Raise (Exception "unreachable");
          burn_run := ok_run "captioned" |} |}.

(** The user cancels while clip 2 is being cut: every poll from the one
    before the portrait conversion of clip 2 on answers [true]. *)
Definition cancel_in_clip_2 (pt : poll_point) : bool :=
  match pt with
  | PollClip i step => (3 <=? i)%nat || ((i =? 2)%nat && (2 <=? step)%nat)
  | PollLoop i => (3 <=? i)%nat
  | _ => false
  end.

(** The text-to-speech call fails on clip 2. *)
Definition tts_fails_on_clip_2 (i : nat) : result string :=
  if (i =? 2)%nat then Raise (Exception "speech synthesis failed")
  else Ok "speech"%string.

End Pipeline.

(** ** Text helpers: regular expressions and [str] methods

    The patterns of the source are matched by hand. In each of them a
    greedy run of digits is followed by a character that is not a digit,
    so the only run that can match is the maximal one: [take_digits].
    Text is read as ASCII: a digit is one of 0 to 9, a blank is a
    character of [Captions.is_space], and the letters that [upper] and
    [lower] change are those of a to z and A to Z. *)

Module Text.

Import Highlights.

(** A literal at the head of [s]: the rest of [s]. *)
Fixpoint match_literal (lit s : string) : option string :=
  match lit with
  | EmptyString => Some s
  | String c lit' =>
    match s with
    | String a s' => if Ascii.eqb a c then match_literal lit' s' else None
    | EmptyString => None
    end
  end.

(** One character of each class of [classes], in order, at the head of
    [s]: the text matched and the rest. *)
Fixpoint match_classes (classes : list (ascii -> bool)) (s : string)
  : option (string * string) :=
  match classes with
  | [] => Some (EmptyString, s)
  | class :: classes' =>
    match s with
    | String a s' =>
      if class a then
        '(m, r) ← match_classes classes' s'; Some (String a m, r)
      else None
    | EmptyString => None
    end
  end.

(** [\d+] at the head of [s]. *)
Definition match_digits (s : string) : option (string * string) :=
  let '(d, r) := Pipeline.take_digits s in
  match d with
  | EmptyString => None
  | _ => Some (d, r)
  end.

(** [re.search]: the leftmost position of [s] at which [match_at]
    succeeds. *)
Fixpoint search {A} (match_at : string -> option A) (s : string) : option A :=
  match match_at s with
  | Some a => Some a
  | None =>
    match s with
    | String _ s' => search match_at s'
    | EmptyString => None
    end
  end.

(** [s.replace(old, new)] for a one-character [old]. *)
Fixpoint replace_char (old : ascii) (new : string) (s : string) : string :=
  match s with
  | EmptyString => EmptyString
  | String c s' =>
    if Ascii.eqb c old then new +:+ replace_char old new s'
    else String c (replace_char old new s')
  end.

(** [s.split()]: the maximal runs of characters that are not blanks;
    [cur] is the run being read. *)
Fixpoint split_from (cur : string) (s : string) : list string :=
  match s with
  | EmptyString =>
    match cur with
    | EmptyString => []
    | _ => [cur]
    end
  | String c s' =>
    if Captions.is_space c then
      match cur with
      | EmptyString => split_from EmptyString s'
      | _ => cur :: split_from EmptyString s'
      end
    else split_from (cur +:+ String c EmptyString) s'
  end.

Definition split (s : string) : list string := split_from EmptyString s.

(** ASCII reading of [str.lower]. *)
Definition lower_char (c : ascii) : ascii :=
  let n := nat_of_ascii c in
  if ((65 <=? n) && (n <=? 90))%nat then ascii_of_nat (n + 32) else c.

Fixpoint lower (s : string) : string :=
  match s with
  | EmptyString => EmptyString
  | String c s' => String (lower_char c) (lower s')
  end.

Definition newline : string := String (ascii_of_nat 10) EmptyString.
Definition backslash : string := String (ascii_of_nat 92) EmptyString.

(** A word of [split]: not empty, no blank in it. *)
Definition is_word (w : string) : Prop :=
  w <> EmptyString /\
  Forall (fun c => Captions.is_space c = false) (list_ascii_of_string w).

(** The head of [s] is not a digit. *)
Definition no_digit_ahead (s : string) : Prop :=
  match s with
  | String c _ => is_digit c = false
  | EmptyString => True
  end.

End Text.

(** ** The transcript of the prompt: [parse_srt] *)

Module Srt.

Import Highlights Text.

(** [\d{2}:\d{2}:\d{2},\d{3}]. *)
Definition timestamp_classes : list (ascii -> bool) :=
  [is_digit; is_digit; Ascii.eqb ":"%char;
   is_digit; is_digit; Ascii.eqb ":"%char;
   is_digit; is_digit; Ascii.eqb ","%char;
   is_digit; is_digit; is_digit].

(** [(.*?)(?=\n\n|\Z)] under [re.DOTALL]: the shortest text after which
    the string ends or an empty line follows; it always matches. *)
Fixpoint lazy_text (s : string) : string * string :=
  match s with
  | EmptyString => (EmptyString, EmptyString)
  | String a s' =>
    if String.prefix (newline +:+ newline) s then (EmptyString, s)
    else let '(text, rest) := lazy_text s' in (String a text, rest)
  end.

(** The four groups of a match. *)
Record cue_match := CueMatch {
  m_idx : string;
  m_start : string;
  m_end : string;
  m_text : string
}.

(** The pattern of [parse_srt] at the head of [s]: the groups and the
    rest of [s]. *)
Definition match_cue_at (s : string) : option (cue_match * string) :=
  '(idx, r) ← match_digits s;
  r ← match_literal newline r;
  '(start, r) ← match_classes timestamp_classes r;
  r ← match_literal " --> " r;
  '(end_, r) ← match_classes timestamp_classes r;
  r ← match_literal newline r;
  let '(text, rest) := lazy_text r in
  Some ({| m_idx := idx; m_start := start; m_end := end_; m_text := text |},
        rest).

(** [re.findall]: the matches from left to right, each search starting
    where the previous match ended. A match is never empty, so every
    round consumes a character and [fuel] rounds are enough for a string
    shorter than [fuel]. *)
Fixpoint findall (fuel : nat) (s : string) : list cue_match :=
  match fuel with
  | O => []
  | S fuel' =>
    match match_cue_at s with
    | Some (m, rest) => m :: findall fuel' rest
    | None =>
      match s with
      | String _ s' => findall fuel' s'
      | EmptyString => []
      end
    end
  end.

(** The body of [for idx, start, end, text in matches]. *)
Definition cue_line (m : cue_match) : string :=
  let clean_text := Captions.strip (replace_char (ascii_of_nat 10) " " (m_text m)) in
  "[" +:+ m_start m +:+ " - " +:+ m_end m +:+ "] " +:+ clean_text.

(** [parse_srt] on the text of the file. *)
Definition parse_srt (content : string) : string :=
  let matches := findall (S (String.length content)) content in
  String.concat newline (map cue_line matches).

(** A cue of a subtitle file: its counter, its two time stamps and the
    lines of its text. *)
Record cue := Cue {
  cue_index : string;
  cue_start : string;
  cue_end : string;
  cue_lines : list string
}.

(** The block of a cue in SubRip format. *)
Definition cue_block (c : cue) : string :=
  cue_index c +:+ newline +:+ cue_start c +:+ " --> " +:+ cue_end c
    +:+ newline +:+ String.concat newline (cue_lines c).

(** A SubRip file: the blocks, one empty line between two of them. *)
Definition srt_file (cues : list cue) : string :=
  String.concat (newline +:+ newline) (map cue_block cues).

Definition is_timestamp (s : string) : Prop :=
  match_classes timestamp_classes s = Some (s, EmptyString).

Definition is_text_line (s : string) : Prop :=
  s <> EmptyString /\
  Forall (fun c => Ascii.eqb c (ascii_of_nat 10) = false)
         (list_ascii_of_string s).

Definition well_formed_cue (c : cue) : Prop :=
  cue_index c <> EmptyString /\
  Forall (fun a => is_digit a = true) (list_ascii_of_string (cue_index c)) /\
  is_timestamp (cue_start c) /\ is_timestamp (cue_end c) /\
  Forall is_text_line (cue_lines c).

(** The string ends here or an empty line follows. *)
Definition blank_ahead (s : string) : Prop :=
  s = EmptyString \/ String.prefix (newline +:+ newline) s = true.

(** The line that [parse_srt] is expected to write for a cue. *)
Definition transcript_line (c : cue) : string :=
  "[" +:+ cue_start c +:+ " - " +:+ cue_end c +:+ "] "
    +:+ Captions.strip (String.concat " " (cue_lines c)).

End Srt.

(** ** The text of the hook: [add_hook] *)

Module Hook.

Import Highlights Text.

(** The loop [for word in words]; the state is [(lines, current_line)]. *)
Fixpoint lines_loop (words : list string) (lines current_line : list string)
  : list string * list string :=
  match words with
  | [] => (lines, current_line)
  | word :: rest =>
    let current_line := current_line ++ [word] in
    if (3 <=? length current_line)%nat then
      lines_loop rest (lines ++ [Captions.join_space current_line]) []
    else lines_loop rest lines current_line
  end.

(** The lines of the hook text: upper case, at most three words each. *)
Definition hook_lines (hook_text : string) : list string :=
  let hook_upper := Captions.upper hook_text in
  let words := split hook_upper in
  let '(lines, current_line) := lines_loop words [] [] in
  match current_line with
  | [] => lines
  | _ => lines ++ [Captions.join_space current_line]
  end.

(** The escaping of a line for the [drawtext] filter: three [replace]
    calls, the one for the backslash last. *)
Definition escape_line (line : string) : string :=
  replace_char (ascii_of_nat 92) (backslash +:+ backslash)
    (replace_char ":"%char (backslash +:+ ":")
       (replace_char "'"%char ("'" +:+ backslash +:+ "''") line)).

(** What the three calls do to one character. *)
Definition escape_char (c : ascii) : string :=
  if Ascii.eqb c "'"%char then
    "'" +:+ backslash +:+ backslash +:+ "''"
  else if Ascii.eqb c ":"%char then backslash +:+ backslash +:+ ":"
  else if Ascii.eqb c (ascii_of_nat 92) then backslash +:+ backslash
  else String c EmptyString.

(** [Duration: (\d+):(\d+):(\d+\.\d+)] at the head of [s]. *)
Definition match_duration_at (s : string) : option (string * string * string) :=
  r ← match_literal "Duration: " s;
  '(h, r) ← match_digits r;
  r ← match_literal ":" r;
  '(m, r) ← match_digits r;
  r ← match_literal ":" r;
  '(s1, r) ← match_digits r;
  r ← match_literal "." r;
  '(s2, _) ← match_digits r;
  Some (h, m, s1 +:+ "." +:+ s2).

(** [hook_duration] from what ffmpeg printed about the speech file. *)
Definition hook_duration (stderr : string) : result Q :=
  match search match_duration_at stderr with
  | Some (h, m, s) =>
    hv <~ int_of_string h;
    mv <~ int_of_string m;
    sv <~ float_of_string s;
    Ok (inject_Z (hv * 3600) + inject_Z (mv * 60) + sv + (5 # 10))%Q
  | None => Ok 3%Q
  end.

End Hook.

(** ** The desktop application: [app.py] *)

Module App.

Import Highlights Text Pipeline.

(** [[0-9A-Za-z_-]]. *)
Definition is_id_char (c : ascii) : bool :=
  let n := nat_of_ascii c in
  (is_digit c || (65 <=? n) && (n <=? 90) || (97 <=? n) && (n <=? 122)
   || Ascii.eqb c "_"%char || Ascii.eqb c "-"%char)%nat.

(** [(?:v=|\/)([0-9A-Za-z_-]{11}).*] at the head of [s]: its group. The
    trailing [.*] matches whatever follows. *)
Definition match_watch_at (s : string) : option string :=
  r ← match match_literal "v=" s with
      | Some r => Some r
      | None => match_literal "/" s
      end;
  '(video_id, _) ← match_classes (replicate 11 is_id_char) r;
  Some video_id.

(** [(?:youtu\.be\/)([0-9A-Za-z_-]{11})] at the head of [s]. *)
Definition match_short_at (s : string) : option string :=
  r ← match_literal "youtu.be/" s;
  '(video_id, _) ← match_classes (replicate 11 is_id_char) r;
  Some video_id.

(** [for pattern in patterns]: the first pattern that is found decides. *)
Definition extract_video_id (url : string) : option string :=
  match search match_watch_at url with
  | Some video_id => Some video_id
  | None =>
    match search match_short_at url with
    | Some video_id => Some video_id
    | None => None
    end
  end.

(** What [run_processing] schedules on the interface thread. *)
Inductive callback :=
| OnComplete
| OnCancelled
| OnError (error_msg : string).

(** [run_processing] from the call of [process] on (the core object has
    been built): [cancelled] is the flag of the application when [process]
    has returned or raised. *)
Definition run_processing (e : env) (cancelled : bool)
    (output_dir : list string) (num_clips : Z) (w : world) : list callback :=
  match process e output_dir num_clips w with
  | (Ok _, _) => if negb cancelled then [OnComplete] else []
  | (Raise err, _) =>
    let error_msg := exn_text err in
    if cancelled || contains "cancel" (lower error_msg) then [OnCancelled]
    else [OnError error_msg]
  end.

End App.

(** ** Properties of runs on the file system *)

Module Runs.

Import Pipeline.

(** The names that [tempfile] has not handed out yet are not on disk. *)
Definition fresh_temps (w : world) : Prop :=
  forall n, (tmp_count w <= n)%nat -> fs w !! inr n = None.

(** The temporary files on disk are the same in [w] and [w']. *)
Definition same_temps (w w' : world) : Prop :=
  forall n, fs w' !! inr n = fs w !! inr n.

(** A world for examples: the input video is on disk and no temporary
    file has been made yet. *)
Definition example_world : world :=
  {| fs := {[ inl ["in.mp4"%string] := File "video" ]};
     progress := []; logs := []; tmp_count := 0 |}.

(** The extraction of the audio fails. *)
Definition extraction_fails : captions_outcome :=
  {| extract_run := Ffmpeg 1 None;
     stt := Raise (Exception "not called");
     burn_run := ok_run "captioned" |}.

End Runs.

(** * Facts *)

(** ** The numeric helpers *)

Section NumericFacts.

Lemma python_int_inject_Z (a : Z) : python_int (inject_Z a) = a.
Proof. unfold python_int; simpl. apply Z.quot_1_r. Qed.

Lemma python_int_mean (a b : Z) :
  python_int ((inject_Z a + inject_Z b) / 2)%Q = Z.quot (a + b) 2.
Proof.
  unfold python_int; simpl.
  rewrite !Z.mul_1_r. reflexivity.
Qed.

Lemma quot2_between (lo hi a b : Z) :
  lo <= a <= hi -> lo <= b <= hi -> lo <= Z.quot (a + b) 2 <= hi.
Proof.
  intros Ha Hb. Z.to_euclidean_division_equations. lia.
Qed.

Lemma slice_length {A} (l : list A) (a b : nat) :
  (b <= length l)%nat -> length (slice l a b) = (b - a)%nat.
Proof.
  intros Hb. unfold slice. rewrite length_take, length_drop. lia.
Qed.

Lemma Forall_slice {A} (P : A -> Prop) (l : list A) (a b : nat) :
  Forall P l -> Forall P (slice l a b).
Proof. intros H. unfold slice. by apply Forall_take, Forall_drop. Qed.

(** The truncated median of a non-empty list lies between any two bounds
    of its elements. *)
Lemma int_median_between (lo hi : Z) (l : list Z) :
  l <> [] ->
  Forall (fun x => lo <= x <= hi) l ->
  lo <= python_int (np_median l) <= hi.
Proof.
  intros Hne Hl. unfold np_median.
  set (s := merge_sort Z.le l).
  assert (Hs : Forall (fun x => lo <= x <= hi) s).
  { unfold s. by rewrite merge_sort_Permutation. }
  assert (Hlen : length s = length l).
  { unfold s. by rewrite merge_sort_Permutation. }
  assert (Hpos : (0 < length s)%nat).
  { rewrite Hlen. destruct l; [done | simpl; lia]. }
  destruct (length s) as [|n'] eqn:Hn; [lia|].
  rewrite <- Hn in *.
  pose proof (proj1 (List.Forall_nth _ s) Hs) as Hnth.
  assert (Hhalf : (length s / 2 < length s)%nat).
  { apply Nat.div_lt; lia. }
  destruct (Nat.odd (length s)).
  - rewrite python_int_inject_Z. apply Hnth. exact Hhalf.
  - rewrite python_int_mean. apply quot2_between; apply Hnth; lia.
Qed.

Lemma int_median_constant (m : Z) (l : list Z) :
  l <> [] -> Forall (fun x => x = m) l -> python_int (np_median l) = m.
Proof.
  intros Hne Hl.
  assert (m <= python_int (np_median l) <= m); [|lia].
  apply int_median_between; [done|].
  eapply Forall_impl; [exact Hl|]. simpl. lia.
Qed.

End NumericFacts.

(** ** The stabilized crop planner *)

Section PlannerFacts.

Import Planner.

Lemma lock_shot_Forall (P : Z -> Prop) (lo hi : Z) (final sp : list Z) :
  (forall x, lo <= x <= hi -> P x) ->
  Forall P final -> Forall (fun x => lo <= x <= hi) sp ->
  Forall P (lock_shot final sp).
Proof.
  intros HP Hf Hsp. unfold lock_shot.
  destruct sp as [|x sp']; [done|].
  apply Forall_app; split; [done|].
  apply Forall_replicate, HP, int_median_between; done.
Qed.

Lemma smooth_window_nonempty (positions : list Z) (i : nat) :
  (i < length positions)%nat ->
  slice positions (Nat.max 0 (i - window_size / 2))
        (Nat.min (length positions) (i + window_size / 2)) <> [].
Proof.
  intros Hi Hnil. apply (f_equal length) in Hnil.
  rewrite slice_length in Hnil by lia.
  change (window_size / 2)%nat with 30%nat in Hnil. simpl in Hnil. lia.
Qed.

Lemma smooth_between (lo hi : Z) (positions : list Z) :
  Forall (fun x => lo <= x <= hi) positions ->
  Forall (fun x => lo <= x <= hi) (smooth positions).
Proof.
  intros H. unfold smooth. apply Forall_map, Forall_forall.
  intros i Hi. apply elem_of_seq in Hi. simpl.
  unfold smooth_at. apply int_median_between.
  - apply smooth_window_nonempty. lia.
  - by apply Forall_slice.
Qed.

Lemma shot_fold_between (lo hi : Z) (stabilized : list Z) (idx : list nat)
    (st : list Z * nat) :
  Forall (fun x => lo <= x <= hi) stabilized ->
  Forall (fun x => lo <= x <= hi) st.1 ->
  Forall (fun x => lo <= x <= hi) (fold_left (shot_step stabilized) idx st).1.
Proof.
  intros Hs. revert st. induction idx as [|i idx IH]; intros st Hst; [done|].
  simpl. apply IH. unfold shot_step. destruct st as [final shot_start].
  destruct (_ && _); [|done].
  destruct (_ <? _); [|done]. simpl.
  eapply lock_shot_Forall; [| done | by apply Forall_slice]. done.
Qed.

Lemma shot_lock_between (lo hi : Z) (stabilized : list Z) :
  Forall (fun x => lo <= x <= hi) stabilized ->
  Forall (fun x => lo <= x <= hi) (shot_lock stabilized).
Proof.
  intros Hs. unfold shot_lock.
  pose proof (shot_fold_between lo hi stabilized
                (seq 0 (length stabilized)) ([], 0%nat) Hs) as Hloop.
  fold (shot_loop stabilized) in Hloop.
  destruct (shot_loop stabilized) as [final shot_start]. simpl in Hloop.
  assert (Hfin : Forall (fun x => lo <= x <= hi)
                   (lock_shot final (drop shot_start stabilized))).
  { eapply lock_shot_Forall; [| by apply Hloop | by apply Forall_drop]. done. }
  destruct (lock_shot _ _); done.
Qed.

Lemma stabilize_positions_between (lo hi : Z) (positions : list Z) :
  Forall (fun x => lo <= x <= hi) positions ->
  Forall (fun x => lo <= x <= hi) (stabilize_positions positions).
Proof.
  intros H. unfold stabilize_positions. destruct positions; [done|].
  by apply shot_lock_between, smooth_between.
Qed.

Lemma analyze_frames_clamped (orig_w crop_w : Z) (t : Q)
    (frames : list (list face)) :
  Forall (fun x => 0 <= x <= Z.max 0 (orig_w - crop_w))
         (analyze_frames orig_w crop_w t frames).
Proof.
  revert t. induction frames as [|faces frames IH]; intros t; simpl; [done|].
  constructor; [lia | apply IH].
Qed.

(** *** Reading lists by index *)

Lemma nth_slice (l : list Z) (a b j : nat) :
  (j < b - a)%nat -> nth j (slice l a b) 0 = nth (a + j) l 0.
Proof.
  intros Hj. rewrite !nth_lookup. unfold slice.
  by rewrite lookup_take_lt, lookup_drop.
Qed.

Lemma nth_replicate_lt (k j : nat) (m : Z) :
  (j < k)%nat -> nth j (replicate k m) 0 = m.
Proof. intros Hj. by apply nth_lookup_Some, lookup_replicate_2. Qed.

Lemma nth_take_lt (l : list Z) (k j : nat) :
  (j < k)%nat -> nth j (take k l) 0 = nth j l 0.
Proof. intros Hj. rewrite !nth_lookup. by rewrite lookup_take_lt. Qed.

Lemma constant_run_replicate (l : list Z) (c : Z) :
  (forall j, (j < length l)%nat -> nth j l 0 = c) ->
  l = replicate (length l) c.
Proof.
  intros H. symmetry. apply replicate_as_Forall_2; [done|].
  apply List.Forall_nth. intros j d Hj. rewrite <- (H j Hj).
  apply nth_indep. exact Hj.
Qed.

Lemma lock_shot_constant (final sp : list Z) (c : Z) :
  (forall j, (j < length sp)%nat -> nth j sp 0 = c) ->
  lock_shot final sp = final ++ sp.
Proof.
  intros H. unfold lock_shot. destruct sp as [|x sp']; [by rewrite app_nil_r|].
  set (l := x :: sp') in *.
  rewrite (int_median_constant c l).
  - by rewrite <- constant_run_replicate.
  - done.
  - apply List.Forall_nth. intros j d Hj. rewrite <- (H j Hj).
    apply nth_indep. exact Hj.
Qed.

Lemma separated_nth (f : list Z) (i : nat) :
  separated f = true -> (S i < length f)%nat ->
  nth (S i) f 0 = nth i f 0 \/ threshold < Z.abs (nth (S i) f 0 - nth i f 0).
Proof.
  revert i. induction f as [|a f IH]; intros i Hsep Hi; simpl in Hi; [lia|].
  destruct f as [|b f']; simpl in Hi; [lia|].
  simpl in Hsep. apply andb_true_iff in Hsep as [Hab Hrest].
  destruct i as [|i'].
  - simpl. apply orb_true_iff in Hab as [Heq | Hgt]; [left | right]; lia.
  - change (nth (S (S i')) (a :: b :: f') 0) with (nth (S i') (b :: f') 0).
    change (nth (S i') (a :: b :: f') 0) with (nth i' (b :: f') 0).
    apply IH; [exact Hrest | simpl; lia].
Qed.

(** *** Loop invariants of the shot-detection loop *)

Lemma fold_seq_invariant {S : Type} (I : nat -> S -> Prop)
    (step : S -> nat -> S) (n : nat) (st0 : S) :
  I 0%nat st0 ->
  (forall i st, (i < n)%nat -> I i st -> I (Datatypes.S i) (step st i)) ->
  I n (fold_left step (seq 0 n) st0).
Proof.
  intros H0 Hstep. induction n as [|n IH]; [exact H0|].
  rewrite seq_S, fold_left_app. simpl. apply Hstep; [lia|].
  apply IH. intros i st Hi. apply Hstep. lia.
Qed.

Lemma spaced_app_replicate (final : list Z) (k : nat) (m : Z) :
  spaced final -> final = [] \/ steady_tail final ->
  spaced (final ++ replicate k m).
Proof.
  intros Hsp Htail i Hi Hjump.
  rewrite length_app, length_replicate in Hi.
  destruct (Nat.lt_trichotomy i (length final)) as [Hlt | [Heq | Hgt]].
  - rewrite !app_nth1 in Hjump by lia.
    destruct (Hsp i ltac:(lia) Hjump) as [H90 Hrun].
    split; [exact H90|]. intros j Hj.
    rewrite !app_nth1 by lia. by apply Hrun.
  - destruct Htail as [-> | [H90 Hrun]]; [simpl in Heq; lia|].
    subst i. split; [exact H90|]. intros j Hj.
    rewrite !app_nth1 by lia. by apply Hrun.
  - exfalso. apply Hjump.
    rewrite !app_nth2 by lia. rewrite !nth_replicate_lt by lia. done.
Qed.

Lemma steady_tail_app_replicate (final : list Z) (k : nat) (m : Z) :
  (min_shot_duration <= k)%nat -> steady_tail (final ++ replicate k m).
Proof.
  intros Hk. unfold steady_tail.
  rewrite length_app, length_replicate.
  split; [lia|]. intros j Hj.
  rewrite !app_nth2 by lia. rewrite !nth_replicate_lt by lia. done.
Qed.

Lemma lock_shot_nonempty (final sp : list Z) :
  sp <> [] ->
  lock_shot final sp =
    final ++ replicate (length sp) (python_int (np_median sp)).
Proof. intros H. unfold lock_shot. by destruct sp. Qed.

Lemma shot_step_cases (s final : list Z) (ss i : nat) :
  shot_step s (final, ss) i = (final, ss) \/
  ((0 < i)%nat /\ (min_shot_duration <= i - ss)%nat /\
   threshold < Z.abs (nth i s 0 - nth ss s 0) /\
   shot_step s (final, ss) i = (lock_shot final (slice s ss i), i)).
Proof.
  unfold shot_step; cbv zeta.
  destruct (0 <? i)%nat eqn:H0; [|by left].
  destruct (min_shot_duration <=? i - ss)%nat eqn:H90; [|by left].
  destruct (threshold <? Z.abs (nth i s 0 - nth ss s 0)) eqn:Hth; [|by left].
  right.
  apply Nat.ltb_lt in H0. apply Nat.leb_le in H90. apply Z.ltb_lt in Hth.
  split_and!; [done | done | done | reflexivity].
Qed.

Lemma shot_step_switch (s final : list Z) (ss i : nat) :
  (0 < i)%nat -> (min_shot_duration <= i - ss)%nat ->
  threshold < Z.abs (nth i s 0 - nth ss s 0) ->
  shot_step s (final, ss) i = (lock_shot final (slice s ss i), i).
Proof.
  intros H0 H90 Hth. unfold shot_step; cbv zeta.
  apply Nat.ltb_lt in H0. apply Nat.leb_le in H90. apply Z.ltb_lt in Hth.
  by rewrite H0, H90, Hth.
Qed.

Lemma shot_step_keep (s final : list Z) (ss i : nat) :
  nth i s 0 = nth ss s 0 -> shot_step s (final, ss) i = (final, ss).
Proof.
  intros Heq. unfold shot_step; cbv zeta.
  rewrite Heq, Z.sub_diag.
  destruct (_ && _); reflexivity.
Qed.

Lemma shot_loop_inv (s : list Z) : shot_inv (length s) (shot_loop s).
Proof.
  unfold shot_loop. apply fold_seq_invariant.
  - unfold shot_inv; cbn [fst snd]. split_and!; try (lia || done); [|by left].
    intros i Hi; simpl in Hi; lia.
  - intros i [final ss] Hi (Hlen & Hle & Hlt & Hsp & Htail); cbn [fst snd] in *.
    destruct (shot_step_cases s final ss i) as [-> | (Hi0 & H90 & _ & ->)].
    { unfold shot_inv; cbn [fst snd]. split_and!; (lia || done). }
    assert (Hsl : length (slice s ss i) = (i - ss)%nat)
      by (apply slice_length; lia).
    assert (Hne : slice s ss i <> []).
    { intros E. rewrite E in Hsl. simpl in Hsl.
      unfold min_shot_duration in H90. lia. }
    rewrite (lock_shot_nonempty _ _ Hne), Hsl.
    unfold shot_inv; cbn [fst snd]. split_and!.
    + rewrite length_app, length_replicate. lia.
    + lia.
    + lia.
    + by apply spaced_app_replicate.
    + right. by apply steady_tail_app_replicate.
Qed.

(** The output of pass 3 changes value only after a run of at least
    [min_shot_duration] equal positions. *)
Lemma shot_lock_spaced (s : list Z) : spaced (shot_lock s).
Proof.
  destruct (decide (s = [])) as [-> | Hs].
  { intros i Hi. simpl in Hi. lia. }
  assert (Hpos : (0 < length s)%nat) by (destruct s; [done | simpl; lia]).
  pose proof (shot_loop_inv s) as Hinv. unfold shot_lock.
  destruct (shot_loop s) as [final ss].
  destruct Hinv as (Hlen & Hle & Hlt & Hsp & Htail); cbn [fst snd] in *.
  specialize (Hlt Hpos).
  assert (Hne : drop ss s <> []).
  { intros E. apply (f_equal length) in E. rewrite length_drop in E.
    simpl in E. lia. }
  rewrite (lock_shot_nonempty _ _ Hne).
  assert (Hout : spaced (final ++ replicate (length (drop ss s))
                           (python_int (np_median (drop ss s)))))
    by (by apply spaced_app_replicate).
  destruct (final ++ _) eqn:E; [|exact Hout].
  apply (f_equal length) in E.
  rewrite length_app, length_replicate, length_drop in E. simpl in E. lia.
Qed.

Lemma shot_loop_fixed (f : list Z) :
  separated f = true -> spaced f -> fixed_inv f (length f) (shot_loop f).
Proof.
  intros Hsep Hsp. unfold shot_loop. apply fold_seq_invariant.
  - unfold fixed_inv; cbn [fst snd].
    split_and!; first [lia | done | by left | intros; lia].
  - intros i [final ss] Hi (Hle & Hlt & Hfin & Hrun & Hstart);
      cbn [fst snd] in *.
    destruct i as [|i'].
    { assert (ss = 0%nat) as -> by lia. rewrite shot_step_keep by done.
      unfold fixed_inv; cbn [fst snd].
      split_and!; first [lia | done | by left | idtac].
      intros j Hj. assert (j = 0%nat) as -> by lia. done. }
    specialize (Hlt ltac:(lia)).
    assert (Hprev : nth i' f 0 = nth ss f 0) by (apply Hrun; lia).
    destruct (Z.eq_dec (nth (S i') f 0) (nth i' f 0)) as [Heq | Hneq].
    + (* no change of value: the state is kept *)
      rewrite shot_step_keep by congruence.
      unfold fixed_inv; cbn [fst snd]. split_and!; try (lia || done).
      intros j Hj. destruct (decide (j = S i')) as [-> | Hne].
      * congruence.
      * apply Hrun. lia.
    + (* a change of value: it is far enough and large enough *)
      destruct (separated_nth f i' Hsep ltac:(lia)) as [? | Hbig]; [done|].
      destruct (Hsp (S i') ltac:(lia)) as [H90 Hback].
      { replace (S i' - 1)%nat with i' by lia. done. }
      replace (S i' - 1)%nat with i' in Hback by lia.
      assert (Hfar : (min_shot_duration <= S i' - ss)%nat).
      { destruct Hstart as [-> | Hjump]; [lia|].
        destruct (le_lt_dec min_shot_duration (S i' - ss)) as [|Hclose];
          [done|].
        exfalso. apply Hjump.
        rewrite <- Hprev. symmetry. apply Hback. lia. }
      rewrite shot_step_switch; [| lia | done | by rewrite <- Hprev].
      assert (Hsl : length (slice f ss (S i')) = (S i' - ss)%nat)
        by (apply slice_length; lia).
      rewrite (lock_shot_constant _ _ (nth ss f 0)).
      2:{ intros j Hj. rewrite Hsl in Hj. rewrite nth_slice by lia.
          apply Hrun. lia. }
      unfold fixed_inv; cbn [fst snd]. split_and!; try lia.
      * rewrite Hfin. unfold slice. rewrite take_take_drop.
        f_equal. lia.
      * intros j Hj. assert (j = S i') as -> by lia. done.
      * right. replace (S i' - 1)%nat with i' by lia. done.
Qed.

(** A sequence that is already locked is a fixed point of pass 3. *)
Lemma shot_lock_fixed (f : list Z) :
  separated f = true -> spaced f -> shot_lock f = f.
Proof.
  intros Hsep Hsp. pose proof (shot_loop_fixed f Hsep Hsp) as Hinv.
  unfold shot_lock. destruct (shot_loop f) as [final ss].
  destruct Hinv as (Hle & Hlt & Hfin & Hrun & _); simpl in *.
  rewrite (lock_shot_constant _ _ (nth ss f 0)).
  - rewrite Hfin, take_drop. by destruct f.
  - intros j Hj. rewrite length_drop in Hj.
    rewrite nth_lookup, lookup_drop, <- nth_lookup. apply Hrun. lia.
Qed.

(** *** A clip on which the detector never fires *)

Lemma analyze_frames_no_faces (orig_w crop_w : Z) (t : Q) (n : nat) :
  analyze_frames orig_w crop_w t (replicate n []) =
  replicate n (Z.max 0 (Z.min (python_int (t - inject_Z crop_w / 2)%Q)
                              (orig_w - crop_w))).
Proof. induction n as [|n IH]; simpl; [done|]. by rewrite IH. Qed.

Lemma python_int_centre (orig_w crop_w : Z) :
  python_int (inject_Z orig_w / 2 - inject_Z crop_w / 2)%Q
  = Z.quot (orig_w - crop_w) 2.
Proof.
  unfold python_int; simpl.
  change (Z.pos (1 * 2 * (1 * 2))) with (2 * 2).
  change (Z.pos (1 * 2)) with 2.
  replace (orig_w * 1 * 2 + - (crop_w * 1) * 2) with ((orig_w - crop_w) * 2)
    by lia.
  apply Z.quot_mul_cancel_r; lia.
Qed.

Lemma centred_offset (orig_w crop_w : Z) :
  Z.max 0 (Z.min (Z.quot (orig_w - crop_w) 2) (orig_w - crop_w))
  = Z.max 0 ((orig_w - crop_w) / 2).
Proof. Z.to_euclidean_division_equations. lia. Qed.

Lemma raw_positions_no_faces (orig_w orig_h : Z) (n : nat) :
  raw_positions orig_w orig_h (replicate n []) =
  replicate n (Z.max 0 ((orig_w - crop_width orig_h) / 2)).
Proof.
  unfold raw_positions.
  by rewrite analyze_frames_no_faces, python_int_centre, centred_offset.
Qed.

Lemma smooth_replicate (n : nat) (c : Z) :
  smooth (replicate n c) = replicate n c.
Proof.
  unfold smooth. rewrite length_replicate. symmetry.
  apply replicate_as_Forall_2; [by rewrite length_map, length_seq|].
  apply Forall_forall. intros x Hx.
  apply list_elem_of_fmap in Hx as (i & -> & Hi). apply elem_of_seq in Hi.
  unfold smooth_at. symmetry. apply int_median_constant.
  - apply smooth_window_nonempty. rewrite length_replicate. lia.
  - apply Forall_slice, Forall_replicate. done.
Qed.

Lemma separated_replicate (n : nat) (c : Z) : separated (replicate n c) = true.
Proof.
  induction n as [|n IH]; [done|].
  destruct n as [|n']; [done|].
  cbn [replicate separated] in *. by rewrite IH, Z.eqb_refl.
Qed.

Lemma spaced_replicate (n : nat) (c : Z) : spaced (replicate n c).
Proof.
  intros i Hi Hjump. rewrite length_replicate in Hi.
  exfalso. apply Hjump. by rewrite !nth_replicate_lt by lia.
Qed.

Lemma shot_loop_replicate (n : nat) (c : Z) :
  (shot_loop (replicate n c)).2 = 0%nat.
Proof.
  pose proof (shot_loop_fixed (replicate n c) (separated_replicate n c)
                (spaced_replicate n c)) as (Hle & Hlt & _ & _ & Hstart).
  rewrite length_replicate in *.
  destruct Hstart as [-> | Hjump]; [done|].
  destruct n as [|n']; [lia|]. specialize (Hlt ltac:(lia)).
  exfalso. apply Hjump. by rewrite !nth_replicate_lt by lia.
Qed.

Lemma stabilize_positions_replicate (n : nat) (c : Z) :
  stabilize_positions (replicate n c) = replicate n c.
Proof.
  unfold stabilize_positions. destruct n as [|n']; [done|].
  change (replicate (S n') c) with (c :: replicate n' c) at 1.
  cbv iota. rewrite smooth_replicate.
  apply shot_lock_fixed; [apply separated_replicate | apply spaced_replicate].
Qed.

(** *** Bounds, idempotence and the clip without detections *)

(** C1 (as amended): when the crop window fits into the source frame
    ([crop_w <= orig_w]), every position of the crop plan lies in
    [[0, orig_w - crop_w]]; on every source the positions lie in
    [[0, max 0 (orig_w - crop_w)]]; and [stabilize_positions] keeps every
    list of positions of [[0, orig_w - crop_w]] inside that interval. *)
Theorem crop_plan_within_frame (orig_w orig_h : Z)
    (frames : list (list face)) (positions : list Z) :
  (crop_width orig_h <= orig_w ->
   Forall (fun x => 0 <= x <= orig_w - crop_width orig_h)
          (crop_plan orig_w orig_h frames)) /\
  Forall (fun x => 0 <= x <= Z.max 0 (orig_w - crop_width orig_h))
         (crop_plan orig_w orig_h frames) /\
  (Forall (fun x => 0 <= x <= orig_w - crop_width orig_h) positions ->
   Forall (fun x => 0 <= x <= orig_w - crop_width orig_h)
          (stabilize_positions positions)).
Proof.
  assert (Hmax : Forall (fun x => 0 <= x <= Z.max 0 (orig_w - crop_width orig_h))
                   (crop_plan orig_w orig_h frames)).
  { unfold crop_plan, raw_positions.
    apply stabilize_positions_between, analyze_frames_clamped. }
  split_and!.
  - intros Hw. eapply Forall_impl; [exact Hmax|]. simpl. lia.
  - exact Hmax.
  - apply stabilize_positions_between.
Qed.

Lemma crop_plan_within_frame_witness :
  Forall (fun x => 0 <= x <= 1920 - crop_width 1080)
    (crop_plan 1920 1080 [[]; [Face 100 40 60 60; Face 900 30 80 80]; []]) /\
  Forall (fun x => 0 <= x <= 1920 - crop_width 1080)
    (stabilize_positions [0; 1313; 640]).
Proof.
  split.
  - apply (proj1 (crop_plan_within_frame 1920 1080
      [[]; [Face 100 40 60 60; Face 900 30 80 80]; []] [0; 1313; 640])).
    vm_compute. discriminate.
  - apply (proj2 (proj2 (crop_plan_within_frame 1920 1080
      [[]; [Face 100 40 60 60; Face 900 30 80 80]; []] [0; 1313; 640]))).
    repeat (constructor; [split; vm_compute; discriminate|]). constructor.
Defined.

(** C1 as stated fails on a source narrower than the 9:16 window: a
    498x1080 clip has [crop_w = 607], every position is [0], and
    [0 <= 498 - 607] is false. *)
Lemma crop_plan_narrow_source_counterexample :
  ~ Forall (fun x => 0 <= x <= 498 - crop_width 1080)
      (crop_plan 498 1080 [[]; []]).
Proof.
  intros H. apply Forall_cons in H as [[_ H] _].
  vm_compute in H. by apply H.
Qed.

(** C2 (as amended): pass 3 returns its own output unchanged whenever, in
    that output, consecutive positions are equal or more than [threshold]
    pixels apart, that is, whenever neighbouring shots were locked to
    medians that differ by more than the threshold. *)
Theorem shot_lock_idempotent_separated (s : list Z) :
  separated (shot_lock s) = true ->
  shot_lock (shot_lock s) = shot_lock s.
Proof.
  intros Hsep. apply shot_lock_fixed; [exact Hsep | apply shot_lock_spaced].
Qed.

Lemma shot_lock_idempotent_separated_witness :
  separated (shot_lock (replicate 95 0 ++ [380] ++ replicate 95 400)) = true /\
  shot_lock (shot_lock (replicate 95 0 ++ [380] ++ replicate 95 400))
  = shot_lock (replicate 95 0 ++ [380] ++ replicate 95 400).
Proof.
  split; [by vm_compute|].
  apply (shot_lock_idempotent_separated
           (replicate 95 0 ++ [380] ++ replicate 95 400)).
  by vm_compute.
Defined.

(** C2 as stated fails: 90 frames at 0, one frame at 300 and 10 frames at
    100 are locked to two shots with medians 0 and 100; on that output the
    boundary is no longer detected (100 <= 250) and every frame is
    reassigned to 0. *)
Lemma shot_lock_not_idempotent_counterexample :
  shot_lock (replicate 90 0 ++ [300] ++ replicate 10 100)
    = replicate 90 0 ++ replicate 11 100 /\
  shot_lock (shot_lock (replicate 90 0 ++ [300] ++ replicate 10 100))
    = replicate 101 0 /\
  shot_lock (shot_lock (replicate 90 0 ++ [300] ++ replicate 10 100))
    <> shot_lock (replicate 90 0 ++ [300] ++ replicate 10 100).
Proof. split_and!; [by vm_compute | by vm_compute |]. by vm_compute. Qed.

(** C7 (as amended): when the detector fires on no frame, the plan is the
    constant sequence of [max 0 ((orig_w - crop_w) / 2)], the centred
    offset rounded down whenever the crop window fits into the frame, and
    the shot loop never moves [shot_start]: the clip is a single shot. *)
Theorem crop_plan_no_detection (orig_w orig_h : Z) (n : nat) :
  crop_plan orig_w orig_h (replicate n [])
    = replicate n (Z.max 0 ((orig_w - crop_width orig_h) / 2)) /\
  (shot_loop (smooth (raw_positions orig_w orig_h (replicate n [])))).2
    = 0%nat.
Proof.
  split.
  - unfold crop_plan. rewrite raw_positions_no_faces.
    apply stabilize_positions_replicate.
  - rewrite raw_positions_no_faces, smooth_replicate.
    apply shot_loop_replicate.
Qed.

(** C7 as stated fails on the 498x1080 source: the plan is constantly [0]
    while [(orig_w - crop_w) / 2] is negative. *)
Lemma crop_plan_no_detection_counterexample :
  crop_plan 498 1080 (replicate 3 []) = [0; 0; 0] /\
  (498 - crop_width 1080) / 2 = -55 /\
  ~ Forall (fun x => x = (498 - crop_width 1080) / 2)
      (crop_plan 498 1080 (replicate 3 [])).
Proof.
  split_and!; [by vm_compute | by vm_compute |].
  intros H. apply Forall_cons in H as [H _]. vm_compute in H. discriminate.
Qed.

End PlannerFacts.

(** ** The highlight selector *)

Section HighlightFacts.

Import Highlights.

Lemma filter_step_well_formed (h : dict) (valid : list dict) (num_clips : Z) :
  well_formed h ->
  filter_step h valid num_clips =
    let valid' :=
      if long_enough h then valid ++ [with_duration h] else valid in
    Ok (if num_clips <=? Z.of_nat (length valid') then inr valid'
        else inl valid').
Proof.
  intros [[d Hd] [t Ht]].
  unfold filter_step, long_enough, with_duration. rewrite Hd.
  unfold duration_of in Hd.
  destruct (timestamp_of h "end_time") as [e|]; [|done].
  destruct (timestamp_of h "start_time") as [s0|]; [|done].
  injection Hd as <-. cbn [rbind].
  destruct (Qle_bool 58 (e - s0)); cbn [rbind]; cbv zeta.
  - unfold getitem. rewrite lookup_insert_ne by done. rewrite Ht.
    cbn [rbind]. by destruct (_ <=? _).
  - by destruct (_ <=? _).
Qed.

Lemma filter_loop_spec (highlights valid : list dict) (num_clips : Z) :
  Forall well_formed highlights ->
  Z.of_nat (length valid) < num_clips ->
  filter_loop highlights valid num_clips =
    Ok (valid ++ take (Z.to_nat num_clips - length valid)
                   (with_duration <$> List.filter long_enough highlights)).
Proof.
  intros Hwf. revert valid.
  induction Hwf as [|h rest Hh Hrest IH]; intros valid Hlen.
  { simpl. by rewrite take_nil, app_nil_r. }
  cbn [filter_loop List.filter]. rewrite filter_step_well_formed by done.
  cbv zeta. destruct (long_enough h); cbn [rbind].
  - rewrite length_app. cbn [length].
    destruct (Z.leb_spec num_clips (Z.of_nat (length valid + 1))) as [Hbr|Hgo].
    + replace (Z.to_nat num_clips - length valid)%nat with 1%nat by lia.
      rewrite fmap_cons. done.
    + rewrite IH by (rewrite length_app; simpl; lia).
      rewrite length_app. cbn [length]. rewrite <- app_assoc. f_equal.
      rewrite fmap_cons.
      replace (Z.to_nat num_clips - length valid)%nat
        with (S (Z.to_nat num_clips - (length valid + 1)))%nat by lia.
      done.
  - destruct (Z.leb_spec num_clips (Z.of_nat (length valid))); [lia|].
    by apply IH.
Qed.

Lemma round1_at_least_58 (d : Q) : (58 <= d)%Q -> (58 <= round1 d)%Q.
Proof.
  intros Hd. unfold round1.
  set (f := Qfloor (d * 10)).
  assert (Hf : 580 <= f).
  { change 580 with (Qfloor 580). apply Qfloor_resp_le.
    change (580 : Q) with (58 * 10)%Q. by apply Qmult_le_compat_r. }
  set (n := if negb _ then f else _).
  assert (Hn : 580 <= n).
  { unfold n. destruct (negb _); [lia|].
    destruct (negb _); [lia|]. destruct (Z.even f); lia. }
  unfold Qle; simpl. lia.
Qed.

Lemma filter_step_validated (h : dict) (valid : list dict) (num_clips : Z)
    (r : list dict + list dict) :
  filter_step h valid num_clips = Ok r ->
  Forall validated valid ->
  Forall validated (match r with inl v => v | inr v => v end).
Proof.
  unfold filter_step. intros Hr Hvalid.
  destruct (timestamp_of h "end_time") as [e|]; [|done].
  destruct (timestamp_of h "start_time") as [s0|]; [|done].
  cbn [rbind] in Hr.
  destruct (Qle_bool 58 (e - s0)) eqn:Hd; cbn [rbind] in Hr.
  - destruct (getitem _ _); [|done]. cbn [rbind] in Hr.
    assert (Hnew : Forall validated
      (valid ++ [<["duration_seconds"%string := JNumber (round1 (e - s0))]> h])).
    { apply Forall_app; split; [done|]. constructor; [|done].
      apply Qle_bool_iff in Hd.
      exists (e - s0)%Q. split_and!; [by rewrite lookup_insert_eq | done |].
      by apply round1_at_least_58. }
    destruct (_ <=? _); injection Hr as <-; done.
  - destruct (_ <=? _); injection Hr as <-; done.
Qed.

Lemma filter_loop_validated (highlights valid out : list dict)
    (num_clips : Z) :
  filter_loop highlights valid num_clips = Ok out ->
  Forall validated valid -> Forall validated out.
Proof.
  revert valid. induction highlights as [|h rest IH]; intros valid Hout Hv.
  { simpl in Hout. by injection Hout as <-. }
  cbn [filter_loop] in Hout.
  destruct (filter_step h valid num_clips) as [r|] eqn:Hstep; [|done].
  pose proof (filter_step_validated _ _ _ _ Hstep Hv) as Hr.
  cbn [rbind] in Hout. destruct r as [v | v].
  - by eapply IH.
  - by injection Hout as <-.
Qed.



(** C6 (as amended): every highlight that [find_highlights] returns has
    [duration_seconds = round(d, 1)] for a duration [d >= 58], hence
    [duration_seconds >= 58]; the code sets no upper bound. *)
Theorem find_highlights_duration_at_least_58 (highlights out : list dict)
    (num_clips : Z) :
  filter_by_duration highlights num_clips = Ok out ->
  Forall (fun h => exists d,
            h !! "duration_seconds"%string = Some (JNumber (round1 d)) /\
            (58 <= d)%Q /\ (58 <= round1 d)%Q) out.
Proof.
  unfold filter_by_duration. intros Hout.
  destruct (filter_loop highlights [] num_clips) as [valid|] eqn:Hloop;
    [|done].
  cbn [rbind] in Hout. injection Hout as <-.
  pose proof (filter_loop_validated _ _ _ _ Hloop ltac:(constructor)) as Hv.
  unfold slice_to. destruct (0 <=? num_clips); by apply Forall_take.
Qed.

Lemma find_highlights_duration_at_least_58_witness :
  filter_by_duration
    [candidate "00:10:00,000" "00:10:57,900" "short";
     candidate "00:10:00,000" "00:11:30,250" "good"] 1
  = Ok [with_duration (candidate "00:10:00,000" "00:11:30,250" "good")] /\
  Forall (fun h => exists d,
            h !! "duration_seconds"%string = Some (JNumber (round1 d)) /\
            (58 <= d)%Q /\ (58 <= round1 d)%Q)
    [with_duration (candidate "00:10:00,000" "00:11:30,250" "good")].
Proof.
  assert (Hrun : filter_by_duration
    [candidate "00:10:00,000" "00:10:57,900" "short";
     candidate "00:10:00,000" "00:11:30,250" "good"] 1
    = Ok [with_duration (candidate "00:10:00,000" "00:11:30,250" "good")])
    by reflexivity.
  split; [exact Hrun|].
  exact (find_highlights_duration_at_least_58 _ _ _ Hrun).
Defined.

(** C6 as stated fails: a five-minute candidate passes the filter with
    [duration_seconds = 300]. *)
Lemma find_highlights_no_upper_bound_counterexample :
  exists h d,
    filter_by_duration [candidate "00:20:00,000" "00:25:00,000" "long"] 1
      = Ok [h] /\
    h !! "duration_seconds"%string = Some (JNumber d) /\
    (d == 300)%Q /\ ~ (58 <= d <= 120)%Q.
Proof.
  eexists _, _. split_and!.
  - reflexivity.
  - vm_compute. reflexivity.
  - by vm_compute.
  - intros [_ H]. vm_compute in H. by apply H.
Qed.

End HighlightFacts.

(** ** The caption timeline *)

Section CaptionFacts.

Import Captions.

Lemma Qfloor_div_pos (x : Q) (p : positive) :
  Qfloor (x / inject_Z (Zpos p)) = Qfloor x / Zpos p.
Proof.
  destruct x as [a b]. unfold Qfloor, Qdiv, Qmult, Qinv; simpl.
  rewrite Z.mul_1_r, Pos2Z.inj_mul. symmetry. apply Z.div_div; lia.
Qed.

Lemma Qfloor_sub_Z (x : Q) (z : Z) : Qfloor (x - inject_Z z) = Qfloor x - z.
Proof.
  destruct x as [a b]. unfold Qfloor, Qminus, Qplus, Qopp, inject_Z; simpl.
  rewrite Pos.mul_1_r.
  replace (a * 1 + - z * Z.pos b) with (a + (- z) * Z.pos b) by lia.
  rewrite Z.div_add by lia. lia.
Qed.

Lemma Qfloor_add_Z (x : Q) (z : Z) : Qfloor (x + inject_Z z) = Qfloor x + z.
Proof.
  destruct x as [a b]. unfold Qfloor, Qplus, inject_Z; simpl.
  rewrite Pos.mul_1_r.
  replace (a * 1 + z * Z.pos b) with (a + z * Z.pos b) by lia.
  rewrite Z.div_add by lia. lia.
Qed.

Lemma python_int_floor (q : Q) : 0 <= Qfloor q -> python_int q = Qfloor q.
Proof.
  destruct q as [a b]. unfold python_int, Qfloor; simpl. intros H.
  apply Z.quot_div_nonneg; [|lia].
  destruct (Z_lt_le_dec a 0) as [Hneg|]; [|done].
  pose proof (Z.div_lt_upper_bound a (Z.pos b) 0 ltac:(lia) ltac:(lia)). lia.
Qed.

Lemma floordiv_3600 (x : Q) :
  python_int (floordiv x 3600) = Qfloor x / 3600.
Proof.
  unfold floordiv. rewrite python_int_inject_Z.
  apply (Qfloor_div_pos x 3600).
Qed.

Lemma minutes_floor (x : Q) :
  python_int (floordiv (pymod x 3600) 60)
  = (Qfloor x - 3600 * (Qfloor x / 3600)) / 60.
Proof.
  unfold floordiv at 1. rewrite python_int_inject_Z.
  change 60%Q with (inject_Z 60). rewrite Qfloor_div_pos.
  f_equal. unfold pymod, floordiv.
  change 3600%Q with (inject_Z 3600).
  rewrite Qfloor_div_pos, <- inject_Z_mult. apply Qfloor_sub_Z.
Qed.

Lemma secs_floor (x : Q) :
  python_int (pymod x 60) = Qfloor x - 60 * (Qfloor x / 60).
Proof.
  assert (E : Qfloor (pymod x 60) = Qfloor x - 60 * (Qfloor x / 60)).
  { unfold pymod, floordiv. change 60%Q with (inject_Z 60).
    rewrite Qfloor_div_pos, <- inject_Z_mult. apply Qfloor_sub_Z. }
  rewrite python_int_floor; [exact E|].
  rewrite E. Z.to_euclidean_division_equations. lia.
Qed.

Lemma centisecs_floor (x : Q) :
  python_int (pymod x 1 * 100)%Q = Qfloor (x * 100) - 100 * Qfloor x.
Proof.
  assert (E : Qfloor (pymod x 1 * 100) = Qfloor (x * 100) - 100 * Qfloor x).
  { rewrite <- Qfloor_sub_Z. apply Qfloor_comp.
    unfold pymod, floordiv. change 1%Q with (inject_Z 1).
    rewrite Qfloor_div_pos, Z.div_1_r, inject_Z_mult.
    change (inject_Z 100) with 100%Q. change (inject_Z 1) with 1%Q.
    ring. }
  rewrite python_int_floor; [exact E|].
  rewrite E.
  assert (100 * Qfloor x <= Qfloor (x * 100)); [|lia].
  rewrite <- (Qfloor_Z (100 * Qfloor x)). apply Qfloor_resp_le.
  rewrite inject_Z_mult. change (inject_Z 100) with 100%Q.
  pose proof (Qfloor_le x). lra.
Qed.

(** The time that [format_time] writes is its argument cut to whole
    centiseconds. *)
Lemma ass_time_seconds_format (x : Q) :
  (ass_time_seconds (format_time_fields x)
   == inject_Z (Qfloor (x * 100)) / 100)%Q.
Proof.
  unfold ass_time_seconds, format_time_fields; cbn [hours minutes secs centisecs].
  rewrite floordiv_3600, minutes_floor, secs_floor, centisecs_floor.
  set (X := Qfloor x). set (F := Qfloor (x * 100)).
  assert (HX : X = 3600 * (X / 3600) + 60 * ((X - 3600 * (X / 3600)) / 60)
                   + (X - 60 * (X / 60))).
  { Z.to_euclidean_division_equations. lia. }
  set (h := X / 3600) in *. set (m := (X - 3600 * h) / 60) in *.
  set (sc := X - 60 * (X / 60)) in *.
  clearbody h m sc. clearbody X F. subst X.
  unfold Z.sub.
  repeat (rewrite ?inject_Z_plus, ?inject_Z_opp, ?inject_Z_mult).
  change (inject_Z 100) with 100%Q. change (inject_Z 3600) with 3600%Q.
  change (inject_Z 60) with 60%Q.
  generalize (inject_Z h), (inject_Z m), (inject_Z sc), (inject_Z F).
  intros qh qm qs qf. field.
Qed.

Lemma written_time_shift (x t : Q) (k : Z) :
  (t == inject_Z k / 100)%Q ->
  (ass_time_seconds (format_time_fields (x + t))
   == ass_time_seconds (format_time_fields x) + t)%Q.
Proof.
  intros Ht. rewrite !ass_time_seconds_format.
  assert (E : Qfloor ((x + t) * 100) = Qfloor (x * 100) + k).
  { rewrite <- Qfloor_add_Z. apply Qfloor_comp. rewrite Ht. field. }
  rewrite E, inject_Z_plus, Ht. field.
Qed.

Lemma written_time_comp (x y : Q) :
  (x == y)%Q ->
  (ass_time_seconds (format_time_fields x)
   == ass_time_seconds (format_time_fields y))%Q.
Proof.
  intros E. rewrite !ass_time_seconds_format.
  rewrite (Qfloor_comp (x * 100) (y * 100)); [reflexivity|].
  by rewrite E.
Qed.

Lemma Forall2_imap_pointwise {A B} (R : B -> B -> Prop)
    (f g : nat -> A -> B) (l : list A) :
  (forall i x, R (f i x) (g i x)) -> Forall2 R (imap f l) (imap g l).
Proof.
  revert f g. induction l as [|x l IH]; intros f g H; [constructor|].
  rewrite !imap_cons. constructor; [apply H|].
  apply IH. intros i y. apply H.
Qed.

Section Offset.

Variable R : Q -> caption -> caption -> Prop.
Variable t : Q.
Hypothesis R_intro : forall a b text,
  R t {| c_start := a + t; c_end := b + t; c_text := text |}
      {| c_start := a + 0; c_end := b + 0; c_text := text |}.

Lemma word_captions_related (ws : list word) :
  Forall2 (R t) (word_captions ws t) (word_captions ws 0).
Proof.
  unfold word_captions. induction (chunks ws) as [|chunk cs IH]; simpl;
    [constructor|].
  apply Forall2_app; [|exact IH].
  unfold chunk_captions. apply Forall2_imap_pointwise.
  intros j w. apply R_intro.
Qed.

Lemma segment_captions_related (segs : list segment) :
  Forall2 (R t) (segment_captions segs t) (segment_captions segs 0).
Proof.
  unfold segment_captions. induction segs as [|seg segs IH]; simpl;
    [constructor|].
  destruct (upper (strip (default EmptyString (seg_text seg)))); simpl;
    [exact IH|].
  constructor; [apply R_intro | exact IH].
Qed.

Lemma captions_related (tr : transcript) :
  Forall2 (R t) (captions tr t) (captions tr 0).
Proof.
  unfold captions. destruct (nonempty (words tr)).
  - apply word_captions_related.
  - destruct (nonempty (segments tr)); [|constructor].
    apply segment_captions_related.
Qed.

End Offset.

Lemma format_time_fields_comp (x y : Q) :
  (x == y)%Q -> format_time_fields x = format_time_fields y.
Proof.
  intros E. unfold format_time_fields.
  rewrite !floordiv_3600, !minutes_floor, !secs_floor, !centisecs_floor.
  rewrite (Qfloor_comp x y E).
  rewrite (Qfloor_comp (x * 100) (y * 100)) by (by rewrite E).
  reflexivity.
Qed.

Lemma event_of_moved (t : Q) (c_t c_0 : caption) :
  shifted_by t c_t c_0 -> event_of c_t = moved_event t c_0.
Proof.
  intros (Htext & Hstart & Hend). unfold event_of, moved_event, format_time.
  by rewrite (format_time_fields_comp _ _ Hstart),
             (format_time_fields_comp _ _ Hend), Htext.
Qed.

Lemma events_moved (tr : transcript) (t : Q) :
  events tr t = map (moved_event t) (captions tr 0).
Proof.
  unfold events.
  assert (H : Forall2 (shifted_by t) (captions tr t) (captions tr 0)).
  { apply (captions_related (fun t c_t c_0 => shifted_by t c_t c_0)).
    intros a b text. unfold shifted_by; simpl. split_and!; [done | ring | ring]. }
  induction H as [|c_t c_0 l_t l_0 Hc _ IH]; [done|].
  cbn [map]. by rewrite (event_of_moved t c_t c_0 Hc), IH.
Qed.




End CaptionFacts.

(** ** The orchestrator *)

Section PipelineFacts.

Import Pipeline Highlights.

(** *** Running the monad *)

Lemma bind_ok {A B} (m : M A) (k : A -> M B) (w w' : world) (a : A) :
  m w = (Ok a, w') -> bind m k w = k a w'.
Proof. intros H. unfold bind. by rewrite H. Qed.

Lemma bind_raise {A B} (m : M A) (k : A -> M B) (w w' : world) (e : exn) :
  m w = (Raise e, w') -> bind m k w = (Raise e, w').
Proof. intros H. unfold bind. by rewrite H. Qed.

Lemma copy_ok (src dst : path) (data : string) (w : world) :
  src <> dst -> fs w !! src = Some (File data) ->
  copy src dst w =
    (Ok tt, {| fs := <[dst := File data]> (fs w); progress := progress w;
               logs := logs w; tmp_count := tmp_count w |}).
Proof.
  intros Hne Hsrc. unfold copy. destruct (decide (src = dst)); [done|].
  by rewrite Hsrc.
Qed.

Lemma unlink_ok (p : path) (w : world) :
  is_Some (fs w !! p) ->
  unlink p w =
    (Ok tt, {| fs := delete p (fs w); progress := progress w;
               logs := logs w; tmp_count := tmp_count w |}).
Proof.
  intros H. unfold unlink, bind, path_exists.
  by rewrite bool_decide_true.
Qed.

Lemma run_ffmpeg_eq (out : path) (r : ffmpeg_result) (w : world) :
  run_ffmpeg out r w =
    (Ok (returncode r),
     {| fs := written out r (fs w); progress := progress w; logs := logs w;
        tmp_count := tmp_count w |}).
Proof. reflexivity. Qed.

Lemma bind_ret_l {A B} (a : A) (k : A -> M B) : bind (ret a) k = k a.
Proof. reflexivity. Qed.


(** *** Captioning degrades to a copy *)

(** C10: when transcription fails outright (the audio extraction returns
    non-zero, the extracted audio is too small, or the speech-to-text call
    raises), [add_captions_api] raises nothing: it returns normally, the
    output clip is a copy of the input video, and a warning has been
    logged. *)
Theorem captions_degrade_to_copy (o : captions_outcome)
    (input_path output_path : list string)
    (audio_source : option (list string)) (time_offset : Q) (w : world)
    (data : string) :
  fs w !! inl input_path = Some (File data) ->
  input_path <> output_path ->
  transcription_fails o = true ->
  exists w' msg,
    add_captions_api o input_path output_path audio_source time_offset w
      = (Ok tt, w') /\
    fs w' !! inl output_path = Some (File data) /\
    logs w' = logs w ++ [msg].
Proof.
  intros Hin Hne Hfail.
  assert (Hpaths : (inl input_path : path) <> inl output_path) by congruence.
  unfold add_captions_api.
  erewrite bind_ok by reflexivity.
  erewrite bind_ok by apply run_ffmpeg_eq.
  set (audio_file := inr (tmp_count w) : path).
  cbn [fs progress logs tmp_count].
  destruct (negb (returncode (extract_run o) =? 0)) eqn:Hrc.
  { (* the extraction failed *)
    erewrite bind_ok by reflexivity.
    erewrite copy_ok; [| done |].
    2:{ cbn [fs]. unfold written. destruct (output (extract_run o));
          rewrite ?lookup_insert_ne by done; exact Hin. }
    eexists _, _. split_and!; [reflexivity | | reflexivity].
    cbn [fs]. by rewrite lookup_insert_eq. }
  set (f1 := written audio_file (extract_run o)
                (<[audio_file:=File EmptyString]> (fs w))).
  assert (Haudio : f1 !! audio_file = Some (File (audio_data o))).
  { unfold f1, written, audio_data. destruct (output (extract_run o)); simpl;
      by rewrite lookup_insert_eq. }
  assert (Hin1 : f1 !! inl input_path = Some (File data)).
  { unfold f1, written. destruct (output (extract_run o));
      rewrite ?lookup_insert_ne by done; exact Hin. }
  clearbody f1.
  erewrite bind_ok.
  2:{ unfold path_exists. cbn [fs]. rewrite bool_decide_true by eauto.
      reflexivity. }
  cbv beta iota.
  erewrite (bind_ok (bind _ _)).
  2:{ erewrite bind_ok; [reflexivity|].
      unfold getsize. cbn [fs]. rewrite Haudio. reflexivity. }
  cbv beta.
  destruct (String.length (audio_data o) <? 1000)%nat eqn:Hsize.
  { (* the audio is too small *)
    erewrite bind_ok by reflexivity.
    erewrite bind_ok by (apply copy_ok; done).
    erewrite bind_ok.
    2:{ unfold path_exists. cbn [fs].
        rewrite bool_decide_true; [reflexivity|].
        rewrite lookup_insert_ne by done. eauto. }
    cbv beta iota.
    rewrite unlink_ok.
    2:{ cbn [fs]. rewrite lookup_insert_ne by done. eauto. }
    eexists _, _. split_and!; [reflexivity | | reflexivity].
    cbn [fs]. rewrite lookup_delete_ne by done. by rewrite lookup_insert_eq. }
  unfold transcription_fails in Hfail. rewrite Hrc, Hsize in Hfail.
  destruct (stt o) as [tr | err]; [done|].
  (* the speech-to-text call raised *)
  erewrite bind_ok by reflexivity.
  erewrite bind_ok by (apply copy_ok; done).
  rewrite unlink_ok.
  2:{ cbn [fs]. rewrite lookup_insert_ne by done. eauto. }
  eexists _, _. split_and!; [reflexivity | | reflexivity].
  cbn [fs]. rewrite lookup_delete_ne by done. by rewrite lookup_insert_eq.
Qed.

Lemma captions_degrade_to_copy_witness :
  exists w' msg,
    add_captions_api
      {| extract_run := ok_run "a second of quiet audio";
         stt := Raise (Exception "speech-to-text unavailable");
         burn_run := ok_run "captioned" |}
      ["clip"; "temp_hooked.mp4"]%string ["clip"; "master.mp4"]%string
      (Some ["clip"; "temp_portrait.mp4"]%string) (32 # 10)
      {| fs := {[ inl ["clip"; "temp_hooked.mp4"]%string := File "hooked" ]};
         progress := []; logs := []; tmp_count := 0 |}
      = (Ok tt, w') /\
    fs w' !! inl ["clip"; "master.mp4"]%string = Some (File "hooked") /\
    logs w' = [] ++ [msg].
Proof.
  apply (captions_degrade_to_copy _ _ _ _ _
           {| fs := {[ inl ["clip"; "temp_hooked.mp4"]%string := File "hooked" ]};
              progress := []; logs := []; tmp_count := 0 |} "hooked").
  - by vm_compute.
  - done.
  - reflexivity.
Defined.

(** *** What a run leaves on disk *)

Section Keeps.
Context (p : path).

Lemma keeps_ret {A} (a : A) : keeps p (ret a).
Proof. by intros w H. Qed.

Lemma keeps_raise {A} (e : exn) : keeps p (@raise A e).
Proof. by intros w H. Qed.

Lemma keeps_lift {A} (r : result A) : keeps p (lift r).
Proof. by intros w H. Qed.

Lemma keeps_bind {A B} (m : M A) (k : A -> M B) :
  keeps p m -> (forall a, keeps p (k a)) -> keeps p (bind m k).
Proof.
  intros Hm Hk w H. unfold bind. specialize (Hm w H).
  destruct (m w) as [[a|e] w']; simpl in *; [by apply Hk | done].
Qed.

Lemma keeps_set_progress s q : keeps p (set_progress s q).
Proof. by intros w H. Qed.

Lemma keeps_log s : keeps p (log s).
Proof. by intros w H. Qed.

Lemma keeps_is_cancelled e pt : keeps p (is_cancelled e pt).
Proof. by intros w H. Qed.

Lemma keeps_path_exists q : keeps p (path_exists q).
Proof. by intros w H. Qed.

Lemma keeps_getsize q : keeps p (getsize q).
Proof. intros w H. unfold getsize. by destruct (fs w !! q) as [[]|]. Qed.

Lemma keeps_write_file q data : keeps p (write_file q data).
Proof.
  intros w H. simpl. destruct (decide (q = p)) as [->|];
    [rewrite lookup_insert_eq; eauto | by rewrite lookup_insert_ne].
Qed.

Lemma keeps_mkdir q : keeps p (mkdir q).
Proof.
  intros w H. unfold mkdir, bind, path_exists. case_bool_decide; [done|].
  simpl. destruct (decide (inl q = p)) as [<-|];
    [rewrite lookup_insert_eq; eauto | by rewrite lookup_insert_ne].
Qed.

Lemma keeps_unlink q : q <> p -> keeps p (unlink q).
Proof.
  intros Hq w H. unfold unlink, bind, path_exists. case_bool_decide; [|done].
  simpl. by rewrite lookup_delete_ne.
Qed.

Lemma keeps_unlink_missing_ok q : q <> p -> keeps p (unlink_missing_ok q).
Proof. intros Hq w H. simpl. by rewrite lookup_delete_ne. Qed.

Lemma keeps_copy src dst : keeps p (copy src dst).
Proof.
  intros w H. unfold copy. destruct (decide _); [done|].
  destruct (fs w !! src) as [[data|]|]; [|done..].
  by apply keeps_write_file.
Qed.

Lemma keeps_run_ffmpeg out r : keeps p (run_ffmpeg out r).
Proof.
  intros w H. simpl. unfold written.
  destruct (output r); [by apply (keeps_write_file out s w) | done].
Qed.

Lemma keeps_tmp {B} (k : path -> M B) :
  (forall n, keeps p (k (inr n))) -> keeps p (bind named_temporary_file k).
Proof.
  intros Hk w H. unfold bind, named_temporary_file.
  apply Hk. simpl.
  destruct (decide (inr (tmp_count w) = p)) as [<-|];
    [rewrite lookup_insert_eq; eauto | by rewrite lookup_insert_ne].
Qed.

End Keeps.

Ltac keeps_step :=
  lazymatch goal with
  | |- keeps _ (bind named_temporary_file _) => apply keeps_tmp; intros ?
  | |- keeps _ (bind _ _) => apply keeps_bind; [|intros ?]
  | |- keeps _ (ret _) => apply keeps_ret
  | |- keeps _ (raise _) => apply keeps_raise
  | |- keeps _ (lift _) => apply keeps_lift
  | |- keeps _ (set_progress _ _) => apply keeps_set_progress
  | |- keeps _ (clip_progress _ _ _ _) => apply keeps_set_progress
  | |- keeps _ (log _) => apply keeps_log
  | |- keeps _ (is_cancelled _ _) => apply keeps_is_cancelled
  | |- keeps _ (path_exists _) => apply keeps_path_exists
  | |- keeps _ (getsize _) => apply keeps_getsize
  | |- keeps _ (write_file _ _) => apply keeps_write_file
  | |- keeps _ (mkdir _) => apply keeps_mkdir
  | |- keeps _ (copy _ _) => apply keeps_copy
  | |- keeps _ (run_ffmpeg _ _) => apply keeps_run_ffmpeg
  | |- keeps _ (unlink _) => apply keeps_unlink; done
  | |- keeps _ (if ?b then _ else _) => destruct b
  | |- keeps _ (match ?x with _ => _ end) => destruct x
  end.

Lemma keeps_convert_to_portrait (q : list string) o i out :
  keeps (inl q) (convert_to_portrait o i out).
Proof. unfold convert_to_portrait. repeat keeps_step. Qed.

Lemma keeps_add_hook (q : list string) o i out :
  keeps (inl q) (add_hook o i out).
Proof. unfold add_hook. repeat keeps_step. Qed.

Lemma keeps_add_captions_api (q : list string) o i out a t :
  keeps (inl q) (add_captions_api o i out a t).
Proof. unfold add_captions_api. repeat keeps_step. Qed.


Lemma keeps_download_line (q : list string) line lastp :
  keeps (inl q) (download_line line lastp).
Proof. unfold download_line. repeat keeps_step. Qed.

Lemma keeps_download_loop (q : list string) e lines i lastp :
  keeps (inl q) (download_loop e lines i lastp).
Proof.
  revert i lastp. induction lines as [|line rest IH]; intros i lastp; simpl.
  - repeat keeps_step.
  - apply keeps_bind; [keeps_step|]. intros c. destruct c; [keeps_step|].
    apply keeps_bind; [apply keeps_download_line|]. intros lp. apply IH.
Qed.

Lemma keeps_download_video (q : list string) e out :
  keeps (inl q) (download_video e out).
Proof.
  unfold download_video.
  do 3 (apply keeps_bind; [keeps_step | intros _]).
  apply keeps_bind; [apply keeps_download_loop | intros _].
  repeat keeps_step.
Qed.

Lemma keeps_find_highlights (q : list string) e n :
  keeps (inl q) (find_highlights e n).
Proof. unfold find_highlights. repeat keeps_step. Qed.

Lemma not_temp_file (q dir : list string) (name : string) :
  is_temp_file q = false -> name ∈ temp_names ->
  (inl (dir ++ [name]) : path) <> inl q.
Proof.
  intros Hq Hname E. injection E as <-.
  unfold is_temp_file in Hq. rewrite last_snoc in Hq.
  by rewrite bool_decide_true in Hq.
Qed.

Lemma keeps_process_clip (q : list string) e out video h i n :
  is_temp_file q = false ->
  keeps (inl q) (process_clip e out video h i n).
Proof.
  intros Hq. unfold process_clip, process_clip_from_portrait.
  repeat lazymatch goal with
    | |- keeps _ (bind (convert_to_portrait _ _ _) _) =>
      apply keeps_bind; [apply keeps_convert_to_portrait | intros ?]
    | |- keeps _ (bind (add_hook _ _ _) _) =>
      apply keeps_bind; [apply keeps_add_hook | intros ?]
    | |- keeps _ (bind (add_captions_api _ _ _ _ _) _) =>
      apply keeps_bind; [apply keeps_add_captions_api | intros ?]
    | |- keeps _ (unlink_missing_ok _) =>
      apply keeps_unlink_missing_ok; apply not_temp_file;
        [exact Hq | unfold temp_names; set_solver]
    | |- _ => keeps_step
    end.
Qed.

Lemma keeps_process_clips (q : list string) e out video hs i n :
  is_temp_file q = false ->
  keeps (inl q) (process_clips e out video hs i n).
Proof.
  intros Hq. revert i. induction hs as [|h rest IH]; intros i; simpl.
  - keeps_step.
  - apply keeps_bind; [keeps_step|]. intros c. destruct c; [keeps_step|].
    apply keeps_bind; [by apply keeps_process_clip|]. intros _. apply IH.
Qed.

Lemma keeps_on_raise_of_keeps {A} p (m : M A) :
  keeps p m -> keeps_on_raise p m.
Proof. intros H w Hw err _. by apply H. Qed.

Lemma keeps_on_raise_bind {A B} p (m : M A) (k : A -> M B) :
  keeps p m -> (forall a, keeps_on_raise p (k a)) ->
  keeps_on_raise p (bind m k).
Proof.
  intros Hm Hk w H err. unfold bind. specialize (Hm w H).
  destruct (m w) as [[a|e] w']; simpl in *; [by apply Hk | done].
Qed.

Lemma finish_ok out n w :
  exists w', finish out n w = (Ok tt, w') /\
             fs w' !! inl (temp_dir out) = None.
Proof.
  unfold finish, cleanup, bind, set_progress, path_exists, rmtree, log; simpl.
  case_bool_decide as Hthere; simpl.
  - eexists; split; [reflexivity|]. simpl.
    apply map_lookup_filter_None_2. right. intros x _. simpl.
    rewrite bool_decide_true by done. done.
  - eexists; split; [reflexivity|]. simpl.
    destruct (fs w !! inl (temp_dir out)) eqn:E; [|done].
    exfalso. apply Hthere. eauto.
Qed.

Lemma keeps_on_raise_finish p out n : keeps_on_raise p (finish out n).
Proof.
  intros w _ err Herr. destruct (finish_ok out n w) as (w' & E & _).
  rewrite E in Herr. done.
Qed.

Lemma temp_dir_not_temp_file out : is_temp_file (temp_dir out) = false.
Proof. unfold is_temp_file, temp_dir. by rewrite last_snoc. Qed.

Lemma keeps_on_raise_process e out n :
  keeps_on_raise (inl (temp_dir out)) (process e out n).
Proof.
  pose proof (temp_dir_not_temp_file out) as Hq.
  unfold process.
  apply keeps_on_raise_bind; [keeps_step | intros _].
  apply keeps_on_raise_bind; [apply keeps_download_video | intros [video srt]].
  apply keeps_on_raise_bind; [keeps_step | intros c].
  destruct c; [apply keeps_on_raise_of_keeps; keeps_step|].
  destruct srt; [|apply keeps_on_raise_of_keeps; keeps_step].
  unfold process_downloaded.
  apply keeps_on_raise_bind; [keeps_step | intros _].
  apply keeps_on_raise_bind; [apply keeps_find_highlights | intros hs].
  apply keeps_on_raise_bind; [keeps_step | intros c].
  destruct c; [apply keeps_on_raise_of_keeps; keeps_step|].
  unfold process_highlights.
  destruct hs as [|h hs]; [apply keeps_on_raise_of_keeps; keeps_step|].
  apply keeps_on_raise_bind; [by apply keeps_process_clips | intros completed].
  destruct completed; [apply keeps_on_raise_finish|].
  apply keeps_on_raise_of_keeps; keeps_step.
Qed.


(** C8 (as amended): [process] removes the [_temp] directory only after
    the loop over the clips has run to its end. Whenever [process] ends
    with an exception, from the download or from the chain of a clip,
    [_temp] is still in place; when the loop completes, [process] returns
    normally and [_temp] is gone. *)
Theorem cleanup_only_after_the_loop (e : env) (out : list string) (n : Z)
    (w : world) :
  is_Some (fs w !! inl (temp_dir out)) ->
  (forall err w', process e out n w = (Raise err, w') ->
                  is_Some (fs w' !! inl (temp_dir out))) /\
  (forall video hs w1,
     hs <> [] ->
     process_clips e out video hs 1 (length hs) w = (Ok true, w1) ->
     exists w', process_highlights e out video hs w = (Ok tt, w') /\
                fs w' !! inl (temp_dir out) = None).
Proof.
  intros Hw. split.
  - intros err w' Hrun.
    pose proof (keeps_on_raise_process e out n w Hw err) as H.
    rewrite Hrun in H. by apply H.
  - intros video hs w1 Hne Hloop. unfold process_highlights.
    destruct hs as [|h hs]; [done|].
    unfold bind. rewrite Hloop. apply finish_ok.
Qed.


Lemma cleanup_only_after_the_loop_witness :
  (forall err w',
     process (example_env (fun _ => false) tts_fails_on_clip_2)
             ["out"%string] 3 (initial_world ["out"%string]) = (Raise err, w') ->
     is_Some (fs w' !! inl (temp_dir ["out"%string]))) /\
  (forall video hs w1,
     hs <> [] ->
     process_clips (example_env (fun _ => false) tts_fails_on_clip_2)
       ["out"%string] video hs 1 (length hs) (initial_world ["out"%string])
       = (Ok true, w1) ->
     exists w',
       process_highlights (example_env (fun _ => false) tts_fails_on_clip_2)
         ["out"%string] video hs (initial_world ["out"%string]) = (Ok tt, w') /\
       fs w' !! inl (temp_dir ["out"%string]) = None).
Proof.
  apply (cleanup_only_after_the_loop
           (example_env (fun _ => false) tts_fails_on_clip_2)
           ["out"%string] 3 (initial_world ["out"%string])).
  exists Dir. by vm_compute.
Defined.

(** C8 as stated fails: when the text-to-speech call of clip 2 raises,
    [process] ends with that exception and [_temp], with the downloaded
    source in it, is still on disk. *)
Lemma cleanup_skipped_on_error_counterexample :
  (process (example_env (fun _ => false) tts_fails_on_clip_2)
           ["out"%string] 3 (initial_world ["out"%string])).1
    = Raise (Exception "speech synthesis failed") /\
  fs (process (example_env (fun _ => false) tts_fails_on_clip_2)
              ["out"%string] 3 (initial_world ["out"%string])).2
    !! inl ["out"; "_temp"]%string = Some Dir /\
  fs (process (example_env (fun _ => false) tts_fails_on_clip_2)
              ["out"%string] 3 (initial_world ["out"%string])).2
    !! inl ["out"; "_temp"; "source.mp4"]%string = Some (File "video").
Proof. split_and!; by vm_compute. Qed.

(** *** Cancellation in the middle of a clip *)

Lemma run_result {A} (m : M A) (w : world) (a : A) :
  (m w).1 = Ok a -> m w = (Ok a, (m w).2).
Proof. destruct (m w) as [r w']. simpl. by intros ->. Qed.

Lemma process_clips_app e out video pre rest i n w0 w1 :
  process_clips e out video pre i n w0 = (Ok true, w1) ->
  process_clips e out video (pre ++ rest) i n w0
  = process_clips e out video rest (i + length pre) n w1.
Proof.
  revert i w0. induction pre as [|h pre IH]; intros i w0 Hrun; simpl in *.
  - injection Hrun as <-. by rewrite Nat.add_0_r.
  - unfold is_cancelled in *. rewrite bind_ret_l in *.
    destruct (cancel e (PollLoop i)); [done|].
    unfold bind in *.
    destruct (process_clip e out video h i n w0) as [[[]|err] w0'];
      [|done].
    rewrite (IH _ _ Hrun). f_equal. lia.
Qed.

Lemma keeps_from_portrait_cancelled e dir h k n (q : list string) :
  cancel e (PollClip k 2) = true \/ cancel e (PollClip k 3) = true
    \/ cancel e (PollClip k 4) = true ->
  keeps (inl q) (process_clip_from_portrait e dir h k n).
Proof.
  intros Hc. unfold process_clip_from_portrait, is_cancelled, clip_progress.
  rewrite bind_ret_l. destruct (cancel e (PollClip k 2)); [keeps_step|].
  apply keeps_bind; [keeps_step | intros _].
  apply keeps_bind; [apply keeps_convert_to_portrait | intros _].
  apply keeps_bind; [keeps_step | intros _].
  rewrite bind_ret_l. destruct (cancel e (PollClip k 3)); [keeps_step|].
  apply keeps_bind; [keeps_step | intros _].
  apply keeps_bind; [apply keeps_add_hook | intros d].
  apply keeps_bind; [keeps_step | intros _].
  rewrite bind_ret_l. destruct (cancel e (PollClip k 4)); [keeps_step|].
  by destruct Hc as [? | [? | ?]].
Qed.

Lemma process_highlights_nonempty e out video hs :
  hs <> [] ->
  process_highlights e out video hs =
    bind (process_clips e out video hs 1 (length hs))
         (fun completed =>
            if completed then finish out (length hs) else ret tt).
Proof. intros H. unfold process_highlights. by destruct hs. Qed.


Section Present.
Context (p : path).

Lemma present_insert_eq (f : gmap path node) x : is_Some (<[p := x]> f !! p).
Proof. rewrite lookup_insert_eq. eauto. Qed.

Lemma present_insert (f : gmap path node) q x :
  is_Some (f !! p) -> is_Some (<[q := x]> f !! p).
Proof.
  intros H. destruct (decide (q = p)) as [->|];
    [apply present_insert_eq | by rewrite lookup_insert_ne].
Qed.

Lemma present_written (f : gmap path node) out r :
  is_Some (f !! p) -> is_Some (written out r f !! p).
Proof. intros H. unfold written. destruct (output r); [by apply present_insert | done]. Qed.

Lemma present_delete (f : gmap path node) q :
  q <> p -> is_Some (f !! p) -> is_Some (delete q f !! p).
Proof. intros Hq H. by rewrite lookup_delete_ne. Qed.

End Present.

Ltac solve_present :=
  cbn [fs];
  repeat first
    [ apply present_insert_eq
    | apply present_delete; [intros [= ?]; lia |]
    | apply present_written
    | apply present_insert ].

Ltac run_step :=
  erewrite bind_ok;
  [ | first [ apply run_ffmpeg_eq
            | apply unlink_ok; solve_present
            | reflexivity ] ];
  cbv beta iota; cbn [fs progress logs tmp_count].

Lemma convert_to_portrait_returns o i out w :
  exists w', convert_to_portrait o i out w = (Ok tt, w').
Proof.
  unfold convert_to_portrait.
  do 3 run_step.
  rewrite unlink_ok by solve_present. eauto.
Qed.

Lemma add_hook_returns o i out w audio :
  tts o = Ok audio -> exists d w', add_hook o i out w = (Ok d, w').
Proof.
  intros Htts. unfold add_hook. rewrite Htts.
  repeat run_step.
  destruct (negb (returncode (concat_run o) =? 0)); repeat run_step; eauto.
Qed.

Lemma mkdir_returns p w : exists w', mkdir p w = (Ok tt, w').
Proof.
  unfold mkdir, bind, path_exists. case_bool_decide; eauto.
Qed.

Lemma getitem_Some (h : dict) key :
  is_Some (h !! key) -> exists v, getitem h key = Ok v.
Proof. intros [v Hv]. unfold getitem. rewrite Hv. eauto. Qed.

Lemma process_clip_from_portrait_returns e dir h k n w :
  seen_mid_clip e k ->
  exists w', process_clip_from_portrait e dir h k n w = (Ok tt, w').
Proof.
  intros Hmid. unfold process_clip_from_portrait, is_cancelled.
  rewrite bind_ret_l.
  destruct (cancel e (PollClip k 2)) eqn:H2; [eexists; reflexivity|].
  run_step.
  lazymatch goal with
  | |- context [bind (convert_to_portrait ?o ?i ?out) _ ?w0] =>
    destruct (convert_to_portrait_returns o i out w0) as (wp & Ep)
  end.
  erewrite bind_ok by exact Ep. cbv beta.
  run_step.
  rewrite bind_ret_l.
  destruct (cancel e (PollClip k 3)) eqn:H3; [eexists; reflexivity|].
  destruct Hmid as [? | [? | [H4 [audio Htts]]]]; [congruence | congruence |].
  run_step.
  lazymatch goal with
  | |- context [bind (add_hook ?o ?i ?out) _ ?w0] =>
    destruct (add_hook_returns o i out w0 audio Htts) as (d & wh & Eh)
  end.
  erewrite bind_ok by exact Eh. cbv beta.
  run_step.
  rewrite bind_ret_l, H4. eexists; reflexivity.
Qed.

Lemma process_clip_returns e out video h k n w :
  has_clip_keys h ->
  cancel e (PollClip k 0) = false ->
  cancel e (PollClip k 1) = false ->
  seen_mid_clip e k ->
  exists w', process_clip e out video h k n w = (Ok tt, w').
Proof.
  intros (Hs & He & Ht) H0 H1 Hmid.
  unfold process_clip, is_cancelled. rewrite bind_ret_l, H0.
  destruct (mkdir_returns (clip_dir e out k) w) as (wm & Em).
  erewrite bind_ok by exact Em. cbv beta.
  destruct (getitem_Some h _ Hs) as (vs & Evs).
  destruct (getitem_Some h _ He) as (ve & Eve).
  destruct (getitem_Some h _ Ht) as (vt & Evt).
  unfold lift. rewrite Evs, Eve, Evt.
  do 4 run_step.
  rewrite bind_ret_l, H1.
  do 3 run_step.
  by apply process_clip_from_portrait_returns.
Qed.

(** C3 (as amended): when cancellation is first seen at a poll in the
    middle of clip [k] (before the portrait conversion, the hook or the
    captions), [process_clip] returns normally at that poll and [process]
    returns normally at the next poll of the loop: no exception is raised,
    the [temp_landscape.mp4] that clip [k] has cut is still on disk, every
    file that is not a per-clip temporary file (so every artifact of clips
    1..k-1) is still there, and the run ends in the very world in which
    clip [k] returned: clips k+1..n are never started and nothing is
    cleaned up. *)
Theorem cancel_mid_clip_returns e out video pre h post w0 w1 data :
  let k := S (length pre) in
  let n := length (pre ++ h :: post) in
  process_clips e out video pre 1 n w0 = (Ok true, w1) ->
  has_clip_keys h ->
  cancel e (PollLoop k) = false ->
  cancel e (PollClip k 0) = false ->
  cancel e (PollClip k 1) = false ->
  seen_mid_clip e k ->
  output (cut_run e k) = Some data ->
  post <> [] ->
  cancel e (PollLoop (S k)) = true ->
  exists w2,
    process_clip e out video h k n w1 = (Ok tt, w2) /\
    process_highlights e out video (pre ++ h :: post) w0 = (Ok tt, w2) /\
    is_Some (fs w2 !! inl (landscape_of e out k)) /\
    (forall q, is_temp_file q = false ->
               is_Some (fs w1 !! inl q) -> is_Some (fs w2 !! inl q)).
Proof.
  intros k n Hpre Hkeys Hloop H0 H1 Hmid Hcut Hpost Hnext.
  destruct (process_clip_returns e out video h k n w1 Hkeys H0 H1 Hmid)
    as (w2 & Hclip).
  exists w2. split_and!; [exact Hclip | | |].
  - rewrite process_highlights_nonempty by (by destruct pre). fold n.
    assert (Hrun : process_clips e out video (pre ++ h :: post) 1 n w0
                   = (Ok false, w2)).
    { rewrite (process_clips_app _ _ _ _ _ _ _ _ _ Hpre).
      replace (1 + length pre)%nat with k by done.
      cbn [process_clips]. unfold is_cancelled. rewrite bind_ret_l, Hloop.
      unfold bind at 1. rewrite Hclip.
      destruct post as [|h' post']; [done|].
      cbn [process_clips]. unfold is_cancelled. by rewrite bind_ret_l, Hnext. }
    unfold bind. by rewrite Hrun.
  - assert (Hkeep : keeps (inl (landscape_of e out k))
                      (process_clip_from_portrait e (clip_dir e out k) h k n)).
    { apply keeps_from_portrait_cancelled.
      destruct Hmid as [? | [? | [? _]]]; auto. }
    revert Hclip. unfold process_clip, is_cancelled.
    rewrite bind_ret_l, H0.
    unfold bind at 1. destruct (mkdir _ w1) as [[[]|?] wa]; [|done].
    unfold bind at 1, lift at 1. destruct (getitem h "start_time"); [|done].
    unfold bind at 1, lift at 1. destruct (getitem h "end_time"); [|done].
    unfold bind at 1, lift at 1. destruct (getitem h "title"); [|done].
    unfold bind at 1. cbn [log].
    rewrite bind_ret_l, H1.
    unfold bind at 1. unfold clip_progress at 1. cbn [set_progress].
    unfold bind at 1. rewrite run_ffmpeg_eq.
    unfold bind at 1. cbn [log fs progress logs tmp_count].
    intros Hrest.
    match type of Hrest with
    | process_clip_from_portrait _ _ _ _ _ ?w = _ =>
      specialize (Hkeep w)
    end.
    rewrite Hrest in Hkeep. apply Hkeep. cbn [fs].
    unfold landscape_of, written. rewrite Hcut, lookup_insert_eq. eauto.
  - intros q Hq Hw1.
    pose proof (keeps_process_clip q e out video h k n Hq w1 Hw1) as H.
    by rewrite Hclip in H.
Qed.

Lemma cancel_mid_clip_returns_witness :
  exists w2,
    process_clip (example_env cancel_in_clip_2 (fun _ => Ok "speech"%string))
      ["out"%string] ["out"; "_temp"; "source.mp4"]%string
      (with_duration (candidate "00:20:00,000" "00:21:30,000" "second")) 2 3
      (process_clips (example_env cancel_in_clip_2 (fun _ => Ok "speech"%string))
         ["out"%string] ["out"; "_temp"; "source.mp4"]%string
         [with_duration (candidate "00:10:00,000" "00:11:30,000" "first")]
         1 3 (initial_world ["out"%string])).2
    = (Ok tt, w2) /\
    process_highlights
      (example_env cancel_in_clip_2 (fun _ => Ok "speech"%string))
      ["out"%string] ["out"; "_temp"; "source.mp4"]%string example_highlights
      (initial_world ["out"%string])
    = (Ok tt, w2).
Proof.
  set (e := example_env cancel_in_clip_2 (fun _ => Ok "speech"%string)).
  set (h1 := with_duration (candidate "00:10:00,000" "00:11:30,000" "first")).
  set (h2 := with_duration (candidate "00:20:00,000" "00:21:30,000" "second")).
  set (h3 := with_duration (candidate "00:30:00,000" "00:31:30,000" "third")).
  set (video := ["out"; "_temp"; "source.mp4"]%string).
  set (w0 := initial_world ["out"%string]).
  set (w1 := (process_clips e ["out"%string] video [h1] 1 3 w0).2).
  destruct (cancel_mid_clip_returns e ["out"%string] video [h1] h2 [h3]
              w0 w1 "landscape") as (w2 & Hclip & Hrun & _).
  - exact (run_result (process_clips e ["out"%string] video [h1] 1 3) w0 true
             ltac:(by vm_compute)).
  - split_and!; by vm_compute; eexists.
  - reflexivity.
  - reflexivity.
  - reflexivity.
  - left. reflexivity.
  - reflexivity.
  - done.
  - reflexivity.
  - exists w2. split; [exact Hclip | exact Hrun].
Defined.

(** C3 as stated fails: with three clips and a cancellation while clip 2
    is being cut, [process] raises nothing, it returns normally, and the
    [temp_landscape.mp4] of clip 2 is still on disk. (Clip 1 is complete
    and clip 3 has no directory, as the claim says.) *)
Lemma cancel_mid_clip_counterexample :
  (process (example_env cancel_in_clip_2 (fun _ => Ok "speech"%string))
           ["out"%string] 3 (initial_world ["out"%string])).1 = Ok tt /\
  fs (process (example_env cancel_in_clip_2 (fun _ => Ok "speech"%string))
              ["out"%string] 3 (initial_world ["out"%string])).2
    !! inl ["out"; "20240101-12000002"; "temp_landscape.mp4"]%string
    = Some (File "landscape") /\
  fs (process (example_env cancel_in_clip_2 (fun _ => Ok "speech"%string))
              ["out"%string] 3 (initial_world ["out"%string])).2
    !! inl ["out"; "20240101-12000001"; "data.json"]%string
    = Some (File metadata_text) /\
  fs (process (example_env cancel_in_clip_2 (fun _ => Ok "speech"%string))
              ["out"%string] 3 (initial_world ["out"%string])).2
    !! inl ["out"; "20240101-12000003"]%string = None.
Proof. split_and!; by vm_compute. Qed.

(** *** Progress reports *)

Lemma ascending_le lo hi l : ascending lo hi l -> (lo <= hi)%Q.
Proof.
  revert lo. induction l as [|x l IH]; intros lo; simpl; [done|].
  intros [H1 H2]. apply IH in H2. by eapply Qle_trans.
Qed.

Lemma ascending_weaken lo lo' hi hi' l :
  (lo' <= lo)%Q -> (hi <= hi')%Q -> ascending lo hi l -> ascending lo' hi' l.
Proof.
  revert lo lo'. induction l as [|x l IH]; intros lo lo' Hlo Hhi; simpl.
  - intros H. eapply Qle_trans; [exact Hlo|]. by eapply Qle_trans.
  - intros [H1 H2]. split; [by eapply Qle_trans|].
    eapply IH; [apply Qle_refl | exact Hhi | exact H2].
Qed.

Lemma ascending_app a b c l1 l2 :
  ascending a b l1 -> ascending b c l2 -> ascending a c (l1 ++ l2).
Proof.
  revert a. induction l1 as [|x l1 IH]; intros a; simpl.
  - intros Hab H2. eapply ascending_weaken; [exact Hab | apply Qle_refl | done].
  - intros [H1 H2] H3. split; [done|]. by apply IH.
Qed.

Section Silent.

Lemma silent_ret {A} (a : A) : silent (ret a).
Proof. by intros w. Qed.
Lemma silent_raise {A} e : silent (@raise A e).
Proof. by intros w. Qed.
Lemma silent_lift {A} (r : result A) : silent (lift r).
Proof. by intros w. Qed.
Lemma silent_log s : silent (log s).
Proof. by intros w. Qed.
Lemma silent_is_cancelled e pt : silent (is_cancelled e pt).
Proof. by intros w. Qed.
Lemma silent_set_fs f : silent (set_fs f).
Proof. by intros w. Qed.
Lemma silent_path_exists q : silent (path_exists q).
Proof. by intros w. Qed.
Lemma silent_getsize q : silent (getsize q).
Proof. intros w. unfold getsize. by destruct (fs w !! q) as [[]|]. Qed.
Lemma silent_named_temporary_file : silent named_temporary_file.
Proof. by intros w. Qed.

Lemma silent_bind {A B} (m : M A) (k : A -> M B) :
  silent m -> (forall a, silent (k a)) -> silent (bind m k).
Proof.
  intros Hm Hk w. unfold bind. specialize (Hm w).
  destruct (m w) as [[a|e] w']; simpl in *; [|done].
  by rewrite Hk.
Qed.

Lemma silent_copy src dst : silent (copy src dst).
Proof.
  intros w. unfold copy. destruct (decide _); [done|].
  by destruct (fs w !! src) as [[]|].
Qed.

Lemma silent_write_file q data : silent (write_file q data).
Proof. by intros w. Qed.

Lemma silent_unlink_missing_ok q : silent (unlink_missing_ok q).
Proof. by intros w. Qed.

Lemma silent_rmtree dir : silent (rmtree dir).
Proof. by intros w. Qed.

Lemma silent_unlink q : silent (unlink q).
Proof.
  unfold unlink. apply silent_bind; [apply silent_path_exists|].
  intros []; [apply silent_set_fs | apply silent_raise].
Qed.

Lemma silent_mkdir q : silent (mkdir q).
Proof.
  unfold mkdir. apply silent_bind; [apply silent_path_exists|].
  intros []; [apply silent_ret | apply silent_set_fs].
Qed.

Lemma silent_run_ffmpeg out r : silent (run_ffmpeg out r).
Proof. by intros w. Qed.

Lemma silent_cleanup out : silent (cleanup out).
Proof.
  unfold cleanup. apply silent_bind; [apply silent_path_exists|].
  intros []; [apply silent_rmtree | apply silent_ret].
Qed.

End Silent.

Ltac silent_step :=
  lazymatch goal with
  | |- silent (bind _ _) => apply silent_bind; [|intros ?]
  | |- silent (ret _) => apply silent_ret
  | |- silent (raise _) => apply silent_raise
  | |- silent (lift _) => apply silent_lift
  | |- silent (log _) => apply silent_log
  | |- silent (is_cancelled _ _) => apply silent_is_cancelled
  | |- silent (set_fs _) => apply silent_set_fs
  | |- silent (path_exists _) => apply silent_path_exists
  | |- silent (getsize _) => apply silent_getsize
  | |- silent (copy _ _) => apply silent_copy
  | |- silent named_temporary_file => apply silent_named_temporary_file
  | |- silent (write_file _ _) => apply silent_write_file
  | |- silent (unlink_missing_ok _) => apply silent_unlink_missing_ok
  | |- silent (unlink _) => apply silent_unlink
  | |- silent (mkdir _) => apply silent_mkdir
  | |- silent (run_ffmpeg _ _) => apply silent_run_ffmpeg
  | |- silent (cleanup _) => apply silent_cleanup
  | |- silent (if ?b then _ else _) => destruct b
  | |- silent (match ?x with _ => _ end) => destruct x
  end.

Lemma silent_convert_to_portrait o i out : silent (convert_to_portrait o i out).
Proof. unfold convert_to_portrait. repeat silent_step. Qed.

Lemma silent_add_hook o i out : silent (add_hook o i out).
Proof. unfold add_hook. repeat silent_step. Qed.

Lemma silent_add_captions_api o i out a t :
  silent (add_captions_api o i out a t).
Proof. unfold add_captions_api. repeat silent_step. Qed.

Lemma silent_find_highlights e n : silent (find_highlights e n).
Proof. unfold find_highlights. repeat silent_step. Qed.

Lemma emits_such_silent {A} (P : list Q -> Prop) (m : M A) :
  silent m -> P [] -> emits_such P m.
Proof.
  intros Hm HP w. exists []. unfold fractions. by rewrite Hm, app_nil_r.
Qed.

Lemma emits_such_bind {A B} (P Q' R : list Q -> Prop) (m : M A) (k : A -> M B) :
  emits_such P m -> (forall a, emits_such Q' (k a)) ->
  (forall l1, P l1 -> R l1) ->
  (forall l1 l2, P l1 -> Q' l2 -> R (l1 ++ l2)) ->
  emits_such R (bind m k).
Proof.
  intros Hm Hk Hraise Hok w. unfold bind.
  destruct (Hm w) as (l1 & E1 & H1).
  destruct (m w) as [[a|e] w']; simpl in *.
  - destruct (Hk a w') as (l2 & E2 & H2).
    exists (l1 ++ l2). rewrite E2, E1, app_assoc. split; [done|]. by apply Hok.
  - exists l1. split; [done|]. by apply Hraise.
Qed.

Lemma emits_bind {A B} (a b c : Q) (m : M A) (k : A -> M B) :
  emits a b m -> (b <= c)%Q -> (forall x, emits b c (k x)) ->
  emits a c (bind m k).
Proof.
  intros Hm Hbc Hk. eapply emits_such_bind; [exact Hm | exact Hk | |].
  - intros l1 H. eapply ascending_weaken; [apply Qle_refl | exact Hbc | done].
  - intros l1 l2. apply ascending_app.
Qed.

Lemma emits_silent {A} (a c : Q) (m : M A) :
  silent m -> (a <= c)%Q -> emits a c m.
Proof. intros. by apply emits_such_silent. Qed.

Lemma emits_bind_silent {A B} (a c : Q) (m : M A) (k : A -> M B) :
  silent m -> (a <= c)%Q -> (forall x, emits a c (k x)) ->
  emits a c (bind m k).
Proof.
  intros Hm Hac Hk. apply (emits_bind a a c); [|done|done].
  apply emits_silent; [done | apply Qle_refl].
Qed.

Lemma emits_set_progress (a c p : Q) s :
  (a <= p)%Q -> (p <= c)%Q -> emits a c (set_progress s p).
Proof.
  intros Hap Hpc w. exists [p]. unfold fractions; simpl.
  rewrite map_app. done.
Qed.

Lemma emits_bind_progress {B} (a c p : Q) s (k : M B) :
  (a <= p)%Q -> (p <= c)%Q -> emits p c k ->
  emits a c (bind (set_progress s p) (fun _ => k)).
Proof.
  intros Hap Hpc Hk. apply (emits_bind a p c); [|done|done].
  apply emits_set_progress; [done | apply Qle_refl].
Qed.

(** clip fractions *)
Lemma clip_fraction_eq (i n : nat) (s : Z) :
  (0 < n)%nat ->
  (clip_fraction i n s 4 ==
   (3 # 10) + (6 # 10) * (inject_Z (4 * (Z.of_nat i - 1) + s)
                          / inject_Z (4 * Z.of_nat n)))%Q.
Proof.
  intros Hn. unfold clip_fraction.
  rewrite inject_Z_plus, !inject_Z_mult.
  change (inject_Z 4) with 4%Q.
  generalize (inject_Z (Z.of_nat i - 1)). intros qi.
  assert (Hq : ~ (inject_Z (Z.of_nat n) == 0)%Q).
  { intros E. unfold Qeq in E. simpl in E. lia. }
  generalize dependent (inject_Z (Z.of_nat n)). intros qn Hq.
  generalize (inject_Z s). intros qs.
  field. done.
Qed.

Lemma tick_le (n : nat) (k k' : Z) :
  (0 < n)%nat -> k <= k' ->
  ((3 # 10) + (6 # 10) * (inject_Z k / inject_Z (4 * Z.of_nat n)) <=
   (3 # 10) + (6 # 10) * (inject_Z k' / inject_Z (4 * Z.of_nat n)))%Q.
Proof.
  intros Hn Hk.
  apply Qplus_le_r. apply Qmult_le_l; [done|].
  apply Qmult_le_compat_r.
  - by rewrite <- Zle_Qle.
  - apply Qinv_le_0_compat. unfold Qle; simpl. lia.
Qed.

Lemma clip_fraction_le (i i' n : nat) (s s' : Z) :
  (0 < n)%nat ->
  4 * (Z.of_nat i - 1) + s <= 4 * (Z.of_nat i' - 1) + s' ->
  (clip_fraction i n s 4 <= clip_fraction i' n s' 4)%Q.
Proof.
  intros Hn Hk. rewrite !clip_fraction_eq by done. by apply tick_le.
Qed.

Lemma clip_fraction_lower (i n : nat) (s : Z) :
  (0 < n)%nat -> 0 <= 4 * (Z.of_nat i - 1) + s ->
  (3 # 10 <= clip_fraction i n s 4)%Q.
Proof.
  intros Hn Hk. rewrite clip_fraction_eq by done.
  pose proof (tick_le n 0 _ Hn Hk) as H.
  eapply Qle_trans; [|exact H].
  unfold Qle; simpl. lia.
Qed.

Lemma clip_fraction_upper (i n : nat) (s : Z) :
  (0 < n)%nat -> 4 * (Z.of_nat i - 1) + s <= 4 * Z.of_nat n ->
  (clip_fraction i n s 4 <= 9 # 10)%Q.
Proof.
  intros Hn Hk. rewrite clip_fraction_eq by done.
  pose proof (tick_le n _ _ Hn Hk) as H.
  eapply Qle_trans; [exact H|].
  assert (Hq : ~ (inject_Z (4 * Z.of_nat n) == 0)%Q).
  { intros E. unfold Qeq in E. simpl in E. lia. }
  assert (E : (inject_Z (4 * Z.of_nat n) / inject_Z (4 * Z.of_nat n) == 1)%Q)
    by (by field).
  rewrite E. done.
Qed.

Ltac cf_le := first [ apply Qle_refl | apply clip_fraction_le; [done | lia] ].

Ltac silent_solve :=
  lazymatch goal with
  | |- silent (convert_to_portrait _ _ _) => apply silent_convert_to_portrait
  | |- silent (add_hook _ _ _) => apply silent_add_hook
  | |- silent (add_captions_api _ _ _ _ _) => apply silent_add_captions_api
  | |- silent (find_highlights _ _) => apply silent_find_highlights
  | |- _ => repeat silent_step
  end.

Ltac emits_clip_step :=
  lazymatch goal with
  | |- emits _ _ (bind (set_progress _ _) _) =>
    apply emits_bind_progress; [cf_le | cf_le |]
  | |- emits _ _ (bind _ _) =>
    apply emits_bind_silent; [silent_solve | cf_le | intros ?]
  | |- emits _ _ (if ?b then _ else _) => destruct b
  | |- emits _ _ _ => apply emits_silent; [silent_solve | cf_le]
  end.

Lemma emits_process_clip_from_portrait e dir h i n :
  (0 < n)%nat ->
  emits (clip_fraction i n 0 4) (clip_fraction i n 4 4)
        (process_clip_from_portrait e dir h i n).
Proof.
  intros Hn. unfold process_clip_from_portrait, clip_progress.
  repeat emits_clip_step.
Qed.

Lemma emits_process_clip e out video h i n :
  (0 < n)%nat ->
  emits (clip_fraction i n 0 4) (clip_fraction i n 4 4)
        (process_clip e out video h i n).
Proof.
  intros Hn. unfold process_clip, clip_progress.
  repeat lazymatch goal with
    | |- emits _ _ (process_clip_from_portrait _ _ _ _ _) =>
      by apply emits_process_clip_from_portrait
    | |- _ => emits_clip_step
    end.
Qed.

Lemma emits_process_clips e out video hs i n :
  (1 <= i)%nat -> (i + length hs = S n)%nat ->
  emits (clip_fraction i n 0 4) (9 # 10) (process_clips e out video hs i n).
Proof.
  revert i. induction hs as [|h rest IH]; intros i Hi Hlen; simpl in *.
  - destruct n as [|n'].
    { assert (i = 1%nat) as -> by lia. apply emits_silent; [apply silent_ret|].
      by vm_compute. }
    apply emits_silent; [apply silent_ret|].
    apply clip_fraction_upper; lia.
  - assert (Hn : (0 < n)%nat) by lia.
    assert (Hup : (clip_fraction i n 4 4 <= 9 # 10)%Q)
      by (apply clip_fraction_upper; lia).
    assert (Hlo : (clip_fraction i n 0 4 <= 9 # 10)%Q)
      by (apply clip_fraction_upper; lia).
    apply emits_bind_silent; [apply silent_is_cancelled | done | intros c].
    destruct c; [apply emits_silent; [apply silent_ret | done]|].
    apply (emits_bind _ (clip_fraction i n 4 4));
      [by apply emits_process_clip | done | intros _].
    specialize (IH (S i) ltac:(lia) ltac:(lia)).
    intros w. destruct (IH w) as (l & E & Hl). exists l. split; [done|].
    eapply ascending_weaken; [| apply Qle_refl | exact Hl].
    apply clip_fraction_le; [done | lia].
Qed.

Lemma emits_finish out n : emits (9 # 10) 1 (finish out n).
Proof.
  unfold finish.
  apply emits_bind_progress; [done | done |].
  apply emits_bind_silent; [silent_solve | done | intros _].
  apply emits_bind_progress; [done | done |].
  apply emits_silent; [silent_solve | done].
Qed.

Lemma emits_process_highlights e out video hs :
  emits (3 # 10) 1 (process_highlights e out video hs).
Proof.
  unfold process_highlights. destruct hs as [|h rest].
  { apply emits_silent; [apply silent_raise | done]. }
  set (hs := h :: rest). set (n := length hs).
  assert (Hn : (0 < n)%nat) by (unfold n; simpl; lia).
  apply (emits_bind _ (9 # 10)); [| done |].
  - intros w.
    destruct (emits_process_clips e out video hs 1 n ltac:(lia)
                ltac:(unfold n; lia) w) as (l & E & Hl).
    exists l. split; [done|].
    eapply ascending_weaken; [| apply Qle_refl | exact Hl].
    apply clip_fraction_lower; [done | lia].
  - intros c. destruct c; [apply emits_finish|].
    apply emits_silent; [apply silent_ret | done].
Qed.

Lemma emits_process_downloaded e out video n :
  emits (3 # 10) 1 (process_downloaded e out video n).
Proof.
  unfold process_downloaded.
  apply emits_bind_progress; [done | done |].
  apply emits_bind_silent; [silent_solve | done | intros hs].
  apply emits_bind_silent; [silent_solve | done | intros c].
  destruct c; [apply emits_silent; [apply silent_ret | done]|].
  apply emits_process_highlights.
Qed.

Lemma digits_value_nonneg (s : string) (acc n : Z) :
  0 <= acc -> digits_value acc s = Some n -> 0 <= n.
Proof.
  revert acc. induction s as [|c s IH]; intros acc Hacc; simpl.
  - intros [= <-]. done.
  - destruct (is_digit c) eqn:Hc; [|done].
    apply IH. unfold is_digit in Hc. apply andb_true_iff in Hc as [Hc _].
    apply Nat.leb_le in Hc. unfold digit_value. lia.
Qed.

Lemma int_of_string_nonneg (s : string) (n : Z) :
  int_of_string s = Ok n -> 0 <= n.
Proof.
  unfold int_of_string. destruct s; [done|].
  destruct (digits_value 0 _) eqn:E; [|done].
  intros [= <-]. by eapply digits_value_nonneg.
Qed.

Lemma float_of_string_nonneg (s : string) (v : Q) :
  float_of_string s = Ok v -> (0 <= v)%Q.
Proof.
  unfold float_of_string. destruct (split_dot s) as [ip fp].
  destruct (int_of_string ip) as [n|] eqn:En; [|done]. cbn [rbind].
  apply int_of_string_nonneg in En.
  assert (Hn : (0 <= inject_Z n)%Q) by (unfold Qle; simpl; lia).
  destruct fp as [f|]; [|by intros [= <-]].
  destruct (digits_value 0 f) as [m|] eqn:Em; [|done].
  apply digits_value_nonneg in Em; [|done].
  intros [= <-].
  assert (Hm : (0 <= inject_Z m / inject_Z (10 ^ Z.of_nat (String.length f)))%Q).
  { apply Qmult_le_0_compat; [unfold Qle; simpl; lia|].
    apply Qinv_le_0_compat. unfold Qle; simpl. lia. }
  revert Hn Hm. generalize (inject_Z n).
  generalize (inject_Z m / inject_Z (10 ^ Z.of_nat (String.length f)))%Q.
  intros a b Ha Hb. lra.
Qed.

Lemma download_fraction_range (v : Q) :
  (0 <= v)%Q -> (v <= 100)%Q -> download_range (download_fraction v).
Proof.
  unfold download_range, download_fraction. intros H0 H1.
  assert (E : ((5 # 100) + v / 100 * (2 # 10) == (5 # 100) + v * (2 # 1000))%Q)
    by field.
  rewrite E. split; lra.
Qed.

Section Download.

Variable R : Q -> Prop.
Hypothesis R_merging : R (25 # 100).

Lemma emits_download_line line lastp :
  (forall v, reported_percent line = Some v -> R (download_fraction v)) ->
  emits_such (Forall R) (download_line line lastp).
Proof.
  intros Hline. unfold download_line. unfold reported_percent in Hline.
  destruct (Captions.strip line) as [|c rest] eqn:Es.
  { apply emits_such_silent; [apply silent_ret | constructor]. }
  rewrite <- Es in *. clear Es c rest.
  set (l := Captions.strip line) in *.
  destruct (contains "[download]" l && contains "%" l).
  - destruct (search_percent l) as [percent|];
      [|apply emits_such_silent; [apply silent_ret | constructor]].
    destruct (String.eqb _ lastp);
      [apply emits_such_silent; [apply silent_ret | constructor]|].
    destruct (float_of_string percent) as [v|err] eqn:Ev.
    + intros w. eexists [_]. unfold fractions, bind; simpl.
      rewrite map_app. split; [reflexivity|].
      constructor; [|constructor]. by apply Hline.
    + apply emits_such_silent; [|constructor]. by intros w.
  - destruct (contains "[Merger]" l || contains "Merging" l);
      [|apply emits_such_silent; [apply silent_ret | constructor]].
    intros w. eexists [_]. unfold fractions, bind; simpl.
    rewrite map_app. split; [reflexivity|].
    constructor; [|constructor]. exact R_merging.
Qed.

Lemma emits_download_loop e lines i lastp :
  Forall (fun line => forall v, reported_percent line = Some v ->
                                R (download_fraction v)) lines ->
  emits_such (Forall R) (download_loop e lines i lastp).
Proof.
  intros Hlines. revert i lastp.
  induction Hlines as [|line rest Hline Hrest IH]; intros i lastp; simpl.
  - apply emits_such_silent; [|constructor]. repeat silent_step.
  - eapply emits_such_bind with (P := fun l => l = []) (Q' := Forall R).
    + apply emits_such_silent; [apply silent_is_cancelled | done].
    + intros c. destruct c.
      { apply emits_such_silent; [apply silent_raise | constructor]. }
      eapply emits_such_bind.
      * by apply emits_download_line.
      * intros lp. apply IH.
      * done.
      * intros l1 l2 H1 H2. by apply Forall_app.
    + by intros l1 ->.
    + by intros l1 l2 ->.
Qed.

Lemma emits_download_video e out :
  Forall (fun line => forall v, reported_percent line = Some v ->
                                R (download_fraction v)) (yt_lines e) ->
  emits_such (Forall R) (download_video e out).
Proof.
  intros Hlines. unfold download_video.
  do 3 (eapply emits_such_bind with (P := fun l => l = [])
          (Q' := Forall R);
        [apply emits_such_silent; [apply silent_log | done] | intros _
        | by intros l1 -> | by intros l1 l2 ->]).
  eapply emits_such_bind with (Q' := fun l => l = []).
  - by apply emits_download_loop.
  - intros _. apply emits_such_silent; [|done]. repeat silent_step.
  - done.
  - intros l1 l2 H ->. by rewrite app_nil_r.
Qed.

End Download.

Lemma reported_percent_nonneg line v :
  reported_percent line = Some v -> (0 <= v)%Q.
Proof.
  unfold reported_percent. destruct (_ && _); [|done].
  destruct (search_percent _); [|done].
  destruct (float_of_string _) eqn:E; [|done].
  intros [= <-]. by eapply float_of_string_nonneg.
Qed.





End PipelineFacts.

(** ** More on the crop planner *)

Section PlannerCoverage.

Import Planner.

Lemma smooth_length (positions : list Z) :
  length (smooth positions) = length positions.
Proof. unfold smooth. by rewrite length_map, length_seq. Qed.

Lemma shot_lock_length (s : list Z) : length (shot_lock s) = length s.
Proof.
  pose proof (shot_loop_inv s) as Hinv. unfold shot_lock.
  destruct (shot_loop s) as [final ss].
  destruct Hinv as (Hlen & Hle & _); cbn [fst snd] in *.
  destruct (decide (drop ss s = [])) as [E | Hne].
  - rewrite E. simpl.
    apply (f_equal length) in E. rewrite length_drop in E. simpl in E.
    destruct final; [done | simpl in *; lia].
  - rewrite (lock_shot_nonempty _ _ Hne).
    destruct (final ++ _) eqn:E; [done|]. rewrite <- E.
    rewrite length_app, length_replicate, length_drop. lia.
Qed.

(** X1: stabilize_positions returns exactly one position per input position,
    whatever the input: the second pass of convert_to_portrait, which
    indexes the plan by frame number, finds an entry for every frame that
    the first pass analysed. *)
Theorem stabilize_positions_length (positions : list Z) :
  length (stabilize_positions positions) = length positions.
Proof.
  unfold stabilize_positions. destruct positions as [|x l]; [done|].
  by rewrite shot_lock_length, smooth_length.
Qed.

(** X2: Wherever the plan returned by stabilize_positions changes value
    between frame i-1 and frame i, at least 90 frames precede frame i and
    the 90 frames before it all carry the same position: the crop never
    moves before a position has been held for the minimum shot duration of
    90 frames. *)
Theorem stabilize_positions_shot_duration (positions : list Z) (i : nat) :
  (0 < i < length positions)%nat ->
  nth i (stabilize_positions positions) 0
    <> nth (i - 1) (stabilize_positions positions) 0 ->
  (90 <= i)%nat /\
  forall j, (i - 90 <= j < i)%nat ->
    nth j (stabilize_positions positions) 0
    = nth (i - 1) (stabilize_positions positions) 0.
Proof.
  intros Hi Hjump.
  assert (Hsp : spaced (stabilize_positions positions)).
  { unfold stabilize_positions. destruct positions; [|apply shot_lock_spaced].
    intros k Hk. simpl in Hk. lia. }
  apply (Hsp i); [|done]. by rewrite stabilize_positions_length.
Qed.

Lemma stabilize_positions_shot_duration_witness :
  let positions := replicate 120 0 ++ replicate 120 1000 in
  nth 119 (stabilize_positions positions) 0 = 0 /\
  nth 120 (stabilize_positions positions) 0 = 1000 /\
  forall j, (120 - 90 <= j < 120)%nat ->
    nth j (stabilize_positions positions) 0
    = nth (120 - 1) (stabilize_positions positions) 0.
Proof.
  intros positions.
  assert (H119 : nth 119 (stabilize_positions positions) 0 = 0)
    by (by vm_compute).
  assert (H120 : nth 120 (stabilize_positions positions) 0 = 1000)
    by (by vm_compute).
  split_and!; [done | done |].
  apply (stabilize_positions_shot_duration positions 120).
  - unfold positions. rewrite length_app, !length_replicate. lia.
  - change (120 - 1)%nat with 119%nat. rewrite H119, H120. done.
Defined.

Lemma shot_loop_no_switch (s : list Z) :
  (forall i, (min_shot_duration <= i < length s)%nat ->
             Z.abs (nth i s 0 - nth 0 s 0) <= threshold) ->
  shot_loop s = ([], 0%nat).
Proof.
  intros Hdrift. unfold shot_loop.
  apply (fold_seq_invariant (fun _ st => st = ([], 0%nat))); [done|].
  intros i st Hi ->.
  destruct (shot_step_cases s [] 0 i) as [-> | (_ & H90 & Hth & _)]; [done|].
  specialize (Hdrift i). lia.
Qed.

Lemma shot_lock_no_switch (s : list Z) :
  (forall i, (min_shot_duration <= i < length s)%nat ->
             Z.abs (nth i s 0 - nth 0 s 0) <= threshold) ->
  shot_lock s = replicate (length s) (python_int (np_median s)).
Proof.
  intros Hdrift. unfold shot_lock. rewrite (shot_loop_no_switch s Hdrift).
  rewrite drop_0. destruct s as [|x l]; [done|].
  rewrite lock_shot_nonempty by done. done.
Qed.

(** X3: For a clip of at most 90 analysed frames stabilize_positions returns
    a constant plan: every frame gets int(median) of the smoothed positions,
    so the crop never moves. *)
Theorem stabilize_positions_short_clip (positions : list Z) :
  (length positions <= 90)%nat ->
  stabilize_positions positions
  = replicate (length positions) (python_int (np_median (smooth positions))).
Proof.
  intros Hlen. unfold stabilize_positions.
  destruct positions as [|x l]; [done|].
  rewrite shot_lock_no_switch, smooth_length; [done|].
  intros i Hi. rewrite smooth_length in Hi.
  unfold min_shot_duration in Hi. lia.
Qed.

Lemma stabilize_positions_short_clip_witness :
  stabilize_positions [0; 900; 0; 900; 900] = replicate 5 900.
Proof.
  rewrite (stabilize_positions_short_clip [0; 900; 0; 900; 900]);
    [by vm_compute | simpl; lia].
Defined.

(** X4: If all raw positions lie in an interval of width at most 250 pixels
    (the drift threshold), stabilize_positions returns a constant plan,
    int(median) of the smoothed positions on every frame, whatever the
    length of the clip. *)
Theorem stabilize_positions_small_drift (lo hi : Z) (positions : list Z) :
  hi - lo <= 250 ->
  Forall (fun x => lo <= x <= hi) positions ->
  stabilize_positions positions
  = replicate (length positions) (python_int (np_median (smooth positions))).
Proof.
  intros Hspan Hall. unfold stabilize_positions.
  destruct positions as [|x l]; [done|].
  rewrite shot_lock_no_switch, smooth_length; [done|].
  intros i Hi.
  pose proof (smooth_between lo hi _ Hall) as Hs.
  pose proof (proj1 (List.Forall_nth _ _) Hs) as Hnth.
  pose proof (Hnth i 0 ltac:(lia)) as Hi'.
  pose proof (Hnth 0%nat 0 ltac:(lia)) as H0.
  cbv beta in Hi', H0. unfold threshold. lia.
Qed.

Lemma stabilize_positions_small_drift_witness :
  stabilize_positions (replicate 100 400 ++ replicate 100 650)
  = replicate 200 462.
Proof.
  rewrite (stabilize_positions_small_drift 400 650); [by vm_compute | lia |].
  apply Forall_app; split; apply Forall_replicate; lia.
Defined.

Lemma analyze_frames_hold (orig_w crop_w : Z) (i : nat) :
  forall (t : Q) (frames : list (list face)),
  frames !! S i = Some [] ->
  analyze_frames orig_w crop_w t frames !! S i
  = analyze_frames orig_w crop_w t frames !! i.
Proof.
  induction i as [|i IH]; intros t frames H.
  - destruct frames as [|f0 [|f1 rest]]; try done.
    simpl in H. injection H as ->.
    cbn [analyze_frames]. unfold analyze_frame at 1.
    unfold analyze_frame. cbv zeta. reflexivity.
  - destruct frames as [|f0 frames']; [done|].
    cbn [analyze_frames]. unfold analyze_frame at 1. cbv zeta.
    simpl. apply IH. exact H.
Qed.

(** X5: In the analysis pass of convert_to_portrait a frame on which no face
    is detected repeats the crop position of the frame before it; when the
    first frame has no face its position is the centred one, max(0,
    min(int((orig_w - crop_w) / 2), orig_w - crop_w)). *)
Theorem raw_positions_hold_without_face (orig_w orig_h : Z)
    (frames : list (list face)) :
  (frames !! 0%nat = Some [] ->
   raw_positions orig_w orig_h frames !! 0%nat
   = Some (Z.max 0 (Z.min (Z.quot (orig_w - crop_width orig_h) 2)
                          (orig_w - crop_width orig_h)))) /\
  (forall i, frames !! S i = Some [] ->
   raw_positions orig_w orig_h frames !! S i
   = raw_positions orig_w orig_h frames !! i).
Proof.
  split.
  - intros H. destruct frames as [|f0 rest]; [done|].
    simpl in H. injection H as ->.
    unfold raw_positions. cbn [analyze_frames]. unfold analyze_frame.
    cbv zeta. simpl. by rewrite python_int_centre.
  - intros i H. unfold raw_positions. by apply analyze_frames_hold.
Qed.

Lemma raw_positions_hold_without_face_witness :
  let frames := [[Face 1500 200 200 200]; []; []] in
  raw_positions 1920 1080 frames !! 1%nat = Some 1296 /\
  raw_positions 1920 1080 frames !! 2%nat = Some 1296.
Proof.
  intros frames.
  pose proof (raw_positions_hold_without_face 1920 1080 frames) as [_ H].
  assert (H0 : raw_positions 1920 1080 frames !! 0%nat = Some 1296)
    by (by vm_compute).
  assert (H1 := H 0%nat eq_refl). assert (H2 := H 1%nat eq_refl).
  rewrite H2, H1. done.
Defined.

Lemma max_by_area_first_largest (best : face) (rest : list face) :
  exists pre post,
    best :: rest = pre ++ max_by_area best rest :: post /\
    Forall (fun g => fw g * fh g < fw (max_by_area best rest)
                                   * fh (max_by_area best rest)) pre /\
    Forall (fun g => fw g * fh g <= fw (max_by_area best rest)
                                    * fh (max_by_area best rest)) post.
Proof.
  revert best. induction rest as [|f rest IH]; intros best.
  - exists [], []. simpl. split_and!; done.
  - simpl. destruct (fw best * fh best <? fw f * fh f) eqn:E.
    + apply Z.ltb_lt in E.
      destruct (IH f) as (pre & post & Heq & Hpre & Hpost).
      exists (best :: pre), post. split_and!; [simpl; congruence | | done].
      apply Forall_cons; split; [|done].
      assert (fw f * fh f <= fw (max_by_area f rest) * fh (max_by_area f rest));
        [|lia].
      destruct pre as [|p pre'].
      * simpl in Heq. injection Heq as Hf _. rewrite <- Hf. lia.
      * simpl in Heq. injection Heq as Hf _. subst p.
        apply Forall_cons in Hpre as [Hp _]. lia.
    + apply Z.ltb_ge in E.
      destruct (IH best) as (pre & post & Heq & Hpre & Hpost).
      destruct pre as [|p pre'].
      * simpl in Heq. injection Heq as Hb Hrest.
        exists [], (f :: post). simpl. split_and!; [| done |].
        { congruence. }
        apply Forall_cons; split; [|done]. rewrite <- Hb. lia.
      * simpl in Heq. injection Heq as Hb Hrest. subst p.
        exists (best :: f :: pre'), post. simpl. split_and!.
        { congruence. }
        { apply Forall_cons in Hpre as [Hp Hpre].
          apply Forall_cons; split; [done|].
          apply Forall_cons; split; [lia | done]. }
        done.
Qed.

Lemma python_int_half (n : Z) (q : Q) :
  (q == inject_Z n / 2)%Q -> python_int q = Z.quot n 2.
Proof.
  destruct q as [a b]. unfold python_int, Qeq, Qdiv, Qmult, Qinv, inject_Z.
  simpl. intros H.
  assert (Hb : 0 < Z.pos b) by lia.
  Z.to_euclidean_division_equations. nia.
Qed.

(** X6: On a frame with detected faces the analysis pass follows the face of
    largest area w*h, the first such face in detection order on a tie; the
    target is the horizontal centre of that face, and when the crop window
    fits the frame (0 < crop_w <= orig_w) and that centre lies in [0,
    orig_w], the centre lies inside the crop window [crop_x, crop_x +
    crop_w]. *)
Theorem analyze_frame_tracks_largest_face (orig_w crop_w : Z) (t : Q)
    (f : face) (rest : list face) :
  let largest := max_by_area f rest in
  let centre := (inject_Z (fx largest) + inject_Z (fw largest) / 2)%Q in
  let crop_x := (analyze_frame orig_w crop_w t (f :: rest)).2 in
  (exists pre post,
     f :: rest = pre ++ largest :: post /\
     Forall (fun g => fw g * fh g < fw largest * fh largest) pre /\
     Forall (fun g => fw g * fh g <= fw largest * fh largest) post) /\
  (analyze_frame orig_w crop_w t (f :: rest)).1 = centre /\
  (0 < crop_w <= orig_w -> (0 <= centre <= inject_Z orig_w)%Q ->
   (inject_Z crop_x <= centre <= inject_Z crop_x + inject_Z crop_w)%Q).
Proof.
  intros largest centre crop_x. split_and!.
  - apply max_by_area_first_largest.
  - reflexivity.
  - intros Hw [Hc0 Hc1]. subst crop_x. unfold analyze_frame. cbv zeta.
    cbn [snd]. fold largest. fold centre.
    rewrite (python_int_half (2 * fx largest + fw largest - crop_w)).
    2:{ unfold centre, Z.sub.
        rewrite !inject_Z_plus, inject_Z_opp, inject_Z_mult. field. }
    set (m := 2 * fx largest + fw largest) in *.
    assert (Hm : (centre == inject_Z m / 2)%Q).
    { unfold centre, m. rewrite inject_Z_plus, inject_Z_mult. field. }
    rewrite Hm in Hc0, Hc1 |- *.
    assert (H0 : 0 <= m).
    { revert Hc0. unfold Qle, Qdiv, Qmult, Qinv, inject_Z. simpl. lia. }
    assert (H1 : m <= 2 * orig_w).
    { revert Hc1. unfold Qle, Qdiv, Qmult, Qinv, inject_Z. simpl. lia. }
    set (x := Z.max 0 (Z.min (Z.quot (m - crop_w) 2) (orig_w - crop_w))).
    assert (Hx : 2 * x <= m <= 2 * x + 2 * crop_w).
    { unfold x. Z.to_euclidean_division_equations. lia. }
    split.
    + unfold Qle, Qdiv, Qmult, Qinv, inject_Z. simpl. lia.
    + rewrite <- inject_Z_plus.
      unfold Qle, Qdiv, Qmult, Qinv, inject_Z. simpl. lia.
Qed.

Lemma analyze_frame_tracks_largest_face_witness :
  let faces := [Face 100 50 80 80; Face 900 40 200 200; Face 1500 30 200 200] in
  (analyze_frame 1920 607 0 faces).2 = 696 /\
  (inject_Z 696 <= inject_Z 900 + inject_Z 200 / 2
   <= inject_Z 696 + inject_Z 607)%Q.
Proof.
  intros faces. split; [by vm_compute|].
  pose proof (analyze_frame_tracks_largest_face 1920 607 0
                (Face 100 50 80 80)
                [Face 900 40 200 200; Face 1500 30 200 200]) as (_ & _ & H).
  apply H; [lia|]. split; by vm_compute.
Defined.

End PlannerCoverage.

(** ** More on the validation of highlights and on [parse_timestamp] *)

Section HighlightCoverage.

Import Highlights.

Lemma filter_loop_app (pre rest valid : list dict) (num_clips : Z) :
  Forall well_formed pre ->
  Z.of_nat (length valid + length (List.filter long_enough pre)) < num_clips ->
  filter_loop (pre ++ rest) valid num_clips
  = filter_loop rest (valid ++ (with_duration <$> List.filter long_enough pre))
      num_clips.
Proof.
  intros Hwf. revert valid.
  induction Hwf as [|h pre Hh Hpre IH]; intros valid Hlen.
  { simpl. by rewrite app_nil_r. }
  cbn [app filter_loop List.filter]. rewrite filter_step_well_formed by done.
  cbv zeta. cbn [List.filter] in Hlen.
  destruct (long_enough h); cbn [rbind length] in *.
  - rewrite length_app. cbn [length].
    destruct (Z.leb_spec num_clips (Z.of_nat (length valid + 1))); [lia|].
    rewrite IH by (rewrite length_app; simpl; lia).
    by rewrite fmap_cons, <- app_assoc.
  - destruct (Z.leb_spec num_clips (Z.of_nat (length valid))); [lia|].
    by apply IH.
Qed.

Lemma filter_loop_stops (pre post valid : list dict) (num_clips : Z) :
  Forall well_formed pre ->
  Z.of_nat (length valid) < num_clips ->
  num_clips <= Z.of_nat (length valid + length (List.filter long_enough pre)) ->
  filter_loop (pre ++ post) valid num_clips
  = Ok (valid ++ take (Z.to_nat num_clips - length valid)
                   (with_duration <$> List.filter long_enough pre)).
Proof.
  intros Hwf. revert valid.
  induction Hwf as [|h pre Hh Hpre IH]; intros valid Hlt Hle.
  { simpl in Hle. lia. }
  cbn [app filter_loop List.filter]. rewrite filter_step_well_formed by done.
  cbv zeta. cbn [List.filter] in Hle.
  destruct (long_enough h); cbn [rbind length] in *.
  - rewrite length_app. cbn [length].
    destruct (Z.leb_spec num_clips (Z.of_nat (length valid + 1))) as [Hbr|Hgo].
    + replace (Z.to_nat num_clips - length valid)%nat with 1%nat by lia.
      by rewrite fmap_cons.
    + rewrite IH by (rewrite ?length_app; simpl; lia).
      rewrite length_app. cbn [length]. rewrite <- app_assoc. f_equal.
      rewrite fmap_cons.
      replace (Z.to_nat num_clips - length valid)%nat
        with (S (Z.to_nat num_clips - (length valid + 1)))%nat by lia.
      done.
  - destruct (Z.leb_spec num_clips (Z.of_nat (length valid))); [lia|].
    by apply IH.
Qed.





(** *** [parse_timestamp] *)

Lemma digits_value_is_digit (s : string) :
  forall acc n, digits_value acc s = Some n ->
    Forall (fun c => is_digit c = true) (list_ascii_of_string s).
Proof.
  induction s as [|c s IH]; intros acc n H; [constructor|].
  simpl in H. destruct (is_digit c) eqn:Hc; [|done].
  simpl. constructor; [done|]. by eapply IH.
Qed.

Lemma is_digit_not (c d : ascii) :
  is_digit c = true -> is_digit d = false -> Ascii.eqb c d = false.
Proof.
  intros Hc Hd. destruct (Ascii.eqb_spec c d) as [->|]; [congruence | done].
Qed.

Lemma replace_comma_app (a b : string) :
  replace_comma (a +:+ b) = replace_comma a +:+ replace_comma b.
Proof. induction a as [|c a IH]; [done|]. simpl. by rewrite IH. Qed.

Lemma replace_comma_digits (s : string) :
  Forall (fun c => is_digit c = true) (list_ascii_of_string s) ->
  replace_comma s = s.
Proof.
  induction s as [|c s IH]; [done|]. simpl. intros H.
  apply Forall_cons in H as [Hc Hs].
  rewrite (is_digit_not c ","%char) by done. by rewrite IH.
Qed.

Lemma split_colon_digits (s : string) :
  Forall (fun c => is_digit c = true) (list_ascii_of_string s) ->
  split_colon s = [s].
Proof.
  induction s as [|c s IH]; [done|]. simpl. intros H.
  apply Forall_cons in H as [Hc Hs].
  rewrite (is_digit_not c ":"%char) by done. by rewrite IH.
Qed.

Lemma split_colon_app (a b : string) :
  Forall (fun c => Ascii.eqb c ":"%char = false) (list_ascii_of_string a) ->
  split_colon (a +:+ ":" +:+ b) = a :: split_colon b.
Proof.
  induction a as [|c a IH]; [done|]. simpl. intros H.
  apply Forall_cons in H as [Hc Ha]. rewrite Hc, IH by done. done.
Qed.

Lemma split_colon_single (a : string) :
  Forall (fun c => Ascii.eqb c ":"%char = false) (list_ascii_of_string a) ->
  split_colon a = [a].
Proof.
  induction a as [|c a IH]; [done|]. simpl. intros H.
  apply Forall_cons in H as [Hc Ha]. rewrite Hc, IH by done. done.
Qed.

Lemma split_dot_app (a b : string) :
  Forall (fun c => Ascii.eqb c "."%char = false) (list_ascii_of_string a) ->
  split_dot (a +:+ "." +:+ b) = (a, Some b).
Proof.
  induction a as [|c a IH]; [done|]. simpl. intros H.
  apply Forall_cons in H as [Hc Ha]. rewrite Hc, IH by done. done.
Qed.

Lemma digits_not (d : ascii) (s : string) :
  is_digit d = false ->
  Forall (fun c => is_digit c = true) (list_ascii_of_string s) ->
  Forall (fun c => Ascii.eqb c d = false) (list_ascii_of_string s).
Proof.
  intros Hd H. eapply Forall_impl; [exact H|].
  intros c Hc. by apply is_digit_not.
Qed.

Lemma int_of_string_digits (s : string) (n : Z) :
  s <> EmptyString -> digits_value 0 s = Some n -> int_of_string s = Ok n.
Proof. intros Hs Hn. unfold int_of_string. rewrite Hn. by destruct s. Qed.

Lemma list_ascii_app (a b : string) :
  list_ascii_of_string (a +:+ b)
  = list_ascii_of_string a ++ list_ascii_of_string b.
Proof. induction a as [|c a IH]; [done|]. simpl. by rewrite IH. Qed.

Lemma parse_timestamp_digits (hs ms ss fs : string) (h m s f : Z)
    (mark : ascii) :
  hs <> EmptyString -> ms <> EmptyString -> ss <> EmptyString ->
  digits_value 0 hs = Some h -> digits_value 0 ms = Some m ->
  digits_value 0 ss = Some s -> digits_value 0 fs = Some f ->
  mark = ","%char \/ mark = "."%char ->
  parse_timestamp (hs +:+ ":" +:+ ms +:+ ":" +:+ ss +:+ String mark fs)
  = Ok (inject_Z (h * 3600) + inject_Z (m * 60)
        + (inject_Z s
           + inject_Z f / inject_Z (10 ^ Z.of_nat (String.length fs))))%Q.
Proof.
  intros Hhs Hms Hss Hh Hm Hs Hf Hmark.
  pose proof (digits_value_is_digit _ _ _ Hh) as Dh.
  pose proof (digits_value_is_digit _ _ _ Hm) as Dm.
  pose proof (digits_value_is_digit _ _ _ Hs) as Ds.
  pose proof (digits_value_is_digit _ _ _ Hf) as Df.
  unfold parse_timestamp.
  assert (Hrep : replace_comma
            (hs +:+ ":" +:+ ms +:+ ":" +:+ ss +:+ String mark fs)
          = hs +:+ ":" +:+ ms +:+ ":" +:+ ss +:+ "." +:+ fs).
  { rewrite !replace_comma_app. cbn [replace_comma].
    rewrite !replace_comma_digits by done.
    destruct Hmark as [-> | ->]; reflexivity. }
  rewrite Hrep.
  rewrite split_colon_app by (by apply digits_not).
  rewrite split_colon_app by (by apply digits_not).
  rewrite split_colon_single.
  2:{ rewrite list_ascii_app. apply Forall_app; split; [by apply digits_not|].
      simpl. constructor; [done|]. by apply digits_not. }
  cbn [part lookup list_lookup rbind].
  rewrite (int_of_string_digits hs h) by done. cbn [rbind].
  rewrite (int_of_string_digits ms m) by done. cbn [rbind].
  unfold float_of_string. rewrite split_dot_app by (by apply digits_not).
  rewrite (int_of_string_digits ss s) by done. cbn [rbind].
  rewrite Hf. reflexivity.
Qed.



Lemma split_dot_none (a : string) :
  Forall (fun c => Ascii.eqb c "."%char = false) (list_ascii_of_string a) ->
  split_dot a = (a, None).
Proof.
  induction a as [|c a IH]; [done|]. simpl. intros H.
  apply Forall_cons in H as [Hc Ha]. rewrite Hc, IH by done. done.
Qed.

Lemma float_of_string_digits (s : string) (n : Z) :
  s <> EmptyString -> digits_value 0 s = Some n ->
  float_of_string s = Ok (inject_Z n).
Proof.
  intros Hs Hn. unfold float_of_string.
  rewrite split_dot_none
    by (eapply digits_not; [done | by eapply digits_value_is_digit]).
  by rewrite (int_of_string_digits s n).
Qed.

(** X10: parse_timestamp needs three colon-separated parts: on one or two
    numeric parts it raises IndexError, on three it returns h*3600 + m*60 +
    s, and whatever follows a third colon is ignored. *)
Theorem parse_timestamp_part_count (hs ms ss tail : string) (h m s : Z) :
  hs <> EmptyString -> ms <> EmptyString -> ss <> EmptyString ->
  digits_value 0 hs = Some h -> digits_value 0 ms = Some m ->
  digits_value 0 ss = Some s ->
  parse_timestamp ss = Raise IndexError /\
  parse_timestamp (ms +:+ ":" +:+ ss) = Raise IndexError /\
  parse_timestamp (hs +:+ ":" +:+ ms +:+ ":" +:+ ss)
  = Ok (inject_Z (h * 3600) + inject_Z (m * 60) + inject_Z s)%Q /\
  parse_timestamp (hs +:+ ":" +:+ ms +:+ ":" +:+ ss +:+ ":" +:+ tail)
  = Ok (inject_Z (h * 3600) + inject_Z (m * 60) + inject_Z s)%Q.
Proof.
  intros Hhs Hms Hss Hh Hm Hs.
  pose proof (digits_value_is_digit _ _ _ Hh) as Dh.
  pose proof (digits_value_is_digit _ _ _ Hm) as Dm.
  pose proof (digits_value_is_digit _ _ _ Hs) as Ds.
  unfold parse_timestamp. split_and!.
  - rewrite replace_comma_digits, split_colon_digits by done.
    cbn [part lookup list_lookup rbind].
    by rewrite (int_of_string_digits ss s).
  - rewrite !replace_comma_app. cbn [replace_comma].
    rewrite !replace_comma_digits by done.
    rewrite split_colon_app by (by apply digits_not).
    rewrite split_colon_digits by done.
    cbn [part lookup list_lookup rbind].
    rewrite (int_of_string_digits ms m) by done. cbn [rbind].
    by rewrite (int_of_string_digits ss s).
  - rewrite !replace_comma_app. cbn [replace_comma].
    rewrite !replace_comma_digits by done.
    rewrite !split_colon_app by (by apply digits_not).
    rewrite split_colon_digits by done.
    cbn [part lookup list_lookup rbind].
    rewrite (int_of_string_digits hs h) by done. cbn [rbind].
    rewrite (int_of_string_digits ms m) by done. cbn [rbind].
    by rewrite (float_of_string_digits ss s).
  - rewrite !replace_comma_app. cbn [replace_comma].
    rewrite !replace_comma_digits by done.
    rewrite !split_colon_app by (by apply digits_not).
    cbn [part lookup list_lookup rbind].
    rewrite (int_of_string_digits hs h) by done. cbn [rbind].
    rewrite (int_of_string_digits ms m) by done. cbn [rbind].
    by rewrite (float_of_string_digits ss s).
Qed.

Lemma parse_timestamp_part_count_witness :
  parse_timestamp "30" = Raise IndexError /\
  parse_timestamp "01:30" = Raise IndexError /\
  parse_timestamp "00:01:30"
  = Ok (inject_Z (0 * 3600) + inject_Z (1 * 60) + inject_Z 30)%Q /\
  parse_timestamp "00:01:30:75"
  = Ok (inject_Z (0 * 3600) + inject_Z (1 * 60) + inject_Z 30)%Q.
Proof.
  apply (parse_timestamp_part_count "00" "01" "30" "75" 0 1 30); done.
Defined.

End HighlightCoverage.

(** ** More on the caption timeline *)

Section CaptionCoverage.

Import Highlights Captions.

(** *** [format_time] *)

Lemma format_time_fields_range (x : Q) :
  let a := format_time_fields x in
  0 <= minutes a < 60 /\ 0 <= secs a < 60 /\ 0 <= centisecs a < 100 /\
  ((0 <= x)%Q -> 0 <= hours a) /\
  (ass_time_seconds a <= x)%Q /\ (x < ass_time_seconds a + (1 # 100))%Q.
Proof.
  intros a.
  assert (Hm : minutes a = (Qfloor x - 3600 * (Qfloor x / 3600)) / 60)
    by apply minutes_floor.
  assert (Hs : secs a = Qfloor x - 60 * (Qfloor x / 60)) by apply secs_floor.
  assert (Hc : centisecs a = Qfloor (x * 100) - 100 * Qfloor x)
    by apply centisecs_floor.
  assert (Hh : hours a = Qfloor x / 3600) by apply floordiv_3600.
  assert (Hlo : (inject_Z (Qfloor (x * 100)) <= x * 100)%Q)
    by apply Qfloor_le.
  assert (Hhi : (x * 100 < inject_Z (Qfloor (x * 100) + 1))%Q)
    by apply Qlt_floor.
  rewrite inject_Z_plus in Hhi. change (inject_Z 1) with 1%Q in Hhi.
  assert (Hcs : 100 * Qfloor x <= Qfloor (x * 100) < 100 * Qfloor x + 100).
  { pose proof (Qfloor_le x) as Hx0. pose proof (Qlt_floor x) as Hx1.
    rewrite inject_Z_plus in Hx1. change (inject_Z 1) with 1%Q in Hx1.
    split.
    - rewrite <- (Qfloor_Z (100 * Qfloor x)). apply Qfloor_resp_le.
      rewrite inject_Z_mult. change (inject_Z 100) with 100%Q. lra.
    - assert (Hstep : (inject_Z (Qfloor (x * 100))
                       < inject_Z (100 * Qfloor x + 100))%Q).
      { rewrite inject_Z_plus, inject_Z_mult.
        change (inject_Z 100) with 100%Q. lra. }
      by rewrite <- Zlt_Qlt in Hstep. }
  assert (Hx0 : (0 <= x)%Q -> 0 <= Qfloor x).
  { intros Hx. change 0 with (Qfloor 0). by apply Qfloor_resp_le. }
  assert (Hval : (ass_time_seconds a == inject_Z (Qfloor (x * 100)) / 100)%Q)
    by apply ass_time_seconds_format.
  rewrite Hm, Hs, Hc, Hh, Hval.
  split; [Z.to_euclidean_division_equations; lia|].
  split; [Z.to_euclidean_division_equations; lia|].
  split; [lia|].
  split; [intros Hx; specialize (Hx0 Hx); apply Z.div_pos; lia|].
  assert (Hdiv : (inject_Z (Qfloor (x * 100)) / 100
                  == inject_Z (Qfloor (x * 100)) * (1 # 100))%Q) by field.
  rewrite Hdiv. split; lra.
Qed.



(** *** [format_time] read back by [parse_timestamp] *)

Lemma digit_value_pretty_N_char (d : N) :
  (d < 10)%N ->
  is_digit (pretty_N_char d) = true /\
  digit_value (pretty_N_char d) = Z.of_N d.
Proof.
  intros Hd.
  assert (d = 0 \/ d = 1 \/ d = 2 \/ d = 3 \/ d = 4 \/ d = 5 \/ d = 6
          \/ d = 7 \/ d = 8 \/ d = 9)%N as H by lia.
  repeat (destruct H as [-> | H]; [by vm_compute|]). by subst.
Qed.

Lemma digits_value_pretty_N_go (x : N) :
  forall s, digits_value 0 (pretty_N_go x s) = digits_value (Z.of_N x) s.
Proof.
  induction (N.lt_wf_0 x) as [x _ IH]. intros s.
  assert (x = 0 \/ 0 < x)%N as [-> | Hx] by lia.
  { by rewrite pretty_N_go_0. }
  rewrite pretty_N_go_step by done.
  rewrite IH by (by apply N.div_lt).
  destruct (digit_value_pretty_N_char (x `mod` 10)) as [Hd Hv].
  { by apply N.mod_lt. }
  cbn [digits_value]. rewrite Hd, Hv. f_equal.
  rewrite (N.div_mod x 10) at 3 by done. lia.
Qed.

Lemma pretty_N_go_length (x : N) :
  forall s, (String.length s <= String.length (pretty_N_go x s))%nat.
Proof.
  induction (N.lt_wf_0 x) as [x _ IH]. intros s.
  assert (x = 0 \/ 0 < x)%N as [-> | Hx] by lia.
  { by rewrite pretty_N_go_0. }
  rewrite pretty_N_go_step by done.
  etrans; [|apply IH; by apply N.div_lt]. simpl. lia.
Qed.

Lemma pretty_Z_digits (n : Z) :
  0 <= n ->
  pretty n <> EmptyString /\ digits_value 0 (pretty n) = Some n.
Proof.
  intros Hn. destruct n as [|p|p]; [done | | lia].
  unfold pretty, pretty_Z, pretty, pretty_positive, pretty, pretty_N.
  rewrite decide_False by done. split.
  - intros E. rewrite pretty_N_go_step in E by lia.
    pose proof (pretty_N_go_length (N.pos p `div` 10)
                  (String (pretty_N_char (N.pos p `mod` 10)) "")) as Hlen.
    rewrite E in Hlen. simpl in Hlen. lia.
  - by rewrite digits_value_pretty_N_go.
Qed.

Lemma pad2_digits (n : Z) :
  0 <= n < 100 ->
  String.length (pad2 n) = 2%nat /\ digits_value 0 (pad2 n) = Some n.
Proof.
  intros Hn.
  assert (Hall : forallb (fun k =>
            bool_decide (String.length (pad2 (Z.of_nat k)) = 2%nat
                         /\ digits_value 0 (pad2 (Z.of_nat k))
                            = Some (Z.of_nat k)))
            (seq 0 100) = true) by (by vm_compute).
  rewrite forallb_forall in Hall.
  specialize (Hall (Z.to_nat n)).
  rewrite Z2Nat.id in Hall by lia.
  eapply bool_decide_eq_true_1, Hall, in_seq. lia.
Qed.



(** *** The word loop of [create_ass_subtitle_capcut] *)

Lemma chunks_take (ws : list word) (n : nat) :
  concat (map (fun k => slice ws (k * chunk_size)
                          (k * chunk_size + chunk_size)) (seq 0 n))
  = take (n * chunk_size) ws.
Proof.
  induction n as [|n IH]; [done|].
  rewrite seq_S, map_app, concat_app, IH. simpl. rewrite app_nil_r.
  unfold slice.
  replace (n * chunk_size + chunk_size - n * chunk_size)%nat
    with chunk_size by lia.
  rewrite take_take_drop. f_equal. unfold chunk_size. lia.
Qed.

Lemma chunks_count (ws : list word) :
  (length ws <= (length ws + chunk_size - 1) / chunk_size * chunk_size
   < length ws + chunk_size)%nat.
Proof.
  unfold chunk_size.
  pose proof (Nat.div_mod (length ws + 4 - 1) 4 ltac:(lia)).
  pose proof (Nat.mod_upper_bound (length ws + 4 - 1) 4 ltac:(lia)).
  lia.
Qed.

(** X13: The caption builder cuts the word list into consecutive chunks that
    together are exactly the word list, in order; every chunk has between 1
    and 4 words and every chunk but the last has exactly 4. *)
Theorem chunks_partition (ws : list word) :
  concat (chunks ws) = ws /\
  Forall (fun chunk => (1 <= length chunk <= 4)%nat) (chunks ws) /\
  forall k chunk, chunks ws !! k = Some chunk ->
    (S k < length (chunks ws))%nat -> length chunk = 4%nat.
Proof.
  pose proof (chunks_count ws) as Hn.
  unfold chunks. set (n := ((length ws + chunk_size - 1) / chunk_size)%nat) in *.
  split_and!.
  - rewrite chunks_take. apply take_ge. lia.
  - apply Forall_map, Forall_forall. intros k Hk.
    apply elem_of_seq in Hk. simpl.
    unfold slice. rewrite length_take, length_drop.
    unfold chunk_size in *. lia.
  - intros k chunk Hk Hlast. rewrite length_map, length_seq in Hlast.
    rewrite list_lookup_fmap in Hk.
    rewrite lookup_seq_lt in Hk by lia. simpl in Hk. injection Hk as <-.
    unfold slice. rewrite length_take, length_drop.
    unfold chunk_size in *. lia.
Qed.

Lemma chunk_captions_times (chunk : list word) (t : Q) :
  map (fun c => (c_start c, c_end c)) (chunk_captions chunk t)
  = map (fun w => (w_start w + t, w_end w + t)%Q) chunk.
Proof.
  unfold chunk_captions. generalize (chunk_text chunk). intros text.
  revert text. induction chunk as [|w chunk IH]; intros text; [done|].
  rewrite imap_cons. cbn [map]. f_equal. apply IH.
Qed.

Lemma word_captions_times (ws : list word) (t : Q) :
  map (fun c => (c_start c, c_end c)) (word_captions ws t)
  = map (fun w => (w_start w + t, w_end w + t)%Q) ws.
Proof.
  unfold word_captions.
  rewrite <- (proj1 (chunks_partition ws)) at 2.
  induction (chunks ws) as [|chunk cs IH]; [done|].
  cbn [map concat]. rewrite !map_app, chunk_captions_times, IH. done.
Qed.

(** X14: With word-level timestamps the caption builder emits exactly one
    event per word, in word order, whose start and end are
    format_time(word.start + time_offset) and format_time(word.end +
    time_offset); the segments are then not used. *)
Theorem events_one_per_word (w : word) (ws : list word)
    (segs : option (list segment)) (t : Q) :
  map (fun e => (ev_start e, ev_end e))
      (events (Transcript (Some (w :: ws)) segs) t)
  = map (fun w => (format_time (w_start w + t), format_time (w_end w + t)))
        (w :: ws).
Proof.
  unfold events, captions. cbn [words nonempty].
  rewrite map_map.
  change (fun x => (ev_start (event_of x), ev_end (event_of x)))
    with (fun x => (fun p : Q * Q => (format_time p.1, format_time p.2))
                     ((fun c => (c_start c, c_end c)) x)).
  rewrite <- (map_map (fun c => (c_start c, c_end c))
                (fun p : Q * Q => (format_time p.1, format_time p.2))).
  rewrite word_captions_times, map_map. done.
Qed.

(** *** The file that [create_ass_subtitle_capcut] writes *)

Lemma string_app_cons (x : ascii) (a s : string) :
  String x a +:+ s = String x (a +:+ s).
Proof. reflexivity. Qed.

Lemma string_app_assoc (a b c : string) : (a +:+ b) +:+ c = a +:+ b +:+ c.
Proof.
  induction a as [|x a IH]; [done|]. by rewrite !string_app_cons, IH.
Qed.

Lemma string_app_nil_r (a : string) : a +:+ "" = a.
Proof.
  induction a as [|x a IH]; [done|]. by rewrite string_app_cons, IH.
Qed.

Lemma fold_dialogue_lines (es : list event) (acc : string) :
  fold_left (fun ass_content e => ass_content +:+ dialogue_line e) es acc
  = acc +:+ String.concat "" (map dialogue_line es).
Proof.
  revert acc. induction es as [|e es IH]; intros acc.
  { simpl. by rewrite string_app_nil_r. }
  cbn [fold_left map]. rewrite IH, string_app_assoc. f_equal.
  destruct es as [|e' es]; [by simpl; rewrite string_app_nil_r|]. reflexivity.
Qed.

(** X15: The subtitle file written is the fixed header followed by one
    Dialogue line per event, in order, and nothing else; a transcript with
    neither words nor segments gives the header alone. *)
Theorem create_ass_subtitle_capcut_lines (tr : transcript) (t : Q) :
  create_ass_subtitle_capcut tr t
  = ass_header +:+ String.concat "" (map dialogue_line (events tr t)) /\
  (nonempty (words tr) = None -> nonempty (segments tr) = None ->
   create_ass_subtitle_capcut tr t = ass_header).
Proof.
  split; [apply fold_dialogue_lines|].
  intros Hw Hs. unfold create_ass_subtitle_capcut, events, captions.
  by rewrite Hw, Hs.
Qed.

Lemma create_ass_subtitle_capcut_lines_witness :
  create_ass_subtitle_capcut (Transcript (Some []) None) (16 # 5) = ass_header.
Proof.
  by apply (create_ass_subtitle_capcut_lines (Transcript (Some []) None)).
Defined.

End CaptionCoverage.

(** ** Text matching and [parse_srt] *)

Section TextFacts.

Import Highlights Text Pipeline.

Lemma string_length_app (a b : string) :
  String.length (a +:+ b) = (String.length a + String.length b)%nat.
Proof.
  induction a as [|x a IH]; [done|]. rewrite string_app_cons. simpl.
  by rewrite IH.
Qed.

Lemma take_digits_app (d s : string) :
  Forall (fun c => is_digit c = true) (list_ascii_of_string d) ->
  no_digit_ahead s ->
  take_digits (d +:+ s) = (d, s).
Proof.
  intros Hd Hs. induction d as [|c d IH].
  - destruct s as [|c s]; [done|]. simpl in *. by rewrite Hs.
  - simpl in Hd. apply Forall_cons in Hd as [Hc Hd].
    rewrite string_app_cons. simpl. by rewrite Hc, IH.
Qed.

Lemma take_digits_length (s d r : string) :
  take_digits s = (d, r) ->
  String.length s = (String.length d + String.length r)%nat.
Proof.
  revert d r. induction s as [|c s IH]; intros d r H.
  - by injection H as <- <-.
  - simpl in H. destruct (is_digit c).
    + destruct (take_digits s) as [d' r'] eqn:E. injection H as <- <-.
      simpl. by rewrite (IH _ _ eq_refl).
    + by injection H as <- <-.
Qed.

Lemma take_digits_digits (s d r : string) :
  take_digits s = (d, r) ->
  Forall (fun c => is_digit c = true) (list_ascii_of_string d).
Proof.
  revert d r. induction s as [|c s IH]; intros d r H.
  - injection H as <- <-. constructor.
  - simpl in H. destruct (is_digit c) eqn:Hc.
    + destruct (take_digits s) as [d' r'] eqn:E. injection H as <- <-.
      simpl. constructor; [done|]. by eapply IH.
    + injection H as <- <-. constructor.
Qed.

Lemma match_digits_app (d s : string) :
  d <> EmptyString ->
  Forall (fun c => is_digit c = true) (list_ascii_of_string d) ->
  no_digit_ahead s ->
  match_digits (d +:+ s) = Some (d, s).
Proof.
  intros Hne Hd Hs. unfold match_digits. rewrite take_digits_app by done.
  by destruct d.
Qed.

Lemma match_digits_inv (s d r : string) :
  match_digits s = Some (d, r) ->
  d <> EmptyString /\
  Forall (fun c => is_digit c = true) (list_ascii_of_string d) /\
  String.length s = (String.length d + String.length r)%nat.
Proof.
  unfold match_digits. destruct (take_digits s) as [d' r'] eqn:E.
  destruct d' as [|c d']; [done|]. intros [= <- <-]. split_and!.
  - done.
  - by eapply take_digits_digits.
  - by apply take_digits_length.
Qed.

Lemma match_literal_app (lit s : string) :
  match_literal lit (lit +:+ s) = Some s.
Proof.
  induction lit as [|c lit IH]; [done|].
  rewrite string_app_cons. simpl. by rewrite Ascii.eqb_refl.
Qed.

Lemma match_literal_inv (lit s r : string) :
  match_literal lit s = Some r -> s = lit +:+ r.
Proof.
  revert s. induction lit as [|c lit IH]; intros s H.
  - by injection H as <-.
  - destruct s as [|a s]; [done|]. simpl in H.
    destruct (Ascii.eqb_spec a c) as [->|]; [|done].
    rewrite string_app_cons. f_equal. by apply IH.
Qed.

Lemma match_classes_app (classes : list (ascii -> bool)) (a s : string) :
  match_classes classes a = Some (a, EmptyString) ->
  match_classes classes (a +:+ s) = Some (a, s).
Proof.
  revert a. induction classes as [|class classes IH]; intros a H.
  - simpl in H. injection H as <-. done.
  - destruct a as [|x a]; [done|]. simpl in H.
    rewrite string_app_cons. simpl.
    destruct (class x); [|done].
    destruct (match_classes classes a) as [[m r]|] eqn:E; [|done].
    simpl in H. injection H as <- ->.
    by rewrite (IH m E).
Qed.

Lemma match_classes_inv (classes : list (ascii -> bool)) (s m r : string) :
  match_classes classes s = Some (m, r) ->
  s = m +:+ r /\ String.length m = length classes /\
  Forall2 (fun class c => class c = true) classes (list_ascii_of_string m).
Proof.
  revert s m r. induction classes as [|class classes IH]; intros s m r H.
  - simpl in H. injection H as <- <-. split_and!; [done | done | constructor].
  - destruct s as [|x s]; [done|]. simpl in H.
    destruct (class x) eqn:Hx; [|done].
    destruct (match_classes classes s) as [[m' r']|] eqn:E; [|done].
    simpl in H. injection H as <- <-.
    destruct (IH _ _ _ E) as (-> & Hlen & Hall).
    split_and!; [done | simpl; by rewrite Hlen | by constructor].
Qed.

Lemma search_found {A} (match_at : string -> option A) (pre s : string) :
  is_Some (match_at s) -> is_Some (search match_at (pre +:+ s)).
Proof.
  intros Hs. induction pre as [|c pre IH].
  - destruct s; simpl; destruct (match_at _); done.
  - rewrite string_app_cons. simpl.
    destruct (match_at (String c (pre +:+ s))); [done | exact IH].
Qed.

Lemma search_inv {A} (match_at : string -> option A) (s : string) (a : A) :
  search match_at s = Some a ->
  exists pre rest, s = pre +:+ rest /\ match_at rest = Some a.
Proof.
  induction s as [|c s IH]; simpl.
  - destruct (match_at "") eqn:E; [|done]. intros [= <-]. by exists "", "".
  - destruct (match_at (String c s)) eqn:E.
    + intros [= <-]. by exists "", (String c s).
    + intros H. destruct (IH H) as (pre & rest & -> & Hm).
      by exists (String c pre), rest.
Qed.

End TextFacts.

Section SrtFacts.

Import Highlights Text Srt.

Lemma lazy_text_length (s text rest : string) :
  lazy_text s = (text, rest) ->
  String.length s = (String.length text + String.length rest)%nat.
Proof.
  revert text rest. induction s as [|a s IH]; intros text rest H.
  - by injection H as <- <-.
  - cbn [lazy_text] in H.
    destruct (String.prefix _ _); [by injection H as <- <-|].
    destruct (lazy_text s) as [t r]. injection H as <- <-.
    simpl. by rewrite (IH _ _ eq_refl).
Qed.

Lemma match_cue_at_shorter (s rest : string) (m : cue_match) :
  match_cue_at s = Some (m, rest) ->
  (String.length rest < String.length s)%nat.
Proof.
  unfold match_cue_at. intros H.
  apply bind_Some in H as ([idx r1] & E1 & H).
  apply bind_Some in H as (r2 & E2 & H).
  apply bind_Some in H as ([start r3] & E3 & H).
  apply bind_Some in H as (r4 & E4 & H).
  apply bind_Some in H as ([end_ r5] & E5 & H).
  apply bind_Some in H as (r6 & E6 & H).
  destruct (lazy_text r6) as [text rest'] eqn:E7. injection H as _ <-.
  apply match_digits_inv in E1 as (Hne & _ & L1).
  apply match_literal_inv in E2 as ->. apply match_literal_inv in E4 as ->.
  apply match_literal_inv in E6 as ->.
  apply match_classes_inv in E3 as (-> & _). apply match_classes_inv in E5 as (-> & _).
  apply lazy_text_length in E7.
  rewrite L1, !string_length_app, E7.
  destruct idx; [done|]. simpl. lia.
Qed.

Lemma findall_fuel (fuel1 fuel2 : nat) (s : string) :
  (String.length s < fuel1)%nat -> (String.length s < fuel2)%nat ->
  findall fuel1 s = findall fuel2 s.
Proof.
  revert fuel2 s. induction fuel1 as [|fuel1 IH]; intros fuel2 s H1 H2; [lia|].
  destruct fuel2 as [|fuel2]; [lia|]. cbn [findall].
  destruct (match_cue_at s) as [[m rest]|] eqn:E.
  - apply match_cue_at_shorter in E. f_equal. apply IH; lia.
  - destruct s as [|c s]; [done|]. simpl in *. apply IH; lia.
Qed.

Lemma prefix_cons (a b : ascii) (s1 s2 : string) :
  String.prefix (String a s1) (String b s2)
  = if Ascii.eqb b a then String.prefix s1 s2 else false.
Proof.
  cbn [String.prefix]. destruct (ascii_dec a b) as [->|Hne].
  - by rewrite Ascii.eqb_refl.
  - destruct (Ascii.eqb_spec b a) as [->|]; done.
Qed.

Lemma no_blank_line (a : ascii) (x : string) :
  Ascii.eqb a (ascii_of_nat 10) = false ->
  String.prefix (newline +:+ newline) (String a x) = false /\
  String.prefix (newline +:+ newline) (String (ascii_of_nat 10) (String a x))
  = false.
Proof.
  intros Ha. change (newline +:+ newline)
    with (String (ascii_of_nat 10) (String (ascii_of_nat 10) "")).
  rewrite !prefix_cons, Ha. by rewrite Ascii.eqb_refl.
Qed.

Lemma lazy_text_line (l s : string) :
  Forall (fun c => Ascii.eqb c (ascii_of_nat 10) = false)
         (list_ascii_of_string l) ->
  lazy_text (l +:+ s) = ((l +:+ (lazy_text s).1), (lazy_text s).2).
Proof.
  induction l as [|a l IH]; intros Hl.
  - change ("" +:+ s) with s. by destruct (lazy_text s).
  - simpl in Hl. apply Forall_cons in Hl as [Ha Hl].
    rewrite !string_app_cons. cbn [lazy_text].
    rewrite (proj1 (no_blank_line a (l +:+ s) Ha)), (IH Hl). done.
Qed.

Lemma lazy_text_separator (b : ascii) (x : string) :
  Ascii.eqb b (ascii_of_nat 10) = false ->
  lazy_text (newline +:+ String b x)
  = (newline +:+ (lazy_text (String b x)).1, (lazy_text (String b x)).2).
Proof.
  intros Hb. unfold newline at 1. rewrite string_app_cons.
  change ("" +:+ String b x) with (String b x).
  cbn [lazy_text].
  destruct (no_blank_line b x Hb) as [Hq Hp].
  rewrite Hp, Hq. destruct (lazy_text x). done.
Qed.

Lemma lazy_text_blank_ahead (tail : string) :
  blank_ahead tail -> lazy_text tail = (EmptyString, tail).
Proof.
  intros [-> | Hp]; [done|]. destruct tail as [|a tail]; [done|].
  cbn [lazy_text]. by rewrite Hp.
Qed.

Lemma lazy_text_lines (lines : list string) (tail : string) :
  Forall is_text_line lines -> blank_ahead tail ->
  lazy_text (String.concat newline lines +:+ tail)
  = (String.concat newline lines, tail).
Proof.
  intros Hlines Htail. induction Hlines as [|l ls [Hne Hl] Hls IH].
  - simpl. by apply lazy_text_blank_ahead.
  - destruct ls as [|l' ls].
    + simpl. rewrite lazy_text_line by done.
      rewrite lazy_text_blank_ahead by done. simpl.
      by rewrite string_app_nil_r.
    + change (String.concat newline (l :: l' :: ls))
        with (l +:+ newline +:+ String.concat newline (l' :: ls)).
      pose proof Hls as Hls'.
      apply Forall_cons in Hls' as [[Hne' Hl'] _].
      destruct l' as [|b l']; [done|].
      simpl in Hl'. apply Forall_cons in Hl' as [Hb _].
      assert (HR : exists x,
                String.concat newline (String b l' :: ls) = String b x).
      { destruct ls; cbn [String.concat]; rewrite ?string_app_cons; eauto. }
      destruct HR as [x HR]. rewrite HR in IH |- *.
      rewrite !string_app_assoc, lazy_text_line by done.
      rewrite string_app_cons in IH |- *.
      rewrite lazy_text_separator by done. by rewrite IH.
Qed.

Lemma match_cue_at_block (c : cue) (tail : string) :
  well_formed_cue c -> blank_ahead tail ->
  match_cue_at (cue_block c +:+ tail)
  = Some ({| m_idx := cue_index c; m_start := cue_start c;
             m_end := cue_end c;
             m_text := String.concat newline (cue_lines c) |}, tail).
Proof.
  intros (Hne & Hidx & Hstart & Hend & Hlines) Htail.
  unfold match_cue_at, cue_block. rewrite !string_app_assoc.
  rewrite match_digits_app by done. cbn [mbind option_bind].
  rewrite match_literal_app. cbn [mbind option_bind].
  rewrite (match_classes_app _ _ _ Hstart). cbn [mbind option_bind].
  rewrite match_literal_app. cbn [mbind option_bind].
  rewrite (match_classes_app _ _ _ Hend). cbn [mbind option_bind].
  rewrite match_literal_app. cbn [mbind option_bind].
  by rewrite lazy_text_lines.
Qed.

Lemma findall_match (s rest : string) (m : cue_match) :
  match_cue_at s = Some (m, rest) ->
  findall (S (String.length s)) s
  = m :: findall (S (String.length rest)) rest.
Proof.
  intros E. pose proof (match_cue_at_shorter _ _ _ E) as Hlt.
  transitivity (m :: findall (String.length s) rest).
  { cbn [findall]. by rewrite E. }
  f_equal. apply findall_fuel; lia.
Qed.

Lemma findall_skip_newline (s : string) :
  findall (S (String.length (newline +:+ s))) (newline +:+ s)
  = findall (S (String.length s)) s.
Proof. reflexivity. Qed.

Lemma findall_srt_file (cues : list cue) :
  Forall well_formed_cue cues ->
  findall (S (String.length (srt_file cues))) (srt_file cues)
  = map (fun c => {| m_idx := cue_index c; m_start := cue_start c;
                     m_end := cue_end c;
                     m_text := String.concat newline (cue_lines c) |}) cues.
Proof.
  intros Hall. induction Hall as [|c cs Hc Hcs IH]; [done|].
  unfold srt_file in *. destruct cs as [|c' cs].
  - cbn [map String.concat].
    rewrite <- (string_app_nil_r (cue_block c)) at 1 2.
    rewrite (findall_match _ _ _ (match_cue_at_block c "" Hc ltac:(by left))).
    done.
  - change (String.concat (newline +:+ newline) (map cue_block (c :: c' :: cs)))
      with (cue_block c +:+ (newline +:+ newline)
            +:+ String.concat (newline +:+ newline) (map cue_block (c' :: cs))).
    set (next := String.concat (newline +:+ newline)
                   (map cue_block (c' :: cs))) in *.
    assert (Ht : blank_ahead ((newline +:+ newline) +:+ next)).
    { right. change ((newline +:+ newline) +:+ next)
        with (String (ascii_of_nat 10) (String (ascii_of_nat 10) next)).
      change (newline +:+ newline)
        with (String (ascii_of_nat 10) (String (ascii_of_nat 10) "")).
      rewrite !prefix_cons, Ascii.eqb_refl. by destruct next. }
    rewrite (findall_match _ _ _ (match_cue_at_block c _ Hc Ht)).
    cbn [map]. f_equal. rewrite string_app_assoc.
    rewrite !findall_skip_newline. exact IH.
Qed.

Lemma replace_char_app (old : ascii) (new a b : string) :
  replace_char old new (a +:+ b)
  = replace_char old new a +:+ replace_char old new b.
Proof.
  induction a as [|x a IH]; [done|]. rewrite string_app_cons. simpl.
  destruct (Ascii.eqb x old).
  - by rewrite IH, string_app_assoc.
  - by rewrite IH.
Qed.

Lemma replace_char_absent (old : ascii) (new s : string) :
  Forall (fun c => Ascii.eqb c old = false) (list_ascii_of_string s) ->
  replace_char old new s = s.
Proof.
  induction s as [|x s IH]; [done|]. simpl. intros H.
  apply Forall_cons in H as [Hx Hs]. by rewrite Hx, IH.
Qed.

Lemma replace_newlines_lines (lines : list string) :
  Forall is_text_line lines ->
  replace_char (ascii_of_nat 10) " " (String.concat newline lines)
  = String.concat " " lines.
Proof.
  induction 1 as [|l ls [_ Hl] Hls IH]; [done|].
  destruct ls as [|l' ls].
  - simpl. by apply replace_char_absent.
  - cbn [String.concat] in *. rewrite !replace_char_app, IH.
    by rewrite replace_char_absent.
Qed.

(** X16: On a well-formed SubRip text (cues separated by one empty line,
    each cue a counter of digits, two HH:MM:SS,mmm time stamps and text
    lines that are not empty) parse_srt returns one line per cue, in order:
    [start - end] followed by the cue's text lines joined by single spaces
    and stripped. *)
Theorem parse_srt_reads_cues (cues : list cue) :
  Forall well_formed_cue cues ->
  parse_srt (srt_file cues) = String.concat newline (map transcript_line cues).
Proof.
  intros Hall. unfold parse_srt. cbv zeta.
  rewrite findall_srt_file by done. rewrite map_map. f_equal.
  apply map_ext_Forall. eapply Forall_impl; [exact Hall|].
  intros c (_ & _ & _ & _ & Hlines). unfold cue_line, transcript_line.
  cbn [m_start m_end m_text]. by rewrite replace_newlines_lines.
Qed.

Lemma parse_srt_reads_cues_witness :
  let cues := [Cue "1" "00:00:01,000" "00:00:03,500" ["halo semua"; "apa kabar"];
               Cue "2" "00:00:03,500" "00:00:06,000" ["baik"]] in
  srt_file cues
  = ("1" +:+ newline +:+ "00:00:01,000 --> 00:00:03,500" +:+ newline
     +:+ "halo semua" +:+ newline +:+ "apa kabar" +:+ newline +:+ newline
     +:+ "2" +:+ newline +:+ "00:00:03,500 --> 00:00:06,000" +:+ newline
     +:+ "baik")%string /\
  parse_srt (srt_file cues)
  = ("[00:00:01,000 - 00:00:03,500] halo semua apa kabar" +:+ newline
     +:+ "[00:00:03,500 - 00:00:06,000] baik")%string.
Proof.
  intros cues. split; [reflexivity|].
  rewrite (parse_srt_reads_cues cues); [reflexivity|].
  repeat (constructor;
          [split_and!; [done | by repeat constructor | reflexivity
                       | reflexivity
                       | repeat (constructor; [split; [done | by repeat constructor]|]);
                         constructor]|]).
  constructor.
Defined.

End SrtFacts.

(** ** The text and the duration of the hook *)

Section HookFacts.

Import Highlights Text Hook.

(** *** [str.split] *)

Lemma string_app_nil_l (s : string) : "" +:+ s = s.
Proof. reflexivity. Qed.

Lemma split_from_word (w cur s : string) :
  Forall (fun c => Captions.is_space c = false) (list_ascii_of_string w) ->
  split_from cur (w +:+ s) = split_from (cur +:+ w) s.
Proof.
  revert cur. induction w as [|c w IH]; intros cur Hw.
  - by rewrite string_app_nil_r.
  - simpl in Hw. apply Forall_cons in Hw as [Hc Hw].
    rewrite string_app_cons. cbn [split_from]. rewrite Hc, (IH _ Hw).
    by rewrite string_app_assoc.
Qed.

Lemma split_join_space (ws : list string) :
  Forall is_word ws -> split (Captions.join_space ws) = ws.
Proof.
  unfold split, Captions.join_space.
  induction 1 as [|w ws [Hne Hw] Hws IH]; [done|].
  destruct ws as [|w' ws].
  - cbn [String.concat]. rewrite <- (string_app_nil_r w) at 1.
    rewrite split_from_word by done. simpl. by destruct w.
  - change (String.concat " " (w :: w' :: ws))
      with (w +:+ " " +:+ String.concat " " (w' :: ws)).
    rewrite split_from_word by done.
    rewrite string_app_cons, !string_app_nil_l.
    cbn [split_from]. change (Captions.is_space " ") with true. cbv iota.
    rewrite IH. by destruct w.
Qed.

Lemma split_from_words (s cur : string) :
  Forall (fun c => Captions.is_space c = false) (list_ascii_of_string cur) ->
  Forall is_word (split_from cur s).
Proof.
  revert cur. induction s as [|c s IH]; intros cur Hcur.
  - simpl. destruct cur; [constructor|].
    constructor; [by split | constructor].
  - cbn [split_from]. destruct (Captions.is_space c) eqn:Hc.
    + destruct cur as [|x cur]; [by apply IH|].
      constructor; [by split | by apply IH].
    + apply IH. rewrite list_ascii_app. apply Forall_app. split; [done|].
      simpl. constructor; [done | constructor].
Qed.

Lemma split_words (s : string) : Forall is_word (split s).
Proof. apply split_from_words. constructor. Qed.

(** *** The lines of the hook *)

Lemma lines_loop_groups (words : list string) :
  forall lines current_line, (length current_line < 3)%nat ->
  exists groups rest,
    lines_loop words lines current_line
    = (lines ++ map Captions.join_space groups, rest) /\
    Forall (fun g => length g = 3%nat) groups /\
    concat groups ++ rest = current_line ++ words /\
    (length rest < 3)%nat.
Proof.
  induction words as [|word words IH]; intros lines cur Hcur.
  - exists [], cur. simpl. rewrite !app_nil_r. done.
  - cbn [lines_loop]. rewrite length_app. cbn [length].
    destruct (Nat.leb_spec 3 (length cur + 1)) as [Hfull | Hmore].
    + destruct (IH (lines ++ [Captions.join_space (cur ++ [word])]) [])
        as (groups & rest & E & Hg & Hc & Hr); [simpl; lia|].
      exists ((cur ++ [word]) :: groups), rest. split_and!.
      * rewrite E. cbn [map]. by rewrite <- app_assoc.
      * constructor; [|done]. rewrite length_app. simpl. lia.
      * cbn [concat]. rewrite <- !app_assoc. simpl in *. by rewrite Hc.
      * done.
    + destruct (IH lines (cur ++ [word])) as (groups & rest & E & Hg & Hc & Hr).
      { rewrite length_app. simpl. lia. }
      exists groups, rest. split_and!; [done | done | | done].
      by rewrite Hc, <- app_assoc.
Qed.

(** X17: add_hook upper-cases the hook text and cuts it into lines that
    together hold exactly its words, in order; every line has between 1 and
    3 words and every line but the last has exactly 3. *)
Theorem hook_lines_words (hook_text : string) :
  concat (map split (hook_lines hook_text))
  = split (Captions.upper hook_text) /\
  Forall (fun line => (1 <= length (split line) <= 3)%nat)
         (hook_lines hook_text) /\
  forall k line, hook_lines hook_text !! k = Some line ->
    (S k < length (hook_lines hook_text))%nat -> length (split line) = 3%nat.
Proof.
  unfold hook_lines. cbv zeta.
  pose proof (split_words (Captions.upper hook_text)) as Hw.
  set (words := split (Captions.upper hook_text)) in *.
  destruct (lines_loop_groups words [] [] ltac:(simpl; lia))
    as (groups & rest & E & Hg & Hc & Hr).
  rewrite E. simpl in Hc. cbn [app].
  assert (Hgw : Forall (Forall is_word) groups /\ Forall is_word rest).
  { rewrite <- Hc in Hw. apply Forall_app in Hw as [Hw1 Hw2]. split; [|done].
    clear -Hw1. induction groups as [|g gs IH]; [constructor|].
    cbn [concat] in Hw1. apply Forall_app in Hw1 as [H1 H2].
    constructor; [done | by apply IH]. }
  destruct Hgw as [Hgw Hrw].
  assert (Hsplit : map split (map Captions.join_space groups) = groups).
  { rewrite map_map. clear -Hgw. induction Hgw as [|g gs Hgg _ IH]; [done|].
    cbn [map]. by rewrite split_join_space, IH. }
  assert (Hlen : Forall (fun line => length (split line) = 3%nat)
                   (map Captions.join_space groups)).
  { apply Forall_map. clear -Hg Hgw.
    induction Hg as [|g gs Hl _ IH]; [constructor|].
    apply Forall_cons in Hgw as [Hgg Hgw].
    constructor; [|by apply IH]. simpl. by rewrite split_join_space. }
  destruct rest as [|r rest].
  - rewrite app_nil_r in Hc. split_and!.
    + by rewrite Hsplit.
    + eapply Forall_impl; [exact Hlen|]. simpl. lia.
    + intros k line Hk _.
      by apply (proj1 (Forall_lookup _ _) Hlen k line).
  - split_and!.
    + rewrite map_app, concat_app, Hsplit. cbn [map concat].
      by rewrite split_join_space, app_nil_r.
    + apply Forall_app. split.
      * eapply Forall_impl; [exact Hlen|]. simpl. lia.
      * constructor; [|constructor]. rewrite split_join_space by done.
        simpl in *. lia.
    + intros k line Hk Hlast. rewrite length_app in Hlast. simpl in Hlast.
      rewrite lookup_app_l in Hk by lia.
      by apply (proj1 (Forall_lookup _ _) Hlen k line).
Qed.

(** *** The escaping of a line *)

Lemma escape_line_cons (c : ascii) (line : string) :
  escape_line (String c line) = escape_char c +:+ escape_line line.
Proof.
  unfold escape_line, escape_char. cbn [replace_char].
  destruct (Ascii.eqb c "'") eqn:E1.
  { rewrite !replace_char_app. reflexivity. }
  cbn [replace_char]. destruct (Ascii.eqb c ":") eqn:E2.
  { rewrite !replace_char_app. reflexivity. }
  cbn [replace_char]. destruct (Ascii.eqb c (ascii_of_nat 92)) eqn:E3; done.
Qed.

(** X18: The three chained replace calls that escape a hook line for
    drawtext act character by character: a quote becomes quote, two
    backslashes, two quotes; a colon becomes two backslashes and the colon;
    a backslash is doubled; every other character is kept. The backslash
    that the first two calls introduce is itself doubled by the third. *)
Theorem escape_line_per_character (line : string) :
  escape_line line
  = String.concat "" (map escape_char (list_ascii_of_string line)).
Proof.
  induction line as [|c line IH]; [done|].
  rewrite escape_line_cons, IH. cbn [list_ascii_of_string map].
  destruct (map escape_char (list_ascii_of_string line)) eqn:E; [|done].
  simpl. by rewrite string_app_nil_r.
Qed.

(** *** The duration of the hook *)

Lemma digits_value_total (s : string) :
  Forall (fun c => is_digit c = true) (list_ascii_of_string s) ->
  forall acc, is_Some (digits_value acc s).
Proof.
  induction s as [|c s IH]; intros H acc; [done|].
  simpl in H. apply Forall_cons in H as [Hc Hs]. simpl. rewrite Hc.
  by apply IH.
Qed.

Lemma int_of_string_total (s : string) :
  s <> EmptyString ->
  Forall (fun c => is_digit c = true) (list_ascii_of_string s) ->
  exists n, int_of_string s = Ok n /\ 0 <= n.
Proof.
  intros Hne Hs. destruct (digits_value_total s Hs 0) as [n Hn].
  exists n. split; [by apply int_of_string_digits|].
  by eapply digits_value_nonneg.
Qed.

Lemma float_of_string_total (a b : string) :
  a <> EmptyString ->
  Forall (fun c => is_digit c = true) (list_ascii_of_string a) ->
  Forall (fun c => is_digit c = true) (list_ascii_of_string b) ->
  exists v, float_of_string (a +:+ "." +:+ b) = Ok v /\ (0 <= v)%Q.
Proof.
  intros Hne Ha Hb.
  destruct (digits_value_total a Ha 0) as [n Hn].
  destruct (digits_value_total b Hb 0) as [m Hm].
  assert (E : float_of_string (a +:+ "." +:+ b)
              = Ok (inject_Z n + inject_Z m
                                 / inject_Z (10 ^ Z.of_nat (String.length b)))%Q).
  { unfold float_of_string. rewrite split_dot_app by (by apply digits_not).
    rewrite (int_of_string_digits a n) by done. cbn [rbind]. by rewrite Hm. }
  eexists. split; [exact E|]. by eapply float_of_string_nonneg.
Qed.



End HookFacts.

(** ** The video id of a URL *)

Section AppFacts.

Import Highlights Text App Pipeline.

Lemma match_classes_exact (class : ascii -> bool) (n : nat) (a : string) :
  String.length a = n ->
  Forall (fun c => class c = true) (list_ascii_of_string a) ->
  match_classes (replicate n class) a = Some (a, EmptyString).
Proof.
  revert a. induction n as [|n IH]; intros a Hlen Ha.
  - by destruct a.
  - destruct a as [|x a]; [done|]. simpl in *.
    apply Forall_cons in Ha as [Hx Ha]. rewrite Hx.
    rewrite (IH a) by (done || lia). done.
Qed.

Lemma match_watch_at_inv (s video_id : string) :
  match_watch_at s = Some video_id ->
  String.length video_id = 11%nat /\
  Forall (fun c => is_id_char c = true) (list_ascii_of_string video_id).
Proof.
  unfold match_watch_at. intros H.
  apply bind_Some in H as (r & _ & H).
  apply bind_Some in H as ([m r'] & E & H). injection H as <-.
  apply match_classes_inv in E as (_ & Hlen & Hall).
  rewrite length_replicate in Hlen. split; [done|].
  clear -Hall. revert Hall. generalize (list_ascii_of_string m).
  generalize 11%nat. intros n l. revert l.
  induction n as [|n IH]; intros l H; simpl in H.
  - apply Forall2_nil_inv_l in H as ->. constructor.
  - apply Forall2_cons_inv_l in H as (c & l' & Hc & Hl & ->).
    constructor; [done | by apply IH].
Qed.

Lemma match_short_at_watch (s video_id : string) :
  match_short_at s = Some video_id ->
  exists r, s = "youtu.be" +:+ r /\ match_watch_at r = Some video_id.
Proof.
  unfold match_short_at. intros H.
  apply bind_Some in H as (r & E & H).
  apply match_literal_inv in E as ->.
  exists ("/" +:+ r). split; [done|].
  unfold match_watch_at. rewrite string_app_cons, string_app_nil_l.
  exact H.
Qed.

(** X20: extract_video_id is decided by its first pattern alone: whenever
    the youtu.be pattern matches, the first pattern (v= or a slash, then 11
    id characters) matches too, so the result is always the leftmost match
    of the first pattern; a returned id has exactly 11 characters of
    [0-9A-Za-z_-]. *)
Theorem extract_video_id_first_pattern (url : string) :
  extract_video_id url = search match_watch_at url /\
  forall video_id, extract_video_id url = Some video_id ->
    String.length video_id = 11%nat /\
    Forall (fun c => is_id_char c = true) (list_ascii_of_string video_id).
Proof.
  assert (E : extract_video_id url = search match_watch_at url).
  { unfold extract_video_id.
    destruct (search match_watch_at url) as [v|] eqn:Ew; [done|].
    destruct (search match_short_at url) as [v|] eqn:Es; [|done].
    apply search_inv in Es as (pre & rest & -> & Hm).
    apply match_short_at_watch in Hm as (r & -> & Hr).
    rewrite <- string_app_assoc in Ew.
    destruct (search_found match_watch_at (pre +:+ "youtu.be") r
                ltac:(by rewrite Hr)) as [x Hx].
    congruence. }
  split; [exact E|]. intros v Hv. rewrite E in Hv.
  apply search_inv in Hv as (pre & rest & _ & Hm).
  by eapply match_watch_at_inv.
Qed.

Lemma search_skip {A} (match_at : string -> option A) (c : ascii) (s : string) :
  match_at (String c s) = None ->
  search match_at (String c s) = search match_at s.
Proof. intros H. simpl. by rewrite H. Qed.

Lemma search_here {A} (match_at : string -> option A) (s : string) (a : A) :
  match_at s = Some a -> search match_at s = Some a.
Proof. intros H. destruct s; simpl; by rewrite H. Qed.

Lemma match_watch_at_id (lit video_id rest : string) :
  lit = "v=" \/ lit = "/" ->
  String.length video_id = 11%nat ->
  Forall (fun c => is_id_char c = true) (list_ascii_of_string video_id) ->
  match_watch_at (lit +:+ video_id +:+ rest) = Some video_id.
Proof.
  intros Hlit Hlen Hid.
  pose proof (match_classes_app _ _ rest
                (match_classes_exact is_id_char 11 video_id Hlen Hid)) as Hm.
  unfold match_watch_at.
  destruct Hlit as [-> | ->]; rewrite !string_app_cons, string_app_nil_l;
    cbn [match_literal Ascii.eqb Bool.eqb mbind option_bind]; by rewrite Hm.
Qed.

(** X21: For every id of 11 characters of [0-9A-Za-z_-] and every suffix,
    extract_video_id returns that id from
    https://www.youtube.com/watch?v=<id><suffix> and from
    https://youtu.be/<id><suffix>. *)
Theorem extract_video_id_of_url (video_id rest : string) :
  String.length video_id = 11%nat ->
  Forall (fun c => is_id_char c = true) (list_ascii_of_string video_id) ->
  extract_video_id ("https://www.youtube.com/watch?v=" +:+ video_id +:+ rest)
  = Some video_id /\
  extract_video_id ("https://youtu.be/" +:+ video_id +:+ rest)
  = Some video_id.
Proof.
  intros Hlen Hid.
  pose proof (match_watch_at_id "v=" video_id rest ltac:(by left) Hlen Hid)
    as Hv.
  pose proof (match_watch_at_id "/" video_id rest ltac:(by right) Hlen Hid)
    as Hs.
  rewrite !string_app_cons, string_app_nil_l in Hv.
  rewrite !string_app_cons, string_app_nil_l in Hs.
  set (tail := video_id +:+ rest) in *.
  unfold extract_video_id. split.
  - rewrite !string_app_cons, string_app_nil_l.
    repeat (rewrite search_skip by reflexivity).
    by rewrite (search_here _ _ _ Hv).
  - rewrite !string_app_cons, string_app_nil_l.
    repeat (rewrite search_skip by reflexivity).
    by rewrite (search_here _ _ _ Hs).
Qed.

Lemma extract_video_id_of_url_witness :
  extract_video_id "https://www.youtube.com/watch?v=dQw4w9WgXcQ&t=42"
  = Some "dQw4w9WgXcQ"%string /\
  extract_video_id "https://youtu.be/dQw4w9WgXcQ&t=42"
  = Some "dQw4w9WgXcQ"%string.
Proof.
  apply (extract_video_id_of_url "dQw4w9WgXcQ" "&t=42"); [done|].
  by repeat constructor.
Defined.

End AppFacts.

(** ** The download loop and the cancellation of a run *)

Section DownloadFacts.

Import Highlights Text Pipeline App.

Lemma bind_raise_inv {A B} (m : M A) (k : A -> M B) (w w' : world)
    (err : exn) :
  bind m k w = (Raise err, w') ->
  (exists a w1, m w = (Ok a, w1) /\ k a w1 = (Raise err, w')) \/
  m w = (Raise err, w').
Proof.
  unfold bind. destruct (m w) as [[a|e] w1]; intros H.
  - left. by exists a, w1.
  - right. by injection H as <- <-.
Qed.

Lemma bind_ok_inv {A B} (m : M A) (k : A -> M B) (w w' : world) (b : B) :
  bind m k w = (Ok b, w') ->
  exists a w1, m w = (Ok a, w1) /\ k a w1 = (Ok b, w').
Proof.
  unfold bind. destruct (m w) as [[a|e] w1]; intros H; [|done].
  by exists a, w1.
Qed.

Lemma match_percent_at_float (s p : string) :
  match_percent_at s = Some p -> exists v, float_of_string p = Ok v.
Proof.
  unfold match_percent_at.
  destruct (take_digits s) as [d1 r1] eqn:E1.
  pose proof (take_digits_digits _ _ _ E1) as Hd1.
  destruct d1 as [|c1 d1]; [done|].
  destruct r1 as [|c r2]; [done|].
  destruct (Ascii.eqb c "%").
  { intros [= <-]. destruct (digits_value_total _ Hd1 0) as [n Hn].
    exists (inject_Z n). by apply float_of_string_digits. }
  destruct (Ascii.eqb c "."); [|done].
  destruct (take_digits r2) as [d2 r3] eqn:E2.
  pose proof (take_digits_digits _ _ _ E2) as Hd2.
  destruct r3 as [|c3 r3]; [done|].
  destruct (Ascii.eqb c3 "%"); [|done]. intros [= <-].
  destruct (float_of_string_total (String c1 d1) d2) as (v & Hv & _);
    [done | done | done |].
  by exists v.
Qed.

Lemma search_percent_float (line p : string) :
  search_percent line = Some p -> exists v, float_of_string p = Ok v.
Proof.
  induction line as [|c line IH]; simpl.
  - done.
  - destruct (match_percent_at (String c line)) eqn:E.
    + intros [= <-]. by eapply match_percent_at_float.
    + exact IH.
Qed.

Lemma download_line_returns (line last_progress : string) (w : world) :
  exists lp w', download_line line last_progress w = (Ok lp, w').
Proof.
  unfold download_line.
  destruct (Captions.strip line) as [|c l] eqn:Es; [by eexists _, _|].
  rewrite <- Es. clear Es c l.
  destruct (_ && _).
  - destruct (search_percent _) as [p|] eqn:Ep; [|by eexists _, _].
    destruct (String.eqb _ _); [by eexists _, _|].
    destruct (search_percent_float _ _ Ep) as [v Hv].
    unfold lift, bind. rewrite Hv. by eexists _, _.
  - destruct (_ || _); by eexists _, _.
Qed.

Lemma download_loop_raises e lines i lp w err w' :
  download_loop e lines i lp w = (Raise err, w') ->
  err = Exception "Cancelled by user" /\
  exists j, (i <= j <= i + length lines)%nat /\
            cancel e (PollDownload j) = true.
Proof.
  revert i lp w. induction lines as [|line lines IH]; intros i lp w;
    cbn [download_loop]; unfold is_cancelled; rewrite bind_ret_l.
  - destruct (cancel e (PollDownload i)) eqn:Ec; [|done].
    intros [= <- <-]. split; [done|]. exists i. split; [simpl; lia | done].
  - destruct (cancel e (PollDownload i)) eqn:Ec.
    { intros [= <- <-]. split; [done|]. exists i. split; [simpl; lia | done]. }
    destruct (download_line_returns line lp w) as (lp' & w1 & E).
    rewrite (bind_ok _ _ _ _ _ E). intros H.
    destruct (IH _ _ _ H) as (-> & j & Hj & Hc). split; [done|].
    exists j. split; [simpl; lia | done].
Qed.

Lemma download_loop_cancelled e lines i lp w j :
  (i <= j <= i + length lines)%nat ->
  cancel e (PollDownload j) = true ->
  exists w', download_loop e lines i lp w
             = (Raise (Exception "Cancelled by user"), w').
Proof.
  revert i lp w. induction lines as [|line lines IH]; intros i lp w Hj Hc;
    cbn [download_loop]; unfold is_cancelled; rewrite bind_ret_l.
  - simpl in Hj. assert (j = i) as -> by lia. rewrite Hc. by eexists.
  - destruct (cancel e (PollDownload i)) eqn:Ec; [by eexists|].
    destruct (download_line_returns line lp w) as (lp' & w1 & E).
    rewrite (bind_ok _ _ _ _ _ E). apply IH; [|done].
    simpl in Hj. assert (j <> i) by congruence. lia.
Qed.

Lemma download_loop_returns e lines i lp w :
  (forall j, (i <= j <= i + length lines)%nat ->
             cancel e (PollDownload j) = false) ->
  exists w', download_loop e lines i lp w = (Ok tt, w').
Proof.
  intros Hno. destruct (download_loop e lines i lp w) as [[[]|err] w'] eqn:E.
  - by eexists.
  - apply download_loop_raises in E as (_ & j & Hj & Hc).
    rewrite (Hno j Hj) in Hc. done.
Qed.

Lemma download_video_raises e out w err w' :
  download_video e out w = (Raise err, w') ->
  (err = Exception "Cancelled by user" /\
   exists j, (j <= length (yt_lines e))%nat /\
             cancel e (PollDownload j) = true) \/
  (err = Exception "Download failed!" /\ yt_returncode e <> 0).
Proof.
  unfold download_video. intros H.
  do 3 (apply bind_raise_inv in H as [(? & ? & _ & H) | E];
        [|discriminate E]).
  apply bind_raise_inv in H as [(a & w2 & E & H) | E].
  2:{ left. apply download_loop_raises in E as (-> & j & Hj & Hc).
      split; [done|]. exists j. split; [lia | done]. }
  right.
  apply bind_raise_inv in H as [(a1 & w3 & E1 & H) | E1].
  2:{ by destruct (yt_video e). }
  apply bind_raise_inv in H as [(a2 & w4 & E2 & H) | E2].
  2:{ by destruct (yt_srt e). }
  destruct (yt_returncode e =? 0) eqn:Erc; cbn [negb] in H.
  - apply bind_raise_inv in H as [(there & w5 & _ & H) | E3];
      [|discriminate E3].
    destruct there; [done|].
    apply bind_raise_inv in H as [(? & ? & _ & H) | H]; done.
  - injection H as <- <-. split; [done|]. by apply Z.eqb_neq.
Qed.

Lemma download_video_returns e out w :
  (forall j, (j <= length (yt_lines e))%nat ->
             cancel e (PollDownload j) = false) ->
  yt_returncode e = 0 ->
  exists v w', download_video e out w = (Ok v, w').
Proof.
  intros Hno Hrc.
  destruct (download_video e out w) as [[v|err] w'] eqn:E; [by eexists _, _|].
  apply download_video_raises in E as [(_ & j & Hj & Hc) | (_ & Hne)];
    [|done].
  by rewrite (Hno j Hj) in Hc.
Qed.

Lemma download_video_cancelled e out w j :
  (j <= length (yt_lines e))%nat ->
  cancel e (PollDownload j) = true ->
  exists w', download_video e out w
             = (Raise (Exception "Cancelled by user"), w').
Proof.
  intros Hj Hc. unfold download_video.
  do 3 (erewrite bind_ok; [|reflexivity]).
  match goal with |- context [bind (download_loop e _ _ _) _ ?w0] =>
    destruct (download_loop_cancelled e (yt_lines e) 0 EmptyString w0 j
                ltac:(lia) Hc) as (w' & E)
  end.
  rewrite (bind_raise _ _ _ _ _ E). by eexists.
Qed.

(** X22: The loop of download_video that reads the output of yt-dlp raises
    only the exception Cancelled by user, and only when one of its
    cancellation polls answers true; no output line makes it raise (the
    percentage matched by the progress pattern is always accepted by float),
    so without cancellation the loop reads every line and ends normally. *)
Theorem download_loop_raises_only_on_cancel e lines i lp w :
  (forall err w', download_loop e lines i lp w = (Raise err, w') ->
     err = Exception "Cancelled by user" /\
     exists j, (i <= j <= i + length lines)%nat /\
               cancel e (PollDownload j) = true) /\
  ((forall j, (i <= j <= i + length lines)%nat ->
              cancel e (PollDownload j) = false) ->
   exists w', download_loop e lines i lp w = (Ok tt, w')).
Proof.
  split.
  - intros err w'. apply download_loop_raises.
  - apply download_loop_returns.
Qed.

Lemma process_cancelled_in_download e out n w j :
  (j <= length (yt_lines e))%nat ->
  cancel e (PollDownload j) = true ->
  exists w', process e out n w
             = (Raise (Exception "Cancelled by user"), w').
Proof.
  intros Hj Hc. unfold process.
  erewrite bind_ok; [|reflexivity].
  match goal with |- context [bind (download_video e out) _ ?w0] =>
    destruct (download_video_cancelled e out w0 j Hj Hc) as (w' & E)
  end.
  rewrite (bind_raise _ _ _ _ _ E). by eexists.
Qed.

Lemma process_cancelled_after_download e out n w :
  (forall j, (j <= length (yt_lines e))%nat ->
             cancel e (PollDownload j) = false) ->
  yt_returncode e = 0 ->
  cancel e PollAfterDownload = true ->
  exists w', process e out n w = (Ok tt, w').
Proof.
  intros Hno Hrc Hc. unfold process.
  erewrite bind_ok; [|reflexivity].
  match goal with |- context [bind (download_video e out) _ ?w0] =>
    destruct (download_video_returns e out w0 Hno Hrc) as ([v s] & w' & E)
  end.
  rewrite (bind_ok _ _ _ _ _ E). unfold is_cancelled.
  rewrite bind_ret_l, Hc. by eexists.
Qed.

(** X23: In run_processing, for a run in which fetching the video metadata
    does not raise: a cancellation seen by the download loop always
    schedules on_cancelled, whatever the application's flag says when the
    exception arrives, because the message Cancelled by user contains
    cancel; a cancellation first seen at the poll after a successful
    download makes process return normally and, the flag being set,
    run_processing schedules no callback at all, neither on_complete nor
    on_cancelled. *)
Theorem run_processing_cancellation e cancelled out n w :
  ((exists j, (j <= length (yt_lines e))%nat /\
              cancel e (PollDownload j) = true) ->
   run_processing e cancelled out n w = [OnCancelled]) /\
  ((forall j, (j <= length (yt_lines e))%nat ->
              cancel e (PollDownload j) = false) ->
   yt_returncode e = 0 ->
   cancel e PollAfterDownload = true -> cancelled = true ->
   run_processing e cancelled out n w = []).
Proof.
  split.
  - intros (j & Hj & Hc). unfold run_processing.
    destruct (process_cancelled_in_download e out n w j Hj Hc) as (w' & ->).
    cbn [exn_text]. by rewrite orb_true_r.
  - intros Hno Hrc Hc ->. unfold run_processing.
    by destruct (process_cancelled_after_download e out n w Hno Hrc Hc)
      as (w' & ->).
Qed.

End DownloadFacts.

(** ** Temporary files *)

Section RunFacts.

Import Highlights Pipeline Runs.

Ltac present :=
  cbn [fs];
  repeat first
    [ apply present_insert_eq
    | apply present_delete; [intros [= ?]; lia |]
    | apply present_written
    | apply present_insert ].

Ltac step :=
  erewrite bind_ok;
  [ | first [ apply run_ffmpeg_eq
            | apply unlink_ok; present
            | reflexivity ] ];
  cbv beta iota; cbn [fs progress logs tmp_count].

Lemma lookup_written_ne (out p : path) (r : ffmpeg_result)
    (f : gmap path node) :
  out <> p -> written out r f !! p = f !! p.
Proof.
  intros H. unfold written. destruct (output r); [|done].
  by rewrite lookup_insert_ne.
Qed.

(** The lookup of a temporary name in a file system built by inserting,
    writing and deleting. *)
Ltac temp_lookup :=
  repeat first
    [ rewrite lookup_delete_eq
    | rewrite lookup_insert_eq
    | rewrite lookup_delete_ne by (first [done | intros [= ?]; lia])
    | rewrite lookup_insert_ne by (first [done | intros [= ?]; lia])
    | rewrite lookup_written_ne by (first [done | intros [= ?]; lia]) ].

Lemma convert_to_portrait_temps o i out w w' :
  fresh_temps w ->
  convert_to_portrait o i out w = (Ok tt, w') ->
  fresh_temps w' /\ same_temps w w'.
Proof.
  intros Hfresh. unfold convert_to_portrait.
  do 3 step. rewrite unlink_ok by present. intros [= <-].
  split; intros n; cbn [fs tmp_count]; [intros Hn|].
  - temp_lookup. apply Hfresh. lia.
  - destruct (decide (n = tmp_count w)) as [->|Hne]; temp_lookup.
    + symmetry. by apply Hfresh.
    + done.
Qed.

Lemma add_hook_temps o i out w d w' :
  fresh_temps w ->
  add_hook o i out w = (Ok d, w') ->
  fresh_temps w' /\ same_temps w w'.
Proof.
  intros Hfresh. unfold add_hook.
  destruct (tts o) as [audio|err]; [|done].
  repeat step.
  set (c := tmp_count w).
  assert (Hc : forall n, (c <= n)%nat -> fs w !! inr n = None) by exact Hfresh.
  assert (Hcases : forall n : nat,
            n = c \/ n = S c \/ n = S (S c) \/ n = S (S (S c)) \/
            (n <> c /\ n <> S c /\ n <> S (S c) /\ n <> S (S (S c)))) by lia.
  destruct (negb (returncode (concat_run o) =? 0)); repeat step;
    intros [= <- <-]; (split; intros n; cbn [fs tmp_count]; [intros Hn|]).
  - temp_lookup. apply Hc. lia.
  - destruct (Hcases n) as [-> | [-> | [-> | [-> | (? & ? & ? & ?)]]]];
      temp_lookup; first [done | symmetry; apply Hc; lia].
  - temp_lookup. apply Hc. lia.
  - destruct (Hcases n) as [-> | [-> | [-> | [-> | (? & ? & ? & ?)]]]];
      temp_lookup; first [done | symmetry; apply Hc; lia].
Qed.

(** X24: Started in a state where no temporary name still to be issued is on
    disk, convert_to_portrait and add_hook, when they return normally, have
    removed every temporary file they created: the temporary files on disk
    are exactly those that were there before the call. *)
Theorem temporary_files_removed w :
  fresh_temps w ->
  (forall o i out w',
     convert_to_portrait o i out w = (Ok tt, w') ->
     fresh_temps w' /\ same_temps w w') /\
  (forall o i out d w',
     add_hook o i out w = (Ok d, w') ->
     fresh_temps w' /\ same_temps w w').
Proof.
  intros Hfresh. split.
  - intros o i out w'. by apply convert_to_portrait_temps.
  - intros o i out d w'. by apply add_hook_temps.
Qed.

Lemma example_world_fresh : fresh_temps example_world.
Proof. intros n _. by apply lookup_singleton_ne. Qed.

Lemma temporary_files_removed_witness :
  fresh_temps example_world /\
  fresh_temps
    (convert_to_portrait (PortraitOutcome "frames" (ok_run "portrait"))
       ["in.mp4"%string] ["out.mp4"%string] example_world).2 /\
  same_temps example_world
    (convert_to_portrait (PortraitOutcome "frames" (ok_run "portrait"))
       ["in.mp4"%string] ["out.mp4"%string] example_world).2.
Proof.
  split; [exact example_world_fresh|].
  apply (proj1 (temporary_files_removed example_world example_world_fresh)
           (PortraitOutcome "frames" (ok_run "portrait"))
           ["in.mp4"%string] ["out.mp4"%string]).
  apply run_result. reflexivity.
Defined.

Lemma copy_inv (src dst : path) (w w' : world) :
  copy src dst w = (Ok tt, w') ->
  exists data,
    w' = {| fs := <[dst := File data]> (fs w); progress := progress w;
            logs := logs w; tmp_count := tmp_count w |}.
Proof.
  unfold copy. destruct (decide (src = dst)); [done|].
  destruct (fs w !! src) as [[data|]|]; [|done..].
  intros [= <-]. by exists data.
Qed.

Lemma getsize_ok (p : path) (w : world) :
  is_Some (fs w !! p) -> exists size, getsize p w = (Ok size, w).
Proof.
  intros [node H]. unfold getsize. rewrite H. destruct node; eauto.
Qed.

Lemma path_exists_true (p : path) (w : world) :
  is_Some (fs w !! p) -> path_exists p w = (Ok true, w).
Proof. intros H. unfold path_exists. by rewrite bool_decide_true. Qed.

(** The shape of a world at the end of a run: a temporary name is looked
    up in it. *)
Ltac temps_goal Hc c :=
  split; intros n; cbn [fs tmp_count]; [intros Hn|];
  [ temp_lookup; apply Hc; lia
  | destruct (decide (n = c)) as [->|];
    [ | destruct (decide (n = S c)) as [->|] ];
    temp_lookup; first [done | symmetry; apply Hc; lia] ].

(** X25: When add_captions_api returns normally after an audio extraction
    that succeeded, it has removed all its temporary files; when the
    extraction fails (non-zero return code) it returns with the temporary
    .wav file, which NamedTemporaryFile(delete=False) created, still on
    disk. *)
Theorem add_captions_api_temporary_files o i out a t w w' :
  fresh_temps w ->
  add_captions_api o i out a t w = (Ok tt, w') ->
  (returncode (extract_run o) = 0 -> fresh_temps w' /\ same_temps w w') /\
  (returncode (extract_run o) <> 0 ->
   is_Some (fs w' !! inr (tmp_count w))).
Proof.
  intros Hfresh. unfold add_captions_api.
  do 2 step.
  set (c := tmp_count w).
  assert (Hc : forall n, (c <= n)%nat -> fs w !! inr n = None) by exact Hfresh.
  destruct (Z.eqb_spec (returncode (extract_run o)) 0) as [Hrc | Hrc];
    cbn [negb].
  2:{ (* the extraction failed: the audio file stays *)
      step. intros H. apply copy_inv in H as (data & ->).
      split; [done|]. intros _. present. }
  intros H. split; [intros _ | done]. revert H.
  erewrite bind_ok by (apply path_exists_true; present).
  cbv beta iota.
  lazymatch goal with
  | |- context [bind (bind (getsize ?p) _) _ ?w0] =>
    destruct (getsize_ok p w0 ltac:(present)) as [size Hsz]
  end.
  erewrite (bind_ok (bind _ _)); [| erewrite bind_ok; [reflexivity | exact Hsz]].
  cbv beta.
  destruct (size <? 1000)%nat.
  { (* the audio is too small *)
    step. intros H.
    apply bind_ok_inv in H as ([] & w1 & Ecopy & H).
    apply copy_inv in Ecopy as (data & ->). revert H.
    cbn [fs progress logs tmp_count].
    erewrite bind_ok by (apply path_exists_true; present).
    cbv beta iota. rewrite unlink_ok by present.
    intros [= <-]. temps_goal Hc c. }
  destruct (stt o) as [transcript | err].
  2:{ (* the speech-to-text call raised *)
      step. intros H.
      apply bind_ok_inv in H as ([] & w1 & Ecopy & H).
      apply copy_inv in Ecopy as (data & ->). revert H.
      cbn [fs progress logs tmp_count].
      rewrite unlink_ok by present.
      intros [= <-]. temps_goal Hc c. }
  repeat step.
  destruct (negb (returncode (burn_run o) =? 0)).
  - step. intros H. apply copy_inv in H as (data & ->). temps_goal Hc c.
  - intros [= <-]. temps_goal Hc c.
Qed.

Lemma add_captions_api_temporary_files_witness :
  is_Some
    (fs (add_captions_api extraction_fails ["in.mp4"%string]
           ["out.mp4"%string] None 0 example_world).2 !! inr 0%nat).
Proof.
  refine (proj2 (add_captions_api_temporary_files extraction_fails
                   ["in.mp4"%string] ["out.mp4"%string] None 0 example_world _
                   example_world_fresh _) _).
  - apply run_result. reflexivity.
  - discriminate.
Defined.

Lemma add_captions_api_output o i out a t w w' :
  add_captions_api o i out a t w = (Ok tt, w') ->
  (returncode (burn_run o) = 0 -> is_Some (output (burn_run o))) ->
  is_Some (fs w' !! inl out).
Proof.
  intros H Hburn. revert H. unfold add_captions_api.
  do 2 step.
  destruct (negb (returncode (extract_run o) =? 0)).
  { step. intros H. apply copy_inv in H as (data & ->). present. }
  erewrite bind_ok by (apply path_exists_true; present).
  cbv beta iota.
  lazymatch goal with
  | |- context [bind (bind (getsize ?p) _) _ ?w0] =>
    destruct (getsize_ok p w0 ltac:(present)) as [size Hsz]
  end.
  erewrite (bind_ok (bind _ _)); [| erewrite bind_ok; [reflexivity | exact Hsz]].
  cbv beta.
  destruct (size <? 1000)%nat.
  { step. intros H.
    apply bind_ok_inv in H as ([] & w1 & Ecopy & H).
    apply copy_inv in Ecopy as (data & ->). revert H.
    cbn [fs progress logs tmp_count].
    erewrite bind_ok by (apply path_exists_true; present).
    cbv beta iota. rewrite unlink_ok by present.
    intros [= <-]. cbn [fs]. rewrite lookup_delete_ne by done. present. }
  destruct (stt o) as [transcript | err].
  2:{ step. intros H.
      apply bind_ok_inv in H as ([] & w1 & Ecopy & H).
      apply copy_inv in Ecopy as (data & ->). revert H.
      cbn [fs progress logs tmp_count].
      rewrite unlink_ok by present.
      intros [= <-]. cbn [fs]. rewrite lookup_delete_ne by done. present. }
  repeat step.
  destruct (Z.eqb_spec (returncode (burn_run o)) 0) as [Hrc | Hrc];
    cbn [negb].
  - intros [= <-]. cbn [fs]. rewrite lookup_delete_ne by done.
    destruct (Hburn Hrc) as [data Hdata]. unfold written at 1.
    rewrite Hdata. present.
  - step. intros H. apply copy_inv in H as (data & ->). present.
Qed.

Lemma clip_file_ne (dir : list string) (a b : string) :
  a <> b -> (inl (dir ++ [a]) : path) <> inl (dir ++ [b]).
Proof. intros Hab [= E]. apply app_inv_head in E. congruence. Qed.

(** X26: When process_clip runs to its end (no cancellation at its polls,
    normal return), temp_landscape.mp4, temp_portrait.mp4 and
    temp_hooked.mp4 are gone from the clip folder, data.json is written, and
    master.mp4 is on disk provided a caption burn that returned 0 wrote its
    output. *)
Theorem process_clip_completes e out video h k n w w' :
  (forall s, cancel e (PollClip k s) = false) ->
  process_clip e out video h k n w = (Ok tt, w') ->
  let dir := clip_dir e out k in
  fs w' !! inl (dir ++ ["temp_landscape.mp4"%string]) = None /\
  fs w' !! inl (dir ++ ["temp_portrait.mp4"%string]) = None /\
  fs w' !! inl (dir ++ ["temp_hooked.mp4"%string]) = None /\
  fs w' !! inl (dir ++ ["data.json"%string]) = Some (File metadata_text) /\
  ((returncode (burn_run (caption e k)) = 0 ->
    is_Some (output (burn_run (caption e k)))) ->
   is_Some (fs w' !! inl (dir ++ ["master.mp4"%string]))).
Proof.
  intros Hc H dir.
  unfold process_clip, process_clip_from_portrait, is_cancelled in H.
  fold dir in H.
  repeat lazymatch type of H with
    | bind (ret _) _ _ = _ => rewrite bind_ret_l, Hc in H
    | bind (add_captions_api _ _ _ _ _) _ _ = _ => fail
    | bind _ _ _ = _ => apply bind_ok_inv in H as (? & ? & _ & H)
    end.
  apply bind_ok_inv in H as ([] & wc & Ecap & H).
  pose proof (add_captions_api_output _ _ _ _ _ _ _ Ecap) as Hmaster.
  unfold bind, log, clip_progress, set_progress, unlink_missing_ok, set_fs,
    lift, write_file in H.
  destruct (getitem h "duration_seconds"); [|done].
  injection H as <-. cbn [fs].
  split_and!.
  - rewrite lookup_insert_ne by (by apply clip_file_ne).
    rewrite !lookup_delete_ne by (by apply clip_file_ne).
    by rewrite lookup_delete_eq.
  - rewrite lookup_insert_ne by (by apply clip_file_ne).
    rewrite lookup_delete_ne by (by apply clip_file_ne).
    by rewrite lookup_delete_eq.
  - rewrite lookup_insert_ne by (by apply clip_file_ne).
    by rewrite lookup_delete_eq.
  - by rewrite lookup_insert_eq.
  - intros Hburn. specialize (Hmaster Hburn).
    rewrite lookup_insert_ne by (by apply clip_file_ne).
    by rewrite !lookup_delete_ne by (by apply clip_file_ne).
Qed.

Lemma process_clip_completes_witness :
  fs (process_clip
        (example_env (fun _ => false) (fun _ => Ok "speech"%string))
        ["out"%string] ["out"; "_temp"; "source.mp4"]%string
        (with_duration (candidate "00:10:00,000" "00:11:30,000" "first"))
        1 1 (initial_world ["out"%string])).2
  !! inl (clip_dir (example_env (fun _ => false) (fun _ => Ok "speech"%string))
            ["out"%string] 1 ++ ["temp_hooked.mp4"%string]) = None.
Proof.
  assert (Hrun :
    process_clip
      (example_env (fun _ => false) (fun _ => Ok "speech"%string))
      ["out"%string] ["out"; "_temp"; "source.mp4"]%string
      (with_duration (candidate "00:10:00,000" "00:11:30,000" "first"))
      1 1 (initial_world ["out"%string])
    = (Ok tt,
       (process_clip
          (example_env (fun _ => false) (fun _ => Ok "speech"%string))
          ["out"%string] ["out"; "_temp"; "source.mp4"]%string
          (with_duration (candidate "00:10:00,000" "00:11:30,000" "first"))
          1 1 (initial_world ["out"%string])).2)).
  { apply run_result. vm_compute. reflexivity. }
  exact (proj1 (proj2 (proj2
    (process_clip_completes
       (example_env (fun _ => false) (fun _ => Ok "speech"%string))
       ["out"%string] ["out"; "_temp"; "source.mp4"]%string
       (with_duration (candidate "00:10:00,000" "00:11:30,000" "first"))
       1 1 (initial_world ["out"%string]) _ (fun _ => eq_refl) Hrun)))).
Defined.

End RunFacts.
